(** * ESP32 controller: scheduler, auto-off timers, task store and the
      MicroWebSrv request router

    A shallow embedding of
      - esp-board/lib/task_manager.py      (TaskManager)
      - esp-board/lib/relay_controller.py  (RelayController)
      - esp-board/main_board.py            (ESP32Controller: scheduler tick,
                                            auto-off timers, shutdown)
      - esp-board/lib/MicroWebServ/microWebSrv.py
                                           (route table, static paths,
                                            per-connection processing)
    together with the properties of these functions, for the interpreters
    the sources provide for (MicroPython on the board, and CPython).

    Python objects that are mutated in place (the task list, the dictionaries
    of the controller, the Timer objects) are fields of one explicit state
    record that every operation takes and returns. *)

From Stdlib Require Import ZArith String Ascii List Bool Lia DecimalString DecimalPos.
From stdpp Require Import base gmap strings list fin_maps.

Open Scope string_scope.
Open Scope list_scope.
Open Scope Z_scope.

(* ===================================================================== *)
(** ** The interpreter *)
(* ===================================================================== *)

(** The board runs MicroPython; microWebSrv.py also provides for CPython
    ([_client.__init__] tests which of the two it is on).  A string is a
    sequence of characters: the codes 0 to 127 are the ASCII characters, a
    code from 128 on stands for a character beyond ASCII.  What every
    interpreter does alike is defined once, below and in [PyStr]; what
    interpreters do differently, or do beyond ASCII, is a field of
    [Interpreter].  The functions that call the library take the
    interpreter as an implicit argument, and a property that names no
    interpreter holds for every one. *)

Definition is_ascii (c : ascii) : bool := (nat_of_ascii c <? 128)%nat.

Fixpoint all_chars (P : ascii -> bool) (s : string) : bool :=
  match s with
  | EmptyString => true
  | String c s' => P c && all_chars P s'
  end.

Definition ascii_only (s : string) : bool := all_chars is_ascii s.

(** The upper-case and lower-case forms of an ASCII character. *)
Definition upper_char (c : ascii) : ascii :=
  let n := nat_of_ascii c in
  if (97 <=? n)%nat && (n <=? 122)%nat then ascii_of_nat (n - 32) else c.

Definition lower_char (c : ascii) : ascii :=
  let n := nat_of_ascii c in
  if (65 <=? n)%nat && (n <=? 90)%nat then ascii_of_nat (n + 32) else c.

Fixpoint map_chars (f : ascii -> ascii) (s : string) : string :=
  match s with
  | EmptyString => EmptyString
  | String c s' => String (f c) (map_chars f s')
  end.

(** A function on text that works character by character on ASCII text
    and is the interpreter's own on any other text. *)
Definition on_ascii (f : ascii -> ascii) (beyond : string -> string) (s : string) : string :=
  if ascii_only s then map_chars f s else beyond s.

Definition is_letter (c : ascii) : bool :=
  let n := nat_of_ascii c in
  ((65 <=? n) && (n <=? 90) || (97 <=? n) && (n <=? 122))%nat.

Definition is_digit (c : ascii) : bool :=
  let n := nat_of_ascii c in ((48 <=? n) && (n <=? 57))%nat.

Definition digit_val (c : ascii) : Z := Z.of_nat (nat_of_ascii c) - 48.

(** The number a run of decimal digits denotes, after the digits read so
    far gave [acc]. *)
Fixpoint decimal (acc : Z) (s : string) : Z :=
  match s with
  | EmptyString => acc
  | String c s' => decimal (acc * 10 + digit_val c) s'
  end.

(** Space and the codes 9 to 13: blank for every interpreter. *)
Definition is_blank (c : ascii) : bool :=
  let n := nat_of_ascii c in
  ((n =? 32) || (9 <=? n) && (n <=? 13))%nat.

Fixpoint lstrip_with (P : ascii -> bool) (s : string) : string :=
  match s with
  | String c s' => if P c then lstrip_with P s' else s
  | EmptyString => EmptyString
  end.

(** What an interpreter decides.  The two instances follow: MicroPython,
    and CPython, whose [str.upper] and [str.lower] follow Unicode beyond
    ASCII (a sharp s becomes SS), whose [str.strip] also removes the codes
    28 to 31 and the blanks beyond ASCII, whose [\w] matches the letters
    and digits beyond ASCII, and whose [int()] accepts the digits beyond
    ASCII. *)
Class Interpreter := {
  (* [str.upper()] and [str.lower()] of a text with a character beyond
     ASCII *)
  upper_beyond_ascii : string -> string;
  lower_beyond_ascii : string -> string;
  (* the characters [str.strip()] removes besides the blank ones above *)
  space_besides : ascii -> bool;
  (* the characters beyond ASCII that [\w] matches *)
  word_beyond_ascii : ascii -> bool;
  (* [$] also matches just before a newline that ends the text *)
  dollar_before_newline : bool;
  (* the longest run of digits [int()] converts, when there is a limit *)
  int_max_str_digits : option nat;
  (* [int()] of a text that is not empty, is not made of ASCII digits
     only and holds no ASCII letter; [None] is the ValueError *)
  int_other : string -> option Z;
  (* upper-casing, or lower-casing, a second time changes nothing *)
  upper_beyond_ascii_twice : forall s,
    on_ascii upper_char upper_beyond_ascii (upper_beyond_ascii s) = upper_beyond_ascii s;
  lower_beyond_ascii_twice : forall s,
    on_ascii lower_char lower_beyond_ascii (lower_beyond_ascii s) = lower_beyond_ascii s;
}.

(** *** MicroPython *)

(** The digit loop of MicroPython's [int()] (py/parsenum.c) in base 10:
    digits are added up, underscores are passed over wherever they stand,
    and the loop stops at any other character; the result is the number
    and the text from that character on. *)
Fixpoint scan_digits (acc : Z) (s : string) : Z * string :=
  match s with
  | String c s' =>
      if is_digit c then scan_digits (acc * 10 + digit_val c) s'
      else if Ascii.eqb c "_" then scan_digits acc s'
      else (acc, s)
  | EmptyString => (acc, EmptyString)
  end.

(** MicroPython's [int()]: blanks, an optional sign, the digit loop, which
    has to pass at least one character, and blanks up to the end. *)
Definition micropython_int (s : string) : option Z :=
  let s1 := lstrip_with is_blank s in
  let '(neg, s2) :=
    match s1 with
    | String c r =>
        if Ascii.eqb c "+" then (false, r)
        else if Ascii.eqb c "-" then (true, r)
        else (false, s1)
    | EmptyString => (false, s1)
    end in
  let '(v, rest) := scan_digits 0 s2 in
  if (String.length rest =? String.length s2)%nat then None
  else if String.eqb (lstrip_with is_blank rest) "" then Some (if neg then - v else v)
  else None.

Lemma map_upper_char_twice s :
  on_ascii upper_char (map_chars upper_char) (map_chars upper_char s) = map_chars upper_char s.
Proof.
  assert (Htwice : map_chars upper_char (map_chars upper_char s) = map_chars upper_char s).
  { induction s as [|c s IH]; [reflexivity|]. cbn [map_chars]. rewrite IH. f_equal.
    by destruct c as [[] [] [] [] [] [] [] []]. }
  unfold on_ascii. by destruct (ascii_only _).
Qed.

Lemma map_lower_char_twice s :
  on_ascii lower_char (map_chars lower_char) (map_chars lower_char s) = map_chars lower_char s.
Proof.
  assert (Htwice : map_chars lower_char (map_chars lower_char s) = map_chars lower_char s).
  { induction s as [|c s IH]; [reflexivity|]. cbn [map_chars]. rewrite IH. f_equal.
    by destruct c as [[] [] [] [] [] [] [] []]. }
  unfold on_ascii. by destruct (ascii_only _).
Qed.

(** MicroPython's library knows ASCII only: beyond it no character has
    another case, is blank or is a word character; [$] matches at the very
    end only, and [int()] has no limit. *)
#[export] Instance MicroPython : Interpreter := {|
  upper_beyond_ascii := map_chars upper_char;
  lower_beyond_ascii := map_chars lower_char;
  space_besides := fun _ => false;
  word_beyond_ascii := fun _ => false;
  dollar_before_newline := false;
  int_max_str_digits := None;
  int_other := micropython_int;
  upper_beyond_ascii_twice := map_upper_char_twice;
  lower_beyond_ascii_twice := map_lower_char_twice;
|}.

(** *** CPython *)

(** The digits of CPython's [int()]: single underscores may stand between
    digits.  [last_digit] tells whether the previous character was a
    digit; the result is the number and the text after the digits. *)
Fixpoint digits_run (acc : Z) (last_digit : bool) (s : string) : option (Z * string) :=
  match s with
  | String c s' =>
      if is_digit c then digits_run (acc * 10 + digit_val c) true s'
      else if Ascii.eqb c "_" && last_digit then digits_run acc false s'
      else if last_digit then Some (acc, s) else None
  | EmptyString => if last_digit then Some (acc, EmptyString) else None
  end.

Fixpoint count_chars (P : ascii -> bool) (s : string) : nat :=
  match s with
  | String c s' => ((if P c then 1 else 0) + count_chars P s')%nat
  | EmptyString => 0%nat
  end.

(** CPython's [int()] on ASCII text: blanks, an optional sign, the
    digits, of which there are at most [limit], and blanks up to the
    end. *)
Definition cpython_int (limit : nat) (s : string) : option Z :=
  let s1 := lstrip_with is_blank s in
  let '(neg, s2) :=
    match s1 with
    | String c r =>
        if Ascii.eqb c "+" then (false, r)
        else if Ascii.eqb c "-" then (true, r)
        else (false, s1)
    | EmptyString => (false, s1)
    end in
  match digits_run 0 false s2 with
  | Some (v, rest) =>
      if String.eqb (lstrip_with is_blank rest) "" then
        if (count_chars is_digit s2 <=? limit)%nat then Some (if neg then - v else v)
        else None
      else None
  | None => None
  end.

Section CPython.

(** What CPython does beyond ASCII is not spelled out here: it is taken
    from [beyond]. *)
Context (beyond : Interpreter).

(** CPython, with the default limit of [int()]: the codes 28 to 31 are
    blank for [str.strip], [$] matches before a final newline, and a run
    of more than 4300 digits is refused. *)
Definition CPython : Interpreter := {|
  upper_beyond_ascii := @upper_beyond_ascii beyond;
  lower_beyond_ascii := @lower_beyond_ascii beyond;
  space_besides := fun c =>
    let n := nat_of_ascii c in
    ((28 <=? n) && (n <=? 31))%nat || @space_besides beyond c;
  word_beyond_ascii := @word_beyond_ascii beyond;
  dollar_before_newline := true;
  int_max_str_digits := Some 4300%nat;
  int_other := fun s => if ascii_only s then cpython_int 4300 s else @int_other beyond s;
  upper_beyond_ascii_twice := @upper_beyond_ascii_twice beyond;
  lower_beyond_ascii_twice := @lower_beyond_ascii_twice beyond;
|}.

End CPython.

(* ===================================================================== *)
(** ** Python string operations used by the sources *)
(* ===================================================================== *)

Module PyStr.

(** [s.startswith(p)] *)
Fixpoint startswith (p s : string) : bool :=
  match p with
  | EmptyString => true
  | String c p' =>
      match s with
      | EmptyString => false
      | String d s' => if Ascii.eqb c d then startswith p' s' else false
      end
  end.

(** [s[::-1]], used only to express [endswith] and [s[:-1]]. *)
Definition rev (s : string) : string :=
  string_of_list_ascii (List.rev (list_ascii_of_string s)).

(** [s.endswith(p)] *)
Definition endswith (p s : string) : bool := startswith (rev p) (rev s).

(** [s[1:]] *)
Definition tail (s : string) : string :=
  match s with EmptyString => EmptyString | String _ s' => s' end.

(** [s[:-1]] *)
Fixpoint init (s : string) : string :=
  match s with
  | EmptyString => EmptyString
  | String c EmptyString => EmptyString
  | String c s' => String c (init s')
  end.

(** [p in s] for strings: substring test. *)
Fixpoint contains (p s : string) : bool :=
  startswith p s ||
  match s with
  | EmptyString => false
  | String _ s' => contains p s'
  end.

(** [s.upper()] and [s.lower()] *)
Definition upper `{Interpreter} (s : string) : string :=
  on_ascii upper_char upper_beyond_ascii s.

Definition lower `{Interpreter} (s : string) : string :=
  on_ascii lower_char lower_beyond_ascii s.

(** [s.split(sep)] for a one-character separator: the pieces between the
    separators, empty pieces included; never the empty list. *)
Fixpoint split (sep : ascii) (s : string) : list string :=
  match s with
  | EmptyString => [EmptyString]
  | String c s' =>
      if Ascii.eqb c sep then EmptyString :: split sep s'
      else match split sep s' with
           | [] => [String c EmptyString]
           | w :: ws => String c w :: ws
           end
  end.

(** [s.replace(old, new)] for a non-empty [old]: occurrences are found
    left to right and do not overlap; the text produced by a replacement
    is not scanned again.  [skip] counts the characters of an occurrence
    that was just replaced and is still to be dropped. *)
Fixpoint replace_from (old new : string) (skip : nat) (s : string) : string :=
  match s with
  | EmptyString => EmptyString
  | String c s' =>
      match skip with
      | S k => replace_from old new k s'
      | O =>
          if startswith old s
          then new +:+ replace_from old new (String.length old - 1) s'
          else String c (replace_from old new O s')
      end
  end.

Definition replace (old new s : string) : string := replace_from old new 0 s.

(** [f"{n}"] for an integer. *)
Definition fmt_d (n : Z) : string := NilZero.string_of_int (Z.to_int n).

(** [f"{n:02d}"]: at least two characters, padded with zeros after the
    sign. *)
Definition fmt_02d (n : Z) : string :=
  if (0 <=? n) && (n <? 10) then "0" +:+ fmt_d n else fmt_d n.

End PyStr.

(* ===================================================================== *)
(** ** lib/task_manager.py *)
(* ===================================================================== *)

(** A task dictionary [{"date", "time", "device", "duration"}]. *)
Record Task := mkTask {
  date : string;       (* "YYYY-MM-DD" *)
  time : string;       (* "HH:MM" *)
  device : string;
  duration : Z;        (* seconds *)
}.

(** What the storage file holds: the JSON text of a task list, or text that
    [ujson.load] rejects (a write that stopped half way). *)
Inductive FileContent :=
  | Json (l : list Task)
  | Garbage.

(** The flash file system, by file name. *)
Abbreviation Disk := (gmap string FileContent).

(** How one [open(filename, 'w')] + [ujson.dump] goes; the device decides. *)
Inductive WriteOutcome :=
  | Written        (* the file now holds the dumped list *)
  | OpenFailed     (* [open] raised: the file is as it was *)
  | DumpFailed.    (* [dump] raised after [open] truncated the file *)

Inductive PyExn :=
  | ValueError (msg : string)
  | OtherExn (msg : string)       (* any other subclass of Exception *)
  | BaseExn (msg : string).       (* KeyboardInterrupt, SystemExit, ... *)

Record TaskManager := mkTaskManager {
  filename : string;
  max_tasks : Z;
  tasks : list Task;
}.

Definition set_tasks (l : list Task) (tm : TaskManager) : TaskManager :=
  {| filename := filename tm; max_tasks := max_tasks tm; tasks := l |}.

(** A name [os.listdir()] can hold: the name of an entry of the current
    directory, which is not empty and has no directory part. *)
Definition entry_name (name : string) : bool :=
  negb (String.eqb name "") && negb (PyStr.contains "/" name).

(** [self.filename in os.listdir()]: the file is looked for among the
    entries of the current directory, which is the directory [open] starts
    from. *)
Definition in_listdir (name : string) (d : Disk) : bool :=
  entry_name name && bool_decide (is_Some (d !! name)).

(** [TaskManager._load_tasks]: the file is read when its name is in
    [os.listdir()]; a name that is not there, and a file that does not
    parse, give the empty list. *)
Definition _load_tasks (d : Disk) (tm : TaskManager) : TaskManager :=
  if in_listdir (filename tm) d then
    match d !! filename tm with
    | Some (Json l) => set_tasks l tm
    | Some Garbage => set_tasks [] tm
    | None => set_tasks [] tm
    end
  else set_tasks [] tm.

(** [TaskManager.__init__] *)
Definition TaskManager_init (d : Disk) (fname : string) (maxt : Z) : TaskManager :=
  _load_tasks d {| filename := fname; max_tasks := maxt; tasks := [] |}.

(** [TaskManager._save_tasks]: the whole list replaces the file; an I/O
    error is printed and swallowed. *)
Definition _save_tasks (io : WriteOutcome) (tm : TaskManager) (d : Disk) : Disk :=
  match io with
  | Written => <[filename tm := Json (tasks tm)]> d
  | OpenFailed => d
  | DumpFailed => <[filename tm := Garbage]> d
  end.

(** [TaskManager.add_task]: raises [ValueError] at the limit, before any
    mutation. *)
Definition add_task (io : WriteOutcome) (dt tmv dev : string) (dur : Z)
    (tm : TaskManager) (d : Disk) : (PyExn + unit) * TaskManager * Disk :=
  if Z.of_nat (length (tasks tm)) >=? max_tasks tm
  then (inl (ValueError ("Maximum number of tasks reached ("
                           +:+ PyStr.fmt_d (max_tasks tm) +:+ ")")), tm, d)
  else
    let task := {| date := dt; time := tmv; device := dev; duration := dur |} in
    let tm' := set_tasks (tasks tm ++ [task]) tm in
    (inr tt, tm', _save_tasks io tm' d).

(** [TaskManager.get_tasks] *)
Definition get_tasks (tm : TaskManager) : list Task := tasks tm.

(** [TaskManager.delete_task]: [True] and the list without position
    [index], or [False] and nothing changed. *)
Definition delete_task (io : WriteOutcome) (index : Z)
    (tm : TaskManager) (d : Disk) : bool * TaskManager * Disk :=
  if (0 <=? index) && (index <? Z.of_nat (length (tasks tm)))
  then
    let tm' := set_tasks (delete (Z.to_nat index) (tasks tm)) tm in
    (true, tm', _save_tasks io tm' d)
  else (false, tm, d).

(* ===================================================================== *)
(** ** lib/relay_controller.py *)
(* ===================================================================== *)

(** The levels of the relay pins, in channel order; the relays are active
    low: 0 is ON, 1 is OFF. *)
Abbreviation RelayController := (list Z).

Definition RelayController_init (pins : list Z) : RelayController :=
  (fun _ => 1) <$> pins.

Definition relay_on (channel : Z) (relays : RelayController) : RelayController :=
  if (0 <=? channel) && (channel <? Z.of_nat (length relays))
  then <[Z.to_nat channel := 0]> relays
  else relays.

Definition relay_off (channel : Z) (relays : RelayController) : RelayController :=
  if (0 <=? channel) && (channel <? Z.of_nat (length relays))
  then <[Z.to_nat channel := 1]> relays
  else relays.

Definition relay_off_all (relays : RelayController) : RelayController :=
  (fun _ => 1) <$> relays.

(* ===================================================================== *)
(** ** main_board.py: ESP32Controller *)
(* ===================================================================== *)

(** A value of [device_status]: a bool for the relays, the angle for the
    servo. *)
Inductive PyVal :=
  | PyBool (b : bool)
  | PyInt (n : Z).

(** The variables [auto_off_callback] closes over. *)
Record AutoOff := mkAutoOff {
  cb_device_name : string;
  cb_channel : Z;
}.

(** A [machine.Timer(-1)] object.  [running] holds from [init] until the
    one shot fires or [deinit] is called. *)
Record Timer := mkTimer {
  running : bool;
  period : Z;                      (* milliseconds *)
  callback : option AutoOff;
}.

(** [time.localtime()] *)
Record LocalTime := mkLocalTime {
  tm_year : Z; tm_mon : Z; tm_mday : Z;
  tm_hour : Z; tm_min : Z; tm_sec : Z;
}.

(** The controller with everything it reaches: its own dictionaries, the
    relay pins, the task manager, the Timer objects it created (a handle is
    the position in [timer_objs]) and the flash file system. *)
Record ESP32Controller := mkController {
  relay_controller : RelayController;
  task_manager : TaskManager;
  device_status : gmap string PyVal;
  auto_off_timers : gmap string nat;
  timer_objs : list Timer;
  flash : Disk;
}.

Definition with_relays (r : RelayController) (st : ESP32Controller) :=
  mkController r (task_manager st) (device_status st) (auto_off_timers st)
               (timer_objs st) (flash st).

Definition with_task_manager (tm : TaskManager) (d : Disk) (st : ESP32Controller) :=
  mkController (relay_controller st) tm (device_status st) (auto_off_timers st)
               (timer_objs st) d.

Definition with_device_status (ds : gmap string PyVal) (st : ESP32Controller) :=
  mkController (relay_controller st) (task_manager st) ds (auto_off_timers st)
               (timer_objs st) (flash st).

Definition with_timers (a : gmap string nat) (objs : list Timer) (st : ESP32Controller) :=
  mkController (relay_controller st) (task_manager st) (device_status st) a
               objs (flash st).

(** config.py: the keys of DEVICE_CONFIG other than 'servo', the default
    servo angle, the relay pins and the task settings. *)
Definition DEVICE_CONFIG_relays : list string := ["pump1"; "pump2"; "pump3"; "dcmotor"].
Definition DEFAULTS_servo_angle : Z := 90.
Definition HARDWARE_CONFIG_relay_pins : list Z := [14; 25; 26; 27].
Definition TASK_CONFIG_filename : string := "tasks.json".
Definition TASK_CONFIG_max_tasks : Z := 50.

(** [ESP32Controller.__init__] followed by [initialize_hardware]. *)
Definition ESP32Controller_init (d : Disk) : ESP32Controller :=
  {| relay_controller := RelayController_init HARDWARE_CONFIG_relay_pins;
     task_manager := TaskManager_init d TASK_CONFIG_filename TASK_CONFIG_max_tasks;
     device_status :=
       <["servo" := PyInt DEFAULTS_servo_angle]>
         (list_to_map ((fun dev => (dev, PyBool false)) <$> DEVICE_CONFIG_relays));
     auto_off_timers := ∅;
     timer_objs := [];
     flash := d |}.

(** [Timer.deinit()] on the object with handle [h]. *)
Definition Timer_deinit (h : nat) (objs : list Timer) : list Timer :=
  alter (fun t => mkTimer false (period t) (callback t)) h objs.

(** [Timer.init(mode=Timer.ONE_SHOT, period=p, callback=cb)] *)
Definition Timer_init (h : nat) (p : Z) (cb : AutoOff) (objs : list Timer) : list Timer :=
  alter (fun _ => mkTimer true p (Some cb)) h objs.

(** [Timer(-1)]: a new virtual timer object, not running; its handle is
    returned. *)
Definition Timer_new (objs : list Timer) : nat * list Timer :=
  (length objs, objs ++ [mkTimer false 0 None]).

(** The body of [auto_off_callback], for the captured variables [cb]. *)
Definition auto_off_callback (cb : AutoOff) (st : ESP32Controller) : ESP32Controller :=
  let st1 := with_relays (relay_off (cb_channel cb) (relay_controller st)) st in
  let st2 := with_device_status
               (<[cb_device_name cb := PyBool false]> (device_status st1)) st1 in
  match auto_off_timers st2 !! cb_device_name cb with
  | Some _ => with_timers (delete (cb_device_name cb) (auto_off_timers st2))
                          (timer_objs st2) st2
  | None => st2
  end.

(** [ESP32Controller._set_auto_off_timer] *)
Definition _set_auto_off_timer (device_name : string) (channel : Z) (dur : Z)
    (st : ESP32Controller) : ESP32Controller :=
  (* cancel the existing timer of the device *)
  let objs1 :=
    match auto_off_timers st !! device_name with
    | Some h => Timer_deinit h (timer_objs st)
    | None => timer_objs st
    end in
  (* create and start the new one *)
  let '(h', objs2) := Timer_new objs1 in
  let timers' := <[device_name := h']> (auto_off_timers st) in
  let objs3 := Timer_init h' (dur * 1000) (mkAutoOff device_name channel) objs2 in
  with_timers timers' objs3 st.

(** The hardware fires the one-shot timer with handle [h]: the timer stops
    and its callback runs.  Nothing happens for a timer that is not
    running. *)
Definition Timer_fire (h : nat) (st : ESP32Controller) : ESP32Controller :=
  match timer_objs st !! h with
  | Some t =>
      if running t then
        let st1 := with_timers (auto_off_timers st) (Timer_deinit h (timer_objs st)) st in
        match callback t with
        | Some cb => auto_off_callback cb st1
        | None => st1
        end
      else st
  | None => st
  end.

(** The two strings a tick compares the tasks with. *)
Definition current_date (now : LocalTime) : string :=
  PyStr.fmt_d (tm_year now) +:+ "-" +:+ PyStr.fmt_02d (tm_mon now)
    +:+ "-" +:+ PyStr.fmt_02d (tm_mday now).

Definition current_time_str (now : LocalTime) : string :=
  PyStr.fmt_02d (tm_hour now) +:+ ":" +:+ PyStr.fmt_02d (tm_min now).

(** The test of the loop body:
    [task['date'] == current_date and task['time'] == current_time_str]. *)
Definition task_due (cd ct : string) (t : Task) : bool :=
  String.eqb (date t) cd && String.eqb (time t) ct.

(** [for i, task in enumerate(tasks): if <due>: ...; break]: the position
    and the task of the first iteration whose test holds. *)
Fixpoint first_due (cd ct : string) (i : nat) (l : list Task) : option (nat * Task) :=
  match l with
  | [] => None
  | t :: l' => if task_due cd ct t then Some (i, t) else first_due cd ct (S i) l'
  end.

(** One branch of the [if device == ...] chain. *)
Definition switch_on (name : string) (channel : Z) (dur : Z)
    (st : ESP32Controller) : ESP32Controller :=
  let st1 := with_relays (relay_on channel (relay_controller st)) st in
  let st2 := with_device_status (<[name := PyBool true]> (device_status st1)) st1 in
  _set_auto_off_timer name channel dur st2.

(** The chain [if device == 'pump1': ... elif ... 'dcmotor': ...], which has
    no [else]. *)
Definition execute_device (dev : string) (dur : Z) (st : ESP32Controller) : ESP32Controller :=
  if String.eqb dev "pump1" then switch_on "pump1" 0 dur st
  else if String.eqb dev "pump2" then switch_on "pump2" 1 dur st
  else if String.eqb dev "pump3" then switch_on "pump3" 2 dur st
  else if String.eqb dev "dcmotor" then switch_on "dcmotor" 3 dur st
  else st.

(** [ESP32Controller.check_scheduled_tasks], one tick at local time [now];
    [io] is the outcome of the file write that deleting a task starts. *)
Definition check_scheduled_tasks (now : LocalTime) (io : WriteOutcome)
    (st : ESP32Controller) : ESP32Controller :=
  let tasks := get_tasks (task_manager st) in
  match first_due (current_date now) (current_time_str now) 0 tasks with
  | Some (i, task) =>
      let st1 := execute_device (device task) (duration task) st in
      let '(_, tm', d') := delete_task io (Z.of_nat i) (task_manager st1) (flash st1) in
      with_task_manager tm' d' st1
  | None => st
  end.

(** [ESP32Controller.shutdown], the part on relays and auto-off timers. *)
Definition shutdown (st : ESP32Controller) : ESP32Controller :=
  let st1 := with_relays (relay_off_all (relay_controller st)) st in
  let objs := map_fold (fun _ h objs => Timer_deinit h objs)
                       (timer_objs st1) (auto_off_timers st1) in
  with_timers ∅ objs st1.

(** What can happen to a running controller, one event at a time. *)
Inductive step : ESP32Controller -> ESP32Controller -> Prop :=
  | step_tick now io st :
      step st (check_scheduled_tasks now io st)
  | step_arm dev ch dur st :
      step st (_set_auto_off_timer dev ch dur st)
  | step_fire h t st :
      timer_objs st !! h = Some t -> running t = true ->
      step st (Timer_fire h st)
  | step_add io dt tmv dev dur st :
      step st (let '(_, tm', d') := add_task io dt tmv dev dur (task_manager st) (flash st) in
               with_task_manager tm' d' st)
  | step_delete io i st :
      step st (let '(_, tm', d') := delete_task io i (task_manager st) (flash st) in
               with_task_manager tm' d' st)
  | step_relay_on ch st :
      step st (with_relays (relay_on ch (relay_controller st)) st)
  | step_relay_off ch st :
      step st (with_relays (relay_off ch (relay_controller st)) st)
  | step_shutdown st :
      step st (shutdown st).

(** The states a controller started on disk [d] can be in. *)
Inductive reachable (d : Disk) : ESP32Controller -> Prop :=
  | reach_init : reachable d (ESP32Controller_init d)
  | reach_step st st' : reachable d st -> step st st' -> reachable d st'.

(** The handles of the running timers whose callback switches [dev] off. *)
Definition is_live_for (dev : string) (t : Timer) : bool :=
  running t &&
  match callback t with
  | Some cb => String.eqb (cb_device_name cb) dev
  | None => false
  end.

Fixpoint live_from (dev : string) (h : nat) (objs : list Timer) : list nat :=
  match objs with
  | [] => []
  | t :: objs' =>
      if is_live_for dev t then h :: live_from dev (S h) objs'
      else live_from dev (S h) objs'
  end.

Definition live_timers (dev : string) (st : ESP32Controller) : list nat :=
  live_from dev 0 (timer_objs st).

(* ===================================================================== *)
(** ** [re], for the expressions the route table builds *)
(* ===================================================================== *)

Module Re.

(** A compiled expression: ordinary characters, the capturing group of
    zero or more word characters, and the end-of-string test. *)
Inductive Atom :=
  | Chr (c : ascii)
  | Words
  | Eos.

Abbreviation Regex := (list Atom).

(** The characters [re] gives a meaning of their own. *)
Definition special (c : ascii) : bool :=
  existsb (Ascii.eqb c)
    (list_ascii_of_string "\()[]{}*+?|^$.").

(** [\w] on ASCII: a letter, a digit or the underscore. *)
Definition ascii_word (c : ascii) : bool :=
  let n := nat_of_ascii c in
  ((48 <=? n) && (n <=? 57) || (65 <=? n) && (n <=? 90) ||
   (97 <=? n) && (n <=? 122) || (n =? 95))%nat.

(** [\w]: an ASCII word character, or a character beyond ASCII that the
    interpreter takes for one. *)
Definition is_word `{Interpreter} (c : ascii) : bool :=
  ascii_word c || negb (is_ascii c) && word_beyond_ascii c.

(** [re.compile], on the expressions made of ordinary characters and
    word groups with one closing dollar; [None] stands for every other
    expression, which this development does not interpret.  [skip] counts
    the characters of a group still to be passed. *)
Fixpoint parse (skip : nat) (s : string) : option Regex :=
  match s with
  | EmptyString => Some []
  | String c s' =>
      match skip with
      | S k => parse k s'
      | O =>
          if PyStr.startswith "(\w*)" s then cons Words <$> parse 4 s'
          else if Ascii.eqb c "$" then
            match s' with
            | EmptyString => Some [Eos]
            | _ => None
            end
          else if special c then None
          else cons (Chr c) <$> parse 0 s'
      end
  end.

Definition compile (s : string) : option Regex := parse 0 s.

(** The greedy loop of a group: take word characters while there are
    some, and give them back one at a time when what follows fails.
    [acc] is what the group holds so far, [k] matches what follows. *)
Fixpoint words `{Interpreter} (k : string -> option (list string)) (acc : string)
    (s : string) : option (list string) :=
  match s with
  | String c s' =>
      if is_word c then
        match words k (acc +:+ String c EmptyString) s' with
        | Some g => Some g
        | None => cons acc <$> k s
        end
      else cons acc <$> k s
  | EmptyString => cons acc <$> k s
  end.

(** [$]: the end of the text, and, for an interpreter that has it so, the
    place before a newline that ends the text. *)
Definition at_end `{Interpreter} (s : string) : bool :=
  match s with
  | EmptyString => true
  | String c s' => dollar_before_newline && Ascii.eqb c "010" && String.eqb s' ""
  end.

(** [regex.match(s)]: the expression is tried at the start of [s]; the
    result is the text of the groups, in order. *)
Fixpoint exec `{Interpreter} (r : Regex) (s : string) : option (list string) :=
  match r with
  | [] => Some []
  | Chr c :: r' =>
      match s with
      | String d s' => if Ascii.eqb c d then exec r' s' else None
      | EmptyString => None
      end
  | Words :: r' => words (exec r') EmptyString s
  | Eos :: r' => if at_end s then exec r' s else None
  end.

End Re.

(* ===================================================================== *)
(** ** lib/MicroWebServ/microWebSrv.py: the route table *)
(* ===================================================================== *)

(** A value of the [routeArgs] dictionary. *)
Inductive RouteArg :=
  | ArgInt (n : Z)
  | ArgStr (s : string).

(** The run of digits is one [int()] converts. *)
Definition within_int_limit `{Interpreter} (n : nat) : bool :=
  match int_max_str_digits with
  | Some limit => (n <=? limit)%nat
  | None => true
  end.

(** [int(value)] for a text; [None] is the [ValueError].  The empty text
    and a text with an ASCII letter are refused; a run of ASCII digits
    gives the number it denotes unless it is longer than the limit of the
    interpreter; every other text (signs, underscores, blanks, characters
    beyond ASCII) is the interpreter's matter. *)
Definition py_int `{Interpreter} (s : string) : option Z :=
  if String.eqb s "" then None
  else if all_chars is_digit s then
    if within_int_limit (String.length s) then Some (decimal 0 s) else None
  else if negb (all_chars (fun c => negb (is_letter c)) s) then None
  else int_other s.

(** [try: value = int(value) except: pass] *)
Definition coerce `{Interpreter} (value : string) : RouteArg :=
  match py_int value with
  | Some n => ArgInt n
  | None => ArgStr value
  end.

Section Routes.

(** A route handler function; the table only stores and returns it. *)
Context {Handler : Type} `{Interpreter}.

Record MicroWebSrvRoute := mkRoute {
  route : string;
  method : string;
  func : Handler;
  routeArgNames : list string;
  routeRegex : Re.Regex;
}.

(** One round of the loop over [routeParts] in [__init__]. *)
Definition route_part (acc : list string * string) (s : string) : list string * string :=
  let '(names, regex) := acc in
  if PyStr.startswith "<" s && PyStr.endswith ">" s
  then (names ++ [PyStr.init (PyStr.tail s)], regex +:+ "/(\w*)")
  else if negb (String.eqb s "")
  then (names, regex +:+ "/" +:+ s)
  else (names, regex).

(** [routeArgNames] and the text of [routeRegex] for one route. *)
Definition route_regex (rt : string) : list string * string :=
  let '(names, regex) := fold_left route_part (PyStr.split "/" rt) ([], "") in
  (names, regex +:+ "$").

(** The entry [__init__] appends for [(route, method, func)]. *)
Definition route_entry (item : string * string * Handler) : option MicroWebSrvRoute :=
  let '(rt, m, f) := item in
  let '(names, regex) := route_regex rt in
  mkRoute rt m f names <$> Re.compile regex.

(** [self._routeHandlers] as [__init__] builds it, in the order of
    [routeHandlers]. *)
Fixpoint build_routes (items : list (string * string * Handler))
    : option (list MicroWebSrvRoute) :=
  match items with
  | [] => Some []
  | item :: items' =>
      match route_entry item, build_routes items' with
      | Some rh, Some rhs => Some (rh :: rhs)
      | _, _ => None
      end
  end.

(** [routeArgs[name] = value] for every name: group [i+1] goes to name
    number [i]; a later name replaces an equal earlier one. *)
Fixpoint route_args (names : list string) (groups : list string)
    (args : gmap string RouteArg) : gmap string RouteArg :=
  match names with
  | [] => args
  | name :: names' =>
      route_args names' (List.tl groups)
                 (<[name := coerce (List.hd "" groups)]> args)
  end.

(** The loop [for rh in self._routeHandlers] of [GetRouteHandler], after
    the trailing slash and the method are normalised. *)
Fixpoint route_loop (rhs : list MicroWebSrvRoute) (resUrl meth : string)
    : option Handler * option (gmap string RouteArg) :=
  match rhs with
  | [] => (None, None)
  | rh :: rhs' =>
      if String.eqb (method rh) meth then
        match Re.exec (routeRegex rh) resUrl with
        | Some groups =>
            match routeArgNames rh with
            | [] => (Some (func rh), None)
            | _ :: _ => (Some (func rh), Some (route_args (routeArgNames rh) groups ∅))
            end
        | None => route_loop rhs' resUrl meth
        end
      else route_loop rhs' resUrl meth
  end.

Definition trim_slash (resUrl : string) : string :=
  if PyStr.endswith "/" resUrl then PyStr.init resUrl else resUrl.

(** [MicroWebSrv.GetRouteHandler] *)
Definition GetRouteHandler (rhs : list MicroWebSrvRoute) (resUrl meth : string)
    : option Handler * option (gmap string RouteArg) :=
  match rhs with
  | [] => (None, None)
  | _ :: _ => route_loop rhs (trim_slash resUrl) (PyStr.upper meth)
  end.

(** The test a table entry passes for a normalised request. *)
Definition route_matches (resUrl meth : string) (rh : MicroWebSrvRoute) : bool :=
  String.eqb (method rh) meth && bool_decide (is_Some (Re.exec (routeRegex rh) resUrl)).

(** What [GetRouteHandler] returns when entry [rh] is the one taken. *)
Definition route_result (resUrl : string) (rh : MicroWebSrvRoute)
    : option Handler * option (gmap string RouteArg) :=
  match routeArgNames rh with
  | [] => (Some (func rh), None)
  | _ :: _ =>
      (Some (func rh),
       Some (route_args (routeArgNames rh)
                        (default [] (Re.exec (routeRegex rh) resUrl)) ∅))
  end.

End Routes.

Arguments MicroWebSrvRoute : clear implicits.

(* ===================================================================== *)
(** ** microWebSrv.py: static files *)
(* ===================================================================== *)

Definition _indexPages : list string :=
  ["index.pyhtml"; "index.html"; "index.htm";
   "default.pyhtml"; "default.html"; "default.htm"].

Definition _mimeTypes : list (string * string) :=
  [(".txt", "text/plain"); (".htm", "text/html"); (".html", "text/html");
   (".css", "text/css"); (".csv", "text/csv"); (".js", "application/javascript");
   (".xml", "application/xml"); (".xhtml", "application/xhtml+xml");
   (".json", "application/json"); (".zip", "application/zip");
   (".pdf", "application/pdf"); (".ts", "application/typescript");
   (".woff", "font/woff"); (".woff2", "font/woff2"); (".ttf", "font/ttf");
   (".otf", "font/otf"); (".jpg", "image/jpeg"); (".jpeg", "image/jpeg");
   (".png", "image/png"); (".gif", "image/gif"); (".svg", "image/svg+xml");
   (".ico", "image/x-icon")].

Definition _pyhtmlPagesExt : string := ".pyhtml".

Definition _isPyHTMLFile `{Interpreter} (fname : string) : bool :=
  PyStr.endswith _pyhtmlPagesExt (PyStr.lower fname).

Definition GetMimeTypeFromFilename `{Interpreter} (fname : string) : option string :=
  let fname := PyStr.lower fname in
  snd <$> List.find (fun '(ext, _) => PyStr.endswith ext fname) _mimeTypes.

(** [MicroWebSrv._physPathFromURLPath]; [fileExists] is [_fileExists], the
    answer of [stat] on the board's file system. *)
Definition _physPathFromURLPath (fileExists : string -> bool)
    (webPath urlPath : string) : option string :=
  if String.eqb urlPath "/" then
    List.find fileExists ((fun idxPage => webPath +:+ "/" +:+ idxPage) <$> _indexPages)
  else
    let physPath := webPath +:+ PyStr.replace "../" "/" urlPath in
    if fileExists physPath then Some physPath else None.

(** How the file system reads the part of a physical path below the web
    root: [".."] goes one directory up, [""] and ["."] stay.  [depth] is
    the number of directories below the root reached so far; the walk fails
    as soon as it leaves the root. *)
Fixpoint walk_below (depth : nat) (segments : list string) : option nat :=
  match segments with
  | [] => Some depth
  | seg :: segments' =>
      if String.eqb seg ".." then
        match depth with
        | O => None
        | S d => walk_below d segments'
        end
      else if String.eqb seg "" || String.eqb seg "." then walk_below depth segments'
      else walk_below (S depth) segments'
  end.

(** The request path, appended to the web root, names a file inside it. *)
Definition stays_in_root (below : string) : bool :=
  bool_decide (is_Some (walk_below 0 (PyStr.split "/" below))).

(* ===================================================================== *)
(** ** microWebSrv.py: one connection *)
(* ===================================================================== *)

(** What a connection does that the outside can see. *)
Inductive Event :=
  | EvStatus (code : Z)        (* a status line is written to the socket *)
  | EvPrint                    (* a line on the console *)
  | EvWebSocket                (* the socket is given to MicroWebSocket *)
  | EvCloseFile                (* [self._socketfile.close()] *)
  | EvCloseSocket.             (* [self._socket.close()] *)

(** How a piece of Python code ends: with a value, with an exception, or
    with a [return] statement that leaves the enclosing function. *)
Inductive Outcome (A : Type) :=
  | Val (a : A)
  | Raise (e : PyExn)
  | Return.

Arguments Val {A} a.
Arguments Raise {A} e.
Arguments Return {A}.

(** Code with effects: the events it produced and how it ended. *)
Definition M (A : Type) : Type := list Event * Outcome A.

Definition ret {A} (a : A) : M A := ([], Val a).

Definition bind {A B} (m : M A) (f : A -> M B) : M B :=
  match m with
  | (t, Val a) => let '(t', o) := f a in (t ++ t', o)
  | (t, Raise e) => (t, Raise e)
  | (t, Return) => (t, Return)
  end.

Definition emit (ev : Event) : M unit := ([ev], Val tt).
Definition raise {A} (e : PyExn) : M A := ([], Raise e).
Definition return_ {A} : M A := ([], Return).

Notation "x <- m ;; k" := (bind m (fun x => k))
  (at level 90, m at level 50, right associativity).
Notation "m ;;; k" := (bind m (fun _ => k))
  (at level 90, right associativity).

(** [try: m except: h] with a bare [except], which takes every
    exception; a [return] passes through. *)
Definition try_except {A} (m : M A) (h : PyExn -> M A) : M A :=
  match m with
  | (t, Raise e) => let '(t', o) := h e in (t ++ t', o)
  | _ => m
  end.

(** The exceptions that derive from [Exception]; [KeyboardInterrupt] and
    the like do not. *)
Definition is_Exception (e : PyExn) : bool :=
  match e with
  | ValueError _ | OtherExn _ => true
  | BaseExn _ => false
  end.

(** [try: m except Exception as ex: h ex] *)
Definition try_except_Exception {A} (m : M A) (h : PyExn -> M A) : M A :=
  match m with
  | (t, Raise e) =>
      if is_Exception e then let '(t', o) := h e in (t ++ t', o) else m
  | _ => m
  end.

(** The end of a [def] without a value: a [return] inside ends here. *)
Definition def_body (m : M unit) : M unit :=
  match m with
  | (t, Return) => (t, Val tt)
  | _ => m
  end.

(** What a route handler sees of the client object. *)
Record Client := mkClient {
  _method : string;
  _resPath : string;
  _headers : gmap string string;
}.

(** A route handler: called with the client, the response object and, when
    the route has arguments, the [routeArgs] dictionary.  It writes
    responses through the response object (the list holds their status
    codes, in order) and then returns or raises. *)
Definition Handler : Type :=
  Client -> option (gmap string RouteArg) -> list Z * option PyExn.

(** The call [routeHandler(self, response, ...)]. *)
Definition call_handler (h : Handler) (cl : Client)
    (args : option (gmap string RouteArg)) : M unit :=
  let '(codes, exn) := h cl args in
  (EvStatus <$> codes,
   match exn with
   | Some e => Raise e
   | None => Val tt
   end).

(** How [_parseHeader] ends: [True] with the headers read, [False] on a
    malformed line, or an exception of [readline], [decode] or [int]. *)
Inductive HeaderOutcome :=
  | HeadersRead (headers : gmap string string)
  | HeadersMalformed
  | HeadersRaised (e : PyExn).

(** How [WriteResponseFile] goes. *)
Inductive FileOutcome :=
  | FileSent                   (* header and content written, or a short write *)
  | FileReadRaised             (* an exception while the content is copied *)
  | FileUnavailable.           (* [stat] or [open] raised, or the size is 0 *)

(** How [WriteResponsePyHTMLFile] goes when MicroWebTemplate is loaded. *)
Inductive PyHTMLOutcome :=
  | PageExecuted
  | PageExecuteRaised
  | PageOpenRaised (e : PyExn).

(** One accepted connection: what the socket delivers and how the
    collaborators behave on it. *)
Record Connection := mkConnection {
  (* the socket has [readline] (MicroPython): [_socketfile] is [_socket] *)
  socket_is_file : bool;
  (* [_parseFirstLine]: [None] when it returns [False], else the method,
     upper-cased, and the decoded resource path *)
  first_line : option (string * string);
  header_lines : HeaderOutcome;
  fileExists : string -> bool;
  file_read : FileOutcome;
  page_run : PyHTMLOutcome;
  (* the exception the MicroWebSocket constructor raises, if any *)
  websocket_raises : option PyExn;
  (* the exceptions of the two [close] calls, if any *)
  close_file_raises : option PyExn;
  close_socket_raises : option PyExn;
}.

(** The server object and the optional modules of the interpreter. *)
Record MicroWebSrv := mkMicroWebSrv {
  _webPath : string;
  _notFoundUrl : option string;
  LetCacheStaticContentLevel : Z;
  AcceptWebSocketCallback : bool;       (* a callback is set *)
  MicroWebSocket_loaded : bool;         (* ['MicroWebSocket' in globals()] *)
  MicroWebTemplate_loaded : bool;       (* ['MicroWebTemplate' in globals()] *)
  _routeHandlers : list (MicroWebSrvRoute Handler);
}.

(** [MicroWebSrv.__init__], for the routes the expressions of which are
    interpreted here; [routeHandlers] is the list after the decorated
    handlers are appended to it. *)
Definition MicroWebSrv_init (routeHandlers : list (string * string * Handler))
    (webPath : string) : option MicroWebSrv :=
  mkMicroWebSrv webPath None 2 false false false <$> build_routes routeHandlers.

(** [_response.WriteResponseError(code)] and the responses built on it:
    [WriteResponse] catches what the socket raises, so these only write. *)
Definition WriteResponseError (code : Z) : M unit := emit (EvStatus code).

Definition WriteResponseRedirect : M unit := emit (EvStatus 302).

Definition WriteResponseNotFound (srv : MicroWebSrv) : M unit :=
  match _notFoundUrl srv with
  | Some url => if String.eqb url "" then WriteResponseError 404 else WriteResponseRedirect
  | None => WriteResponseError 404
  end.

(** [_response.WriteResponseFile] *)
Definition WriteResponseFile (srv : MicroWebSrv) (c : Connection) : M unit :=
  match file_read c with
  | FileSent => emit (EvStatus 200)
  | FileReadRaised => emit (EvStatus 200) ;;; WriteResponseError 500
  | FileUnavailable => WriteResponseNotFound srv
  end.

(** [_response.WriteResponsePyHTMLFile]: [open] is outside its [try]. *)
Definition WriteResponsePyHTMLFile (srv : MicroWebSrv) (c : Connection) : M unit :=
  if MicroWebTemplate_loaded srv then
    match page_run c with
    | PageOpenRaised e => raise e
    | PageExecuted => emit (EvStatus 200)
    | PageExecuteRaised => emit (EvStatus 500)
    end
  else WriteResponseError 501.

(** [_client._getConnUpgrade] *)
Definition _getConnUpgrade `{Interpreter} (headers : gmap string string) : option string :=
  if PyStr.contains "upgrade" (PyStr.lower (default "" (headers !! "connection")))
  then Some (PyStr.lower (default "" (headers !! "upgrade")))
  else None.

(** [not upg] for [None] or a string. *)
Definition not_upg (upg : option string) : bool :=
  match upg with
  | None => true
  | Some u => String.eqb u ""
  end.

(** The branch of [_processRequest] for a GET without a route. *)
Definition serve_static `{Interpreter} (srv : MicroWebSrv) (c : Connection)
    (resPath : string) (headers : gmap string string) : M unit :=
  match _physPathFromURLPath (fileExists c) (_webPath srv) resPath with
  | Some filepath =>
      if _isPyHTMLFile filepath then WriteResponsePyHTMLFile srv c
      else
        match GetMimeTypeFromFilename filepath with
        | Some contentType =>
            if 0 <? LetCacheStaticContentLevel srv then
              if (1 <? LetCacheStaticContentLevel srv)
                 && bool_decide (is_Some (headers !! "if-modified-since"))
              then WriteResponseError 304
              else WriteResponseFile srv c
            else WriteResponseFile srv c
        | None => WriteResponseError 403
        end
  | None => WriteResponseNotFound srv
  end.

(** The first [try] block of [_processRequest]. *)
Definition dispatch `{Interpreter} (srv : MicroWebSrv) (c : Connection) : M unit :=
  match first_line c with
  | Some (meth, resPath) =>
      match header_lines c with
      | HeadersRaised e => raise e
      | HeadersMalformed => WriteResponseError 400
      | HeadersRead headers =>
          let upg := _getConnUpgrade headers in
          if not_upg upg then
            match GetRouteHandler (_routeHandlers srv) resPath meth with
            | (Some routeHandler, routeArgs) =>
                try_except_Exception
                  (call_handler routeHandler (mkClient meth resPath headers) routeArgs)
                  (fun ex => emit EvPrint ;;; raise ex)
            | (None, _) =>
                if String.eqb (PyStr.upper meth) "GET"
                then serve_static srv c resPath headers
                else WriteResponseError 405
            end
          else if bool_decide (upg = Some "websocket")
                  && MicroWebSocket_loaded srv && AcceptWebSocketCallback srv
          then
            match websocket_raises c with
            | Some e => raise e
            | None => emit EvWebSocket
            end ;;; return_
          else WriteResponseError 501
      end
  | None => ret tt
  end.

(** The second [try] block: the two [close] calls. *)
Definition close_connection (c : Connection) : M unit :=
  (if socket_is_file c then ret tt
   else emit EvCloseFile ;;;
        match close_file_raises c with
        | Some e => raise e
        | None => ret tt
        end) ;;;
  emit EvCloseSocket ;;;
  match close_socket_raises c with
  | Some e => raise e
  | None => ret tt
  end.

(** [MicroWebSrv._client._processRequest] *)
Definition _processRequest `{Interpreter} (srv : MicroWebSrv) (c : Connection) : M unit :=
  def_body (
    try_except (dispatch srv c) (fun _ => WriteResponseError 500) ;;;
    try_except (close_connection c) (fun _ => ret tt)).

(** How one [self._server.accept()] ends: with a connection, or with an
    exception [ex], of which the loop looks at [ex.args[0]], when there is
    one. *)
Inductive AcceptOutcome :=
  | Accepted (c : Connection)
  | AcceptRaised (ex : PyExn) (args0 : option Z).

(** The test [ex.args and ex.args[0] == 113]. *)
Definition is_113 (args0 : option Z) : bool :=
  match args0 with
  | Some n => n =? 113
  | None => false
  end.

(** [MicroWebSrv._serverProcess] over the accepts that happen.  The
    [try] around [accept] has [except Exception]: of the exceptions it
    takes, error 113 ends the loop and any other is skipped; an exception
    that is no [Exception] leaves the loop and the function.  A connection
    is processed before the next accept. *)
Fixpoint _serverProcess `{Interpreter} (srv : MicroWebSrv) (accepts : list AcceptOutcome)
    : M unit :=
  match accepts with
  | [] => ret tt
  | AcceptRaised ex args0 :: accepts' =>
      if is_Exception ex then
        if is_113 args0 then ret tt else _serverProcess srv accepts'
      else raise ex
  | Accepted c :: accepts' => _processRequest srv c ;;; _serverProcess srv accepts'
  end.

(** The number of [self._socket.close()] calls in a run. *)
Definition is_close_socket (ev : Event) : bool :=
  match ev with
  | EvCloseSocket => true
  | _ => false
  end.

Definition socket_closes (t : list Event) : nat :=
  length (List.filter is_close_socket t).

(* ===================================================================== *)
(** ** Notions the statements below use *)
(* ===================================================================== *)

(** *** Scheduler and timers *)

(** The relay channel the [if device == ...] chain of the scheduler gives a
    device name; [None] for a name no branch tests. *)
Definition device_channel (dev : string) : option Z :=
  if String.eqb dev "pump1" then Some 0
  else if String.eqb dev "pump2" then Some 1
  else if String.eqb dev "pump3" then Some 2
  else if String.eqb dev "dcmotor" then Some 3
  else None.

(** The device names the scheduler has a branch for. *)
Definition known_devices : list string := ["pump1"; "pump2"; "pump3"; "dcmotor"].

(** No task of [l] is due. *)
Definition none_due (cd ct : string) (l : list Task) : Prop :=
  Forall (fun t => task_due cd ct t = false) l.

(** Every running timer is the one [auto_off_timers] holds for the device
    of its callback. *)
Definition timers_registered (st : ESP32Controller) : Prop :=
  forall h t, timer_objs st !! h = Some t -> running t = true ->
    exists cb, callback t = Some cb /\
               auto_off_timers st !! cb_device_name cb = Some h.

(** Every handle [auto_off_timers] holds is the handle of a timer object. *)
Definition handles_valid (st : ESP32Controller) : Prop :=
  forall dev h, auto_off_timers st !! dev = Some h ->
    (h < length (timer_objs st))%nat.

(** The timer objects once the timer [auto_off_timers] holds for [dev], if
    any, is cancelled. *)
Definition cancelled (dev : string) (st : ESP32Controller) : list Timer :=
  match auto_off_timers st !! dev with
  | Some h => Timer_deinit h (timer_objs st)
  | None => timer_objs st
  end.

(** *** Connections *)

(** The request is a websocket upgrade that the server accepts and the
    MicroWebSocket constructor takes over without raising. *)
Definition websocket_accepted `{Interpreter} (srv : MicroWebSrv) (c : Connection) : bool :=
  match first_line c, header_lines c with
  | Some _, HeadersRead headers =>
      negb (not_upg (_getConnUpgrade headers))
      && bool_decide (_getConnUpgrade headers = Some "websocket")
      && MicroWebSocket_loaded srv && AcceptWebSocketCallback srv
      && bool_decide (websocket_raises c = None)
  | _, _ => false
  end.

(** The accept gave a connection, or raised an exception that the
    [except Exception] of the accept loop takes. *)
Definition accept_recovered (a : AcceptOutcome) : bool :=
  match a with
  | Accepted _ => true
  | AcceptRaised ex _ => is_Exception ex
  end.

(** *** Route patterns, segment by segment *)

(** The non-empty pieces of a route between slashes. *)
Definition pattern_segments (rt : string) : list string :=
  List.filter (fun s => negb (String.eqb s "")) (PyStr.split "/" rt).

(** The piece has the form of a capture, with angle brackets around a name. *)
Definition is_capture (p : string) : bool :=
  PyStr.startswith "<" p && PyStr.endswith ">" p.

(** No character of the piece is an operator of [re]. *)
Definition plain (p : string) : bool := all_chars (fun c => negb (Re.special c)) p.

(** The path segments a pattern piece accepts: runs of word characters
    for a capture, the piece itself otherwise. *)
Definition segment_accepts `{Interpreter} (p seg : string) : bool :=
  if is_capture p then all_chars Re.is_word seg else String.eqb p seg.

(** The path with the given segments, a slash before each. *)
Fixpoint join_path (segs : list string) : string :=
  match segs with
  | [] => ""
  | seg :: segs' => "/" +:+ seg +:+ join_path segs'
  end.

(** A newline, and the texts that name the segments [segs] to the
    expression of a route: the segments, a slash before each, and nothing
    after them, or one newline, for an interpreter whose [$] has it so. *)
Definition newline : string := String "010" EmptyString.

Definition spells `{Interpreter} (path : string) (segs : list string) : Prop :=
  path = join_path segs \/
  (dollar_before_newline = true /\ path = join_path segs +:+ newline).

(** The segments that stand at the capture pieces. *)
Fixpoint captured (pats segs : list string) : list string :=
  match pats, segs with
  | p :: pats', seg :: segs' =>
      if is_capture p then seg :: captured pats' segs' else captured pats' segs'
  | _, _ => []
  end.

(** The names of the capture pieces. *)
Definition capture_names (pats : list string) : list string :=
  (fun p => PyStr.init (PyStr.tail p)) <$> List.filter is_capture pats.

(** The text and the compiled form of the expression for one piece. *)
Definition piece_regex (p : string) : string :=
  if is_capture p then "/(\w*)" else "/" +:+ p.

Definition piece_atoms (p : string) : list Re.Atom :=
  if is_capture p then [Re.Chr "/"; Re.Words]
  else Re.Chr "/" :: (Re.Chr <$> list_ascii_of_string p).

Fixpoint pieces_regex (pats : list string) : string :=
  match pats with
  | [] => ""
  | p :: pats' => piece_regex p +:+ pieces_regex pats'
  end.

(** The longest run of word characters a string starts with, and what
    follows it. *)
Fixpoint take_word `{Interpreter} (s : string) : string :=
  match s with
  | String c s' => if Re.is_word c then String c (take_word s') else ""
  | EmptyString => ""
  end.

Fixpoint drop_word `{Interpreter} (s : string) : string :=
  match s with
  | String c s' => if Re.is_word c then drop_word s' else s
  | EmptyString => ""
  end.

(** What follows the longest run does not start with a word character. *)
Definition stops_word `{Interpreter} (s : string) : Prop :=
  match s with
  | String c _ => Re.is_word c = false
  | EmptyString => True
  end.

(** The number a sequence of decimal digits denotes, from the left, after
    the digits read so far gave [acc]. *)
Fixpoint horner (acc : Z) (d : Decimal.uint) : Z :=
  match d with
  | Decimal.Nil => acc
  | Decimal.D0 d' => horner (acc * 10 + 0) d'
  | Decimal.D1 d' => horner (acc * 10 + 1) d'
  | Decimal.D2 d' => horner (acc * 10 + 2) d'
  | Decimal.D3 d' => horner (acc * 10 + 3) d'
  | Decimal.D4 d' => horner (acc * 10 + 4) d'
  | Decimal.D5 d' => horner (acc * 10 + 5) d'
  | Decimal.D6 d' => horner (acc * 10 + 6) d'
  | Decimal.D7 d' => horner (acc * 10 + 7) d'
  | Decimal.D8 d' => horner (acc * 10 + 8) d'
  | Decimal.D9 d' => horner (acc * 10 + 9) d'
  end.

(** *** Data for the examples *)

(** Concrete data for the examples: Christmas 2024, 14:30:07, and a disk
    whose task file holds the given tasks. *)
Definition xmas_1430 : LocalTime := mkLocalTime 2024 12 25 14 30 7.

Definition disk_with (l : list Task) : Disk := {[TASK_CONFIG_filename := Json l]}.

(** A small route table: the second pattern is the more specific one. *)
Definition relay_routes : list (string * string * nat) :=
  [("/relay/<channel>/<action>", "GET", 1%nat);
   ("/relay/0/on", "GET", 2%nat);
   ("/status", "GET", 3%nat)].

(** A server with the websocket module loaded and a callback set, without
    routes, and a MicroPython connection carrying a websocket upgrade. *)
Definition ws_server : MicroWebSrv :=
  mkMicroWebSrv "/flash/www" None 2 true true false [].

Definition ws_connection : Connection :=
  mkConnection true (Some ("GET", "/ws"))
    (HeadersRead (<["connection" := "Upgrade"]> (<["upgrade" := "websocket"]> ∅)))
    (fun _ => false) FileUnavailable PageExecuted None None None.

(** A handler that writes a 200 status line and then raises, a server with
    this handler on /status, and a MicroPython connection asking for it. *)
Definition failing_handler : Handler :=
  fun _ _ => ([200], Some (OtherExn "division by zero")).

Definition status_server : MicroWebSrv :=
  default ws_server (MicroWebSrv_init [("/status", "GET", failing_handler)] "/flash/www").

Definition status_connection : Connection :=
  mkConnection true (Some ("GET", "/status")) (HeadersRead ∅)
    (fun _ => false) FileUnavailable PageExecuted None None None.

(* ===================================================================== *)
(** ** Further code of the same files *)
(* ===================================================================== *)

(** [RelayController.on_all] *)
Definition relay_on_all (relays : RelayController) : RelayController :=
  (fun _ => 0) <$> relays.

(** A call of the task store, with the outcome of the file write it may
    start. *)
Inductive StoreOp :=
  | OpAdd (io : WriteOutcome) (dt tmv dev : string) (dur : Z)
  | OpDelete (io : WriteOutcome) (index : Z).

(** One call, and calls one after the other, on a task manager and the
    disk; the return values are dropped. *)
Definition run_op (op : StoreOp) (s : TaskManager * Disk) : TaskManager * Disk :=
  match op with
  | OpAdd io dt tmv dev dur =>
      let '(_, tm', d') := add_task io dt tmv dev dur (fst s) (snd s) in (tm', d')
  | OpDelete io index =>
      let '(_, tm', d') := delete_task io index (fst s) (snd s) in (tm', d')
  end.

Definition run_ops (ops : list StoreOp) (s : TaskManager * Disk) : TaskManager * Disk :=
  fold_left (fun s op => run_op op s) ops s.

(** The storage file holds exactly the task list in memory. *)
Definition synced (tm : TaskManager) (d : Disk) : Prop :=
  d !! filename tm = Some (Json (tasks tm)).

(** The write of the call completes. *)
Definition op_written (op : StoreOp) : Prop :=
  match op with
  | OpAdd io _ _ _ _ => io = Written
  | OpDelete io _ => io = Written
  end.


(** A wall-clock reading as [time.localtime()] gives it once the clock is
    set: a four-digit year and month, day, hour and minute in their
    calendar ranges. *)
Definition valid_clock (now : LocalTime) : Prop :=
  1000 <= tm_year now <= 9999 /\ 1 <= tm_mon now <= 12 /\ 1 <= tm_mday now <= 31 /\
  0 <= tm_hour now <= 23 /\ 0 <= tm_min now <= 59.

(** The string has exactly two, or exactly four, characters. *)
Definition two_chars (s : string) : bool :=
  match s with
  | String _ (String _ EmptyString) => true
  | _ => false
  end.

Definition four_chars (s : string) : bool :=
  match s with
  | String _ (String _ (String _ (String _ EmptyString))) => true
  | _ => false
  end.


(** The double quote character. *)
Definition dquote : ascii := ascii_of_nat 34.

(** [MicroWebSrv._html_escape_chars] *)
Definition _html_escape_chars : list (ascii * string) :=
  [("&"%char, "&amp;"); (dquote, "&quot;"); ("'"%char, "&apos;");
   (">"%char, "&gt;"); ("<"%char, "&lt;")].

(** [_html_escape_chars.get(c, c)] *)
Definition escape_char (c : ascii) : string :=
  match List.find (fun '(k, _) => Ascii.eqb k c) _html_escape_chars with
  | Some (_, text) => text
  | None => String c EmptyString
  end.

(** [MicroWebSrv.HTMLEscape]: the join of the replacements, character by
    character. *)
Fixpoint HTMLEscape (s : string) : string :=
  match s with
  | EmptyString => EmptyString
  | String c s' => escape_char c +:+ HTMLEscape s'
  end.

(** The characters [HTMLEscape] replaces. *)
Definition html_special (c : ascii) : bool :=
  existsb (fun '(k, _) => Ascii.eqb k c) _html_escape_chars.

(** The characters [str.strip()] removes: space, tab, line feed, carriage
    return, vertical tab and form feed, and what else the interpreter
    takes for blank. *)
Definition is_space `{Interpreter} (c : ascii) : bool :=
  is_blank c || space_besides c.

(** [s.lstrip()] and [s.strip()] *)
Definition lstrip `{Interpreter} (s : string) : string := lstrip_with is_space s.

Definition strip `{Interpreter} (s : string) : string :=
  PyStr.rev (lstrip (PyStr.rev (lstrip s))).

(** [s.split(':', 1)]: the text before the first colon and the text after
    it, or the whole text when there is no colon. *)
Fixpoint split_colon (s : string) : string * option string :=
  match s with
  | EmptyString => (EmptyString, None)
  | String c s' =>
      if Ascii.eqb c ":" then (EmptyString, Some s')
      else let '(a, b) := split_colon s' in (String c a, b)
  end.

(** [int(self._headers.get("content-length", 0))]; [None] is the
    ValueError. *)
Definition content_length `{Interpreter} (headers : gmap string string) : option Z :=
  match headers !! "content-length" with
  | Some v => py_int v
  | None => Some 0
  end.

(** [_client._parseHeader] on the lines the socket delivers, each already
    decoded, or the exception that reading or decoding it raised; past the
    last line [readline] is at the end of the stream and returns the empty
    line.  [headers] is [self._headers] so far. *)
Fixpoint _parseHeader `{Interpreter} (meth : string) (lines : list (PyExn + string))
    (headers : gmap string string) : HeaderOutcome :=
  let at_blank :=
    if String.eqb meth "POST" || String.eqb meth "PUT" then
      match content_length headers with
      | Some _ => HeadersRead headers
      | None => HeadersRaised (ValueError "invalid literal for int()")
      end
    else HeadersRead headers in
  match lines with
  | [] => at_blank
  | inl e :: _ => HeadersRaised e
  | inr line :: lines' =>
      match split_colon (strip line) with
      | (name, Some value) =>
          _parseHeader meth lines' (<[PyStr.lower (strip name) := strip value]> headers)
      | (EmptyString, None) => at_blank
      | (String _ _, None) => HeadersMalformed
      end
  end.

(** A connection like [c] whose header outcome is what [_parseHeader]
    makes of the given lines. *)
Definition with_header_lines `{Interpreter} (lines : list (PyExn + string)) (c : Connection)
    : Connection :=
  mkConnection (socket_is_file c) (first_line c)
    (_parseHeader (default "" (fst <$> first_line c)) lines ∅)
    (fileExists c) (file_read c) (page_run c)
    (websocket_raises c) (close_file_raises c) (close_socket_raises c).

(** A line that [_parseHeader] stores as a header: it was read and
    decoded, and it has a colon. *)
Definition header_field `{Interpreter} (l : PyExn + string) : bool :=
  match l with
  | inr line =>
      match snd (split_colon (strip line)) with Some _ => true | None => false end
  | inl _ => false
  end.

(* ===================================================================== *)
(** * Properties *)
(* ===================================================================== *)

(** ** Task store *)

Lemma add_task_below_limit io dt tmv dev dur tm d :
  Z.of_nat (length (tasks tm)) < max_tasks tm ->
  add_task io dt tmv dev dur tm d =
    (inr tt,
     set_tasks (tasks tm ++ [mkTask dt tmv dev dur]) tm,
     _save_tasks io (set_tasks (tasks tm ++ [mkTask dt tmv dev dur]) tm) d).
Proof.
  intros Hlt. unfold add_task.
  destruct (Z.geb_spec (Z.of_nat (length (tasks tm))) (max_tasks tm)) as [Hge|_]; [lia|].
  reflexivity.
Qed.

(** C4. At or over the limit [add_task] raises the task-limit ValueError
    and leaves the task manager and every file as they were; under the
    limit it returns normally, the task list is the old one with the new
    task at its end, and a write that completes leaves the storage file
    holding exactly this full list (every other file untouched). *)
Theorem add_task_limit_or_append io dt tmv dev dur tm d :
  (Z.of_nat (length (tasks tm)) >= max_tasks tm ->
     exists msg,
       add_task io dt tmv dev dur tm d = (inl (ValueError msg), tm, d) /\
       PyStr.startswith "Maximum number of tasks reached" msg = true) /\
  (Z.of_nat (length (tasks tm)) < max_tasks tm ->
     exists tm' d',
       add_task io dt tmv dev dur tm d = (inr tt, tm', d') /\
       tasks tm' = tasks tm ++ [mkTask dt tmv dev dur] /\
       filename tm' = filename tm /\ max_tasks tm' = max_tasks tm /\
       (io = Written ->
          d' = <[filename tm := Json (tasks tm ++ [mkTask dt tmv dev dur])]> d)).
Proof.
  split.
  - intros Hfull. unfold add_task.
    destruct (Z.geb_spec (Z.of_nat (length (tasks tm))) (max_tasks tm)) as [_|Hlt]; [|lia].
    eexists. split; [reflexivity|reflexivity].
  - intros Hlt. rewrite add_task_below_limit by exact Hlt.
    eexists _, _. split; [reflexivity|].
    repeat split. intros ->. reflexivity.
Qed.

Lemma add_task_limit_or_append_witness :
  let full := mkTaskManager "tasks.json" 1 [mkTask "2024-12-25" "14:30" "pump1" 300] in
  let free := mkTaskManager "tasks.json" 1 [] in
  (exists msg,
     add_task Written "2025-01-01" "08:00" "pump2" 60 full ∅ = (inl (ValueError msg), full, ∅) /\
     PyStr.startswith "Maximum number of tasks reached" msg = true) /\
  (exists tm',
     add_task Written "2025-01-01" "08:00" "pump2" 60 free ∅ =
       (inr tt, tm', {["tasks.json" := Json [mkTask "2025-01-01" "08:00" "pump2" 60]]}) /\
     tasks tm' = [mkTask "2025-01-01" "08:00" "pump2" 60]).
Proof.
  intros full free. split.
  - apply (proj1 (add_task_limit_or_append Written "2025-01-01" "08:00" "pump2" 60 full ∅)).
    simpl. lia.
  - destruct (proj2 (add_task_limit_or_append Written "2025-01-01" "08:00" "pump2" 60 free ∅))
      as (tm' & d' & Hadd & Htasks & _ & _ & Hfile).
    { simpl. lia. }
    exists tm'. rewrite Hadd, (Hfile eq_refl). split; [reflexivity|exact Htasks].
Defined.

(** ** Auto-off timers *)

Lemma length_cancelled dev st : length (cancelled dev st) = length (timer_objs st).
Proof.
  unfold cancelled, Timer_deinit. destruct (auto_off_timers st !! dev); [|done].
  apply length_alter.
Qed.

Lemma arm_timer_objs dev ch dur st :
  timer_objs (_set_auto_off_timer dev ch dur st) =
    cancelled dev st ++ [mkTimer true (dur * 1000) (Some (mkAutoOff dev ch))].
Proof.
  unfold _set_auto_off_timer, Timer_new, Timer_init. fold (cancelled dev st).
  cbn [timer_objs with_timers].
  replace (length (cancelled dev st)) with (length (cancelled dev st) + 0)%nat at 1 by lia.
  rewrite alter_app_r. reflexivity.
Qed.

Lemma arm_auto_off_timers dev ch dur st :
  auto_off_timers (_set_auto_off_timer dev ch dur st) =
    <[dev := length (timer_objs st)]> (auto_off_timers st).
Proof.
  unfold _set_auto_off_timer, Timer_new. fold (cancelled dev st).
  cbn [auto_off_timers with_timers]. by rewrite length_cancelled.
Qed.

Lemma arm_other_fields dev ch dur st :
  relay_controller (_set_auto_off_timer dev ch dur st) = relay_controller st /\
  task_manager (_set_auto_off_timer dev ch dur st) = task_manager st /\
  device_status (_set_auto_off_timer dev ch dur st) = device_status st /\
  flash (_set_auto_off_timer dev ch dur st) = flash st.
Proof. unfold _set_auto_off_timer, Timer_new. done. Qed.

(** A timer that runs after a cancellation ran before it, and is not the
    cancelled one. *)
Lemma cancelled_running dev st h t :
  cancelled dev st !! h = Some t -> running t = true ->
  timer_objs st !! h = Some t /\ auto_off_timers st !! dev <> Some h.
Proof.
  unfold cancelled, Timer_deinit. intros Hl Hrun.
  destruct (auto_off_timers st !! dev) as [h0|] eqn:E; [|done].
  destruct (decide (h0 = h)) as [->|Hne].
  - rewrite list_lookup_alter_eq in Hl.
    destruct (timer_objs st !! h); simplify_eq/=; try discriminate.
  - rewrite list_lookup_alter_ne in Hl by done. split; [done|congruence].
Qed.

Lemma arm_registered dev ch dur st :
  timers_registered st -> timers_registered (_set_auto_off_timer dev ch dur st).
Proof.
  intros Hinv h t Hl Hrun.
  rewrite arm_timer_objs in Hl. rewrite arm_auto_off_timers.
  apply lookup_snoc_Some in Hl as [[Hlt Hl]|[-> <-]].
  - apply cancelled_running in Hl as [Hl Hne]; [|done].
    destruct (Hinv h t Hl Hrun) as (cb & Hcb & Hreg).
    exists cb. split; [done|].
    rewrite lookup_insert_ne; [done|]. intros Heq. apply Hne. by rewrite Heq.
  - eexists. split; [reflexivity|]. cbn.
    rewrite length_cancelled. apply lookup_insert_eq.
Qed.

Lemma fire_registered h st :
  timers_registered st -> timers_registered (Timer_fire h st).
Proof.
  intros Hinv. unfold Timer_fire.
  destruct (timer_objs st !! h) as [t|] eqn:Ht; [|done].
  destruct (running t) eqn:Hrun; [|done].
  destruct (Hinv h t Ht Hrun) as (cb & Hcb & Hreg). rewrite Hcb.
  unfold auto_off_callback. cbn. rewrite Hreg. cbn.
  intros h2 t2 Hl2 Hrun2. cbn in Hl2 |- *. unfold Timer_deinit in Hl2.
  destruct (decide (h = h2)) as [->|Hne].
  - rewrite list_lookup_alter_eq, Ht in Hl2. simplify_eq/=; try discriminate.
  - rewrite list_lookup_alter_ne in Hl2 by done.
    destruct (Hinv h2 t2 Hl2 Hrun2) as (cb2 & Hcb2 & Hreg2).
    exists cb2. split; [done|].
    rewrite lookup_delete_ne; [done|]. intros Heq. rewrite Heq in Hreg. congruence.
Qed.

Lemma shutdown_registered st :
  timers_registered st -> timers_registered (shutdown st).
Proof.
  intros Hinv. unfold shutdown. cbn.
  assert (Hfold : forall h t,
    map_fold (fun _ h objs => Timer_deinit h objs) (timer_objs st) (auto_off_timers st) !! h
      = Some t -> running t = true ->
    timer_objs st !! h = Some t /\ forall k, auto_off_timers st !! k <> Some h).
  { apply (map_fold_weak_ind (fun r m => forall h t, r !! h = Some t -> running t = true ->
      timer_objs st !! h = Some t /\ forall k, m !! k <> Some h)).
    - intros h t Hl _. split; [done|]. intros k. by rewrite lookup_empty.
    - intros i x m r Hi IH h t Hl Hrun. unfold Timer_deinit in Hl.
      destruct (decide (x = h)) as [->|Hne].
      + rewrite list_lookup_alter_eq in Hl. destruct (r !! h); simplify_eq/=; try discriminate.
      + rewrite list_lookup_alter_ne in Hl by done.
        destruct (IH h t Hl Hrun) as [Ho Hk]. split; [done|].
        intros k. destruct (decide (i = k)) as [->|Hik].
        * rewrite lookup_insert_eq. congruence.
        * rewrite lookup_insert_ne by done. apply Hk. }
  intros h t Hl Hrun. destruct (Hfold h t Hl Hrun) as [Ho Hk].
  destruct (Hinv h t Ho Hrun) as (cb & _ & Hreg). by apply Hk in Hreg.
Qed.

Lemma timers_registered_ext st st' :
  timer_objs st' = timer_objs st -> auto_off_timers st' = auto_off_timers st ->
  timers_registered st -> timers_registered st'.
Proof. unfold timers_registered. intros -> ->. done. Qed.

Lemma execute_device_channel dev dur st :
  execute_device dev dur st =
    match device_channel dev with
    | Some ch => switch_on dev ch dur st
    | None => st
    end.
Proof.
  unfold execute_device, device_channel.
  destruct (String.eqb_spec dev "pump1") as [->|?]; [reflexivity|].
  destruct (String.eqb_spec dev "pump2") as [->|?]; [reflexivity|].
  destruct (String.eqb_spec dev "pump3") as [->|?]; [reflexivity|].
  destruct (String.eqb_spec dev "dcmotor") as [->|?]; reflexivity.
Qed.

Lemma switch_on_registered dev ch dur st :
  timers_registered st -> timers_registered (switch_on dev ch dur st).
Proof.
  intros Hinv. unfold switch_on. apply arm_registered.
  eapply timers_registered_ext; [| |exact Hinv]; done.
Qed.

Lemma tick_registered now io st :
  timers_registered st -> timers_registered (check_scheduled_tasks now io st).
Proof.
  intros Hinv. unfold check_scheduled_tasks.
  destruct (first_due _ _ _ _) as [[i task]|]; [|done].
  destruct (delete_task _ _ _ _) as [[b tm'] d'].
  eapply timers_registered_ext; [reflexivity|reflexivity|].
  rewrite execute_device_channel.
  destruct (device_channel (device task)); [|done].
  by apply switch_on_registered.
Qed.

Lemma step_registered st st' :
  step st st' -> timers_registered st -> timers_registered st'.
Proof.
  intros Hstep Hinv. destruct Hstep.
  - by apply tick_registered.
  - by apply arm_registered.
  - by apply fire_registered.
  - destruct (add_task _ _ _ _ _ _ _) as [[r tm'] d'].
    eapply timers_registered_ext; [| |exact Hinv]; done.
  - destruct (delete_task _ _ _ _) as [[b tm'] d'].
    eapply timers_registered_ext; [| |exact Hinv]; done.
  - eapply timers_registered_ext; [| |exact Hinv]; done.
  - eapply timers_registered_ext; [| |exact Hinv]; done.
  - by apply shutdown_registered.
Qed.

Lemma init_registered d : timers_registered (ESP32Controller_init d).
Proof. intros h t Hl. cbn in Hl. by rewrite lookup_nil in Hl. Qed.

Lemma reachable_registered d st : reachable d st -> timers_registered st.
Proof.
  induction 1 as [|st st' _ IH Hstep].
  - apply init_registered.
  - eapply step_registered; eauto.
Qed.

Lemma is_live_for_spec dev t :
  is_live_for dev t = true <->
  running t = true /\ exists cb, callback t = Some cb /\ cb_device_name cb = dev.
Proof.
  unfold is_live_for. destruct (running t); cbn.
  - destruct (callback t) as [cb|].
    + destruct (String.eqb_spec (cb_device_name cb) dev) as [Heq|Hne]; split.
      * eauto.
      * done.
      * discriminate.
      * intros (_ & cb' & [= <-] & ?). done.
    + split; [discriminate|]. intros (_ & cb' & ? & _). discriminate.
  - split; [discriminate|]. intros [? _]. discriminate.
Qed.

Lemma elem_of_live_from dev k objs h :
  h ∈ live_from dev k objs <->
  (k <= h)%nat /\ exists t, objs !! (h - k)%nat = Some t /\ is_live_for dev t = true.
Proof.
  revert k. induction objs as [|t objs IH]; intros k; cbn [live_from].
  - split; [by intros ?%elem_of_nil|]. intros (_ & t & Hl & _). by rewrite lookup_nil in Hl.
  - assert (Hrest : h ∈ live_from dev (S k) objs <->
      (k < h)%nat /\ exists t', (t :: objs) !! (h - k)%nat = Some t' /\ is_live_for dev t' = true).
    { rewrite IH. split.
      - intros (Hle & t' & Hl & Hlive). split; [lia|]. exists t'. split; [|done].
        replace (h - k)%nat with (S (h - S k)) by lia. done.
      - intros (Hlt & t' & Hl & Hlive). split; [lia|]. exists t'. split; [|done].
        replace (h - k)%nat with (S (h - S k)) in Hl by lia. done. }
    destruct (is_live_for dev t) eqn:Hlive.
    + rewrite elem_of_cons, Hrest. split.
      * intros [->|(Hlt & Hex)].
        -- split; [lia|]. exists t. by rewrite Nat.sub_diag.
        -- split; [lia|done].
      * intros (Hle & t' & Hl & Hlive').
        destruct (decide (h = k)) as [->|Hne]; [by left|].
        right. split; [lia|]. eauto.
    + rewrite Hrest. split.
      * intros (Hlt & Hex). split; [lia|done].
      * intros (Hle & t' & Hl & Hlive').
        destruct (decide (h = k)) as [->|Hne].
        -- rewrite Nat.sub_diag in Hl. cbn in Hl. congruence.
        -- split; [lia|]. eauto.
Qed.

Lemma NoDup_live_from dev k objs : NoDup (live_from dev k objs).
Proof.
  revert k. induction objs as [|t objs IH]; intros k; cbn [live_from].
  - constructor.
  - destruct (is_live_for dev t); [|apply IH].
    constructor; [|apply IH].
    rewrite elem_of_live_from. intros [Hle _]. lia.
Qed.

Lemma elem_of_live_timers dev st h :
  h ∈ live_timers dev st <->
  exists t, timer_objs st !! h = Some t /\ running t = true /\
            exists cb, callback t = Some cb /\ cb_device_name cb = dev.
Proof.
  unfold live_timers. rewrite elem_of_live_from, Nat.sub_0_r.
  setoid_rewrite is_live_for_spec. split.
  - intros (_ & t & ? & ?). eauto.
  - intros (t & ? & ?). split; [lia|eauto].
Qed.

Lemma live_timers_registered dev st h :
  timers_registered st -> h ∈ live_timers dev st -> auto_off_timers st !! dev = Some h.
Proof.
  intros Hinv (t & Hl & Hrun & cb & Hcb & <-)%elem_of_live_timers.
  destruct (Hinv h t Hl Hrun) as (cb' & Hcb' & Hreg). congruence.
Qed.

Lemma live_timers_at_most_one dev st :
  timers_registered st -> (length (live_timers dev st) <= 1)%nat.
Proof.
  intros Hinv.
  pose proof (NoDup_live_from dev 0 (timer_objs st)) as Hnd.
  fold (live_timers dev st) in Hnd.
  destruct (live_timers dev st) as [|a [|b l]] eqn:E; cbn; [lia|lia|].
  exfalso.
  assert (Ha : auto_off_timers st !! dev = Some a).
  { apply live_timers_registered; [done|]. rewrite E. set_solver. }
  assert (Hb : auto_off_timers st !! dev = Some b).
  { apply live_timers_registered; [done|]. rewrite E. set_solver. }
  apply NoDup_cons in Hnd as [Hnotin _]. apply Hnotin.
  replace a with b by congruence. set_solver.
Qed.

Lemma live_timers_only dev st h :
  timers_registered st -> h ∈ live_timers dev st -> live_timers dev st = [h].
Proof.
  intros Hinv Hin. pose proof (live_timers_at_most_one dev st Hinv) as Hlen.
  destruct (live_timers dev st) as [|a [|b l]]; cbn in Hlen; [|  |lia].
  - by apply elem_of_nil in Hin.
  - apply list_elem_of_singleton in Hin. by subst.
Qed.

Lemma no_live_timers dev st :
  timers_registered st -> auto_off_timers st !! dev = None -> live_timers dev st = [].
Proof.
  intros Hinv Hnone. destruct (live_timers dev st) as [|h l] eqn:E; [done|].
  assert (Hin : h ∈ live_timers dev st) by (rewrite E; set_solver).
  apply live_timers_registered in Hin; [congruence|done].
Qed.

(** After arming, the new timer is the only running one of the device. *)
Lemma arm_live dev ch dur st :
  timers_registered st ->
  let st' := _set_auto_off_timer dev ch dur st in
  let h := length (timer_objs st) in
  live_timers dev st' = [h] /\
  auto_off_timers st' = <[dev := h]> (auto_off_timers st) /\
  timer_objs st' !! h = Some (mkTimer true (dur * 1000) (Some (mkAutoOff dev ch))).
Proof.
  intros Hinv st' h.
  assert (Hl : timer_objs st' !! h = Some (mkTimer true (dur * 1000) (Some (mkAutoOff dev ch)))).
  { unfold st', h. rewrite arm_timer_objs. apply list_lookup_middle.
    by rewrite length_cancelled. }
  split; [|split; [apply arm_auto_off_timers|exact Hl]].
  apply live_timers_only; [by apply arm_registered|].
  apply elem_of_live_timers. eexists. split; [exact Hl|]. split; [done|]. eauto.
Qed.

(** ** Scheduler tick *)

Lemma first_due_none cd ct i l :
  none_due cd ct l -> first_due cd ct i l = None.
Proof.
  intros Hnone. revert i. induction Hnone as [|t l Ht _ IH]; intros i; cbn; [done|].
  rewrite Ht. apply IH.
Qed.

Lemma first_due_split cd ct i pre t post :
  none_due cd ct pre -> task_due cd ct t = true ->
  first_due cd ct i (pre ++ t :: post) = Some ((i + length pre)%nat, t).
Proof.
  intros Hnone Hdue. revert i. induction Hnone as [|t' l Ht _ IH]; intros i; cbn.
  - rewrite Hdue. do 2 f_equal. lia.
  - rewrite Ht, IH. do 2 f_equal. lia.
Qed.

Lemma execute_device_store dev dur st :
  task_manager (execute_device dev dur st) = task_manager st /\
  flash (execute_device dev dur st) = flash st.
Proof.
  rewrite execute_device_channel. destruct (device_channel dev); [|done].
  unfold switch_on.
  match goal with
  | |- context [_set_auto_off_timer ?d ?c ?u ?s] =>
      destruct (arm_other_fields d c u s) as (_ & -> & _ & ->)
  end.
  done.
Qed.

Lemma delete_task_middle io pre t post tm d :
  tasks tm = pre ++ t :: post ->
  delete_task io (Z.of_nat (length pre)) tm d =
    (true, set_tasks (pre ++ post) tm, _save_tasks io (set_tasks (pre ++ post) tm) d).
Proof.
  intros Htasks. unfold delete_task. rewrite Htasks, length_app. cbn [length].
  destruct (Z.leb_spec 0 (Z.of_nat (length pre))) as [_|?]; [|lia].
  destruct (Z.ltb_spec (Z.of_nat (length pre))
              (Z.of_nat (length pre + S (length post)))) as [_|?]; [|lia].
  cbn [andb]. by rewrite Nat2Z.id, delete_middle.
Qed.

Lemma tick_no_due now io st :
  none_due (current_date now) (current_time_str now) (tasks (task_manager st)) ->
  check_scheduled_tasks now io st = st.
Proof.
  intros Hnone. unfold check_scheduled_tasks, get_tasks.
  by rewrite first_due_none.
Qed.

Lemma tick_first_due now io st pre t post :
  tasks (task_manager st) = pre ++ t :: post ->
  none_due (current_date now) (current_time_str now) pre ->
  task_due (current_date now) (current_time_str now) t = true ->
  check_scheduled_tasks now io st =
    with_task_manager
      (set_tasks (pre ++ post) (task_manager st))
      (_save_tasks io (set_tasks (pre ++ post) (task_manager st)) (flash st))
      (execute_device (device t) (duration t) st).
Proof.
  intros Htasks Hnone Hdue. unfold check_scheduled_tasks, get_tasks.
  rewrite Htasks, first_due_split by done. cbn [Nat.add].
  destruct (execute_device_store (device t) (duration t) st) as [-> ->].
  by rewrite (delete_task_middle io pre t post).
Qed.

Lemma device_channel_unknown dev :
  dev ∉ known_devices -> device_channel dev = None.
Proof.
  unfold known_devices, device_channel. intros Hnot.
  destruct (String.eqb_spec dev "pump1") as [->|?]; [set_solver|].
  destruct (String.eqb_spec dev "pump2") as [->|?]; [set_solver|].
  destruct (String.eqb_spec dev "pump3") as [->|?]; [set_solver|].
  destruct (String.eqb_spec dev "dcmotor") as [->|?]; [set_solver|done].
Qed.

(** C1 (amended).  A tick without a due task changes nothing.  When the
    first due task names a device the scheduler has a branch for, the tick
    sets that device (and no other) to on in [device_status], switches its
    relay, leaves exactly one running auto-off timer for it, with the
    period of the task's duration, and removes that one task from the
    list, whatever tasks follow it: the later ones stay, due or not.  A
    file write that completes stores the shortened list. *)
Theorem tick_fires_first_due_task now io st :
  (none_due (current_date now) (current_time_str now) (tasks (task_manager st)) ->
     check_scheduled_tasks now io st = st) /\
  (forall pre t post ch,
     tasks (task_manager st) = pre ++ t :: post ->
     none_due (current_date now) (current_time_str now) pre ->
     task_due (current_date now) (current_time_str now) t = true ->
     device_channel (device t) = Some ch ->
     timers_registered st ->
     let st' := check_scheduled_tasks now io st in
     device_status st' = <[device t := PyBool true]> (device_status st) /\
     relay_controller st' = relay_on ch (relay_controller st) /\
     (exists h,
        live_timers (device t) st' = [h] /\
        auto_off_timers st' = <[device t := h]> (auto_off_timers st) /\
        timer_objs st' !! h =
          Some (mkTimer true (duration t * 1000) (Some (mkAutoOff (device t) ch)))) /\
     tasks (task_manager st') = pre ++ post /\
     (io = Written ->
        flash st' = <[filename (task_manager st) := Json (pre ++ post)]> (flash st))).
Proof.
  split; [apply tick_no_due|].
  intros pre t post ch Htasks Hnone Hdue Hch Hinv st'.
  unfold st'. rewrite (tick_first_due now io st pre t post) by done.
  rewrite execute_device_channel, Hch. unfold switch_on.
  set (st2 := with_device_status _ _).
  assert (Hinv2 : timers_registered st2).
  { eapply timers_registered_ext; [| |exact Hinv]; done. }
  destruct (arm_live (device t) ch (duration t) st2 Hinv2) as (Hlive & Hreg & Hobj).
  destruct (arm_other_fields (device t) ch (duration t) st2) as (Hr & _ & Hds & _).
  cbn [device_status relay_controller with_task_manager task_manager flash tasks set_tasks].
  rewrite Hds, Hr. repeat split; try done.
  - exists (length (timer_objs st)). repeat split; done.
  - intros ->. done.
Qed.

Lemma tick_fires_first_due_task_witness :
  let t1 := mkTask "2024-12-25" "14:30" "pump1" 300 in
  let t2 := mkTask "2024-12-25" "14:30" "pump2" 60 in
  let early := mkTask "2024-12-24" "14:30" "pump3" 10 in
  let st := ESP32Controller_init (disk_with [early; t1; t2]) in
  let idle := ESP32Controller_init (disk_with [early]) in
  check_scheduled_tasks xmas_1430 Written idle = idle /\
  let st' := check_scheduled_tasks xmas_1430 Written st in
  device_status st' = <["pump1" := PyBool true]> (device_status st) /\
  relay_controller st' = relay_on 0 (relay_controller st) /\
  (exists h,
     live_timers "pump1" st' = [h] /\
     auto_off_timers st' = <["pump1" := h]> (auto_off_timers st) /\
     timer_objs st' !! h = Some (mkTimer true (300 * 1000) (Some (mkAutoOff "pump1" 0)))) /\
  tasks (task_manager st') = [early] ++ [t2] /\
  flash st' = <[filename (task_manager st) := Json ([early] ++ [t2])]> (flash st).
Proof.
  intros t1 t2 early st idle. split.
  - apply (proj1 (tick_fires_first_due_task xmas_1430 Written idle)).
    repeat constructor.
  - destruct (proj2 (tick_fires_first_due_task xmas_1430 Written st) [early] t1 [t2] 0)
      as (Hds & Hrelay & Htimer & Htasks & Hfile).
    + reflexivity.
    + repeat constructor.
    + reflexivity.
    + reflexivity.
    + apply init_registered.
    + intros st'. split; [exact Hds|]. split; [exact Hrelay|]. split; [exact Htimer|].
      split; [exact Htasks|exact (Hfile eq_refl)].
Defined.

(** C1, as stated, fails: a due task for the servo (a device of the
    registry the scheduler has no branch for) is the first due task, yet the
    tick neither sets the device to on nor arms a timer for it. *)
Lemma tick_due_task_servo_not_switched_on :
  let t := mkTask "2024-12-25" "14:30" "servo" 300 in
  let st := ESP32Controller_init (disk_with [t]) in
  let st' := check_scheduled_tasks xmas_1430 Written st in
  tasks (task_manager st) = [t] /\
  task_due (current_date xmas_1430) (current_time_str xmas_1430) t = true /\
  device_status st' !! "servo" = Some (PyInt 90) /\
  device_status st' !! "servo" <> Some (PyBool true) /\
  live_timers "servo" st' = [] /\
  auto_off_timers st' !! "servo" = None.
Proof. vm_compute. repeat split; congruence. Qed.

(** C10. When the first due task names a device outside pump1, pump2,
    pump3 and dcmotor, the tick removes that task (and no other, although
    later tasks may be due as well) from the task store: from the list in
    memory and, when the file write completes, from the storage file,
    which then holds the shortened list; a write that fails at [open]
    leaves the files as they were.  The tick leaves the device registry,
    the relays, the registered timers and the timer objects as they
    were. *)
Theorem tick_unknown_device_discards_task now io st pre t post :
  tasks (task_manager st) = pre ++ t :: post ->
  none_due (current_date now) (current_time_str now) pre ->
  task_due (current_date now) (current_time_str now) t = true ->
  device t ∉ known_devices ->
  let st' := check_scheduled_tasks now io st in
  tasks (task_manager st') = pre ++ post /\
  (io = Written ->
     flash st' = <[filename (task_manager st) := Json (pre ++ post)]> (flash st)) /\
  (io = OpenFailed -> flash st' = flash st) /\
  device_status st' = device_status st /\
  relay_controller st' = relay_controller st /\
  auto_off_timers st' = auto_off_timers st /\
  timer_objs st' = timer_objs st /\
  (forall dev, live_timers dev st' = live_timers dev st).
Proof.
  intros Htasks Hnone Hdue Hunknown st'. unfold st'.
  rewrite (tick_first_due now io st pre t post) by done.
  rewrite execute_device_channel, device_channel_unknown by done.
  cbn [with_task_manager task_manager flash tasks set_tasks device_status
       relay_controller auto_off_timers timer_objs].
  split; [done|]. split; [by intros ->|]. split; [by intros ->|].
  repeat split; done.
Qed.

Lemma tick_unknown_device_discards_task_witness :
  let t := mkTask "2024-12-25" "14:30" "valve9" 300 in
  let t2 := mkTask "2024-12-25" "14:30" "pump2" 60 in
  let st := ESP32Controller_init (disk_with [t; t2]) in
  let st' := check_scheduled_tasks xmas_1430 Written st in
  tasks (task_manager st') = [] ++ [t2] /\
  flash st' = <[filename (task_manager st) := Json ([] ++ [t2])]> (flash st) /\
  flash st' !! "tasks.json" = Some (Json [t2]) /\
  device_status st' = device_status st /\
  relay_controller st' = relay_controller st /\
  auto_off_timers st' = auto_off_timers st /\
  timer_objs st' = timer_objs st /\
  (forall dev, live_timers dev st' = live_timers dev st).
Proof.
  intros t t2 st.
  destruct (tick_unknown_device_discards_task xmas_1430 Written st [] t [t2])
    as (Htasks & Hfile & _ & Hrest).
  - reflexivity.
  - constructor.
  - reflexivity.
  - unfold known_devices. rewrite !not_elem_of_cons.
    repeat split; try discriminate. apply not_elem_of_nil.
  - split; [exact Htasks|]. split; [exact (Hfile eq_refl)|].
    split; [|exact Hrest]. rewrite (Hfile eq_refl). reflexivity.
Defined.

(** ** The handles stay valid *)

Lemma handles_valid_ext st st' :
  timer_objs st' = timer_objs st -> auto_off_timers st' = auto_off_timers st ->
  handles_valid st -> handles_valid st'.
Proof. unfold handles_valid. intros -> ->. done. Qed.

Lemma arm_handles_valid dev ch dur st :
  handles_valid st -> handles_valid (_set_auto_off_timer dev ch dur st).
Proof.
  intros Hv dev' h. rewrite arm_auto_off_timers, arm_timer_objs, length_app, length_cancelled.
  cbn [length]. destruct (decide (dev = dev')) as [->|Hne].
  - rewrite lookup_insert_eq. intros [= <-]. lia.
  - rewrite lookup_insert_ne by done. intros Hl%Hv. lia.
Qed.

Lemma fire_handles_valid h st :
  handles_valid st -> handles_valid (Timer_fire h st).
Proof.
  intros Hv. unfold Timer_fire.
  destruct (timer_objs st !! h) as [t|]; [|done].
  destruct (running t); [|done].
  assert (Hd : handles_valid
            (with_timers (auto_off_timers st) (Timer_deinit h (timer_objs st)) st)).
  { intros dev h'. cbn. unfold Timer_deinit. rewrite length_alter. apply Hv. }
  destruct (callback t) as [cb|]; [|done].
  unfold auto_off_callback. cbn.
  destruct (auto_off_timers st !! cb_device_name cb); [|exact Hd].
  intros dev h'. cbn. unfold Timer_deinit. rewrite length_alter.
  intros Hl%lookup_delete_Some. apply (Hv dev), Hl.
Qed.

Lemma tick_handles_valid now io st :
  handles_valid st -> handles_valid (check_scheduled_tasks now io st).
Proof.
  intros Hv. unfold check_scheduled_tasks.
  destruct (first_due _ _ _ _) as [[i task]|]; [|done].
  destruct (delete_task _ _ _ _) as [[b tm'] d'].
  eapply handles_valid_ext; [reflexivity|reflexivity|].
  rewrite execute_device_channel.
  destruct (device_channel (device task)); [|done].
  unfold switch_on. apply arm_handles_valid.
  eapply handles_valid_ext; [| |exact Hv]; done.
Qed.

Lemma step_handles_valid st st' :
  step st st' -> handles_valid st -> handles_valid st'.
Proof.
  intros Hstep Hv. destruct Hstep.
  - by apply tick_handles_valid.
  - by apply arm_handles_valid.
  - by apply fire_handles_valid.
  - destruct (add_task _ _ _ _ _ _ _) as [[r tm'] d'].
    eapply handles_valid_ext; [| |exact Hv]; done.
  - destruct (delete_task _ _ _ _) as [[b tm'] d'].
    eapply handles_valid_ext; [| |exact Hv]; done.
  - eapply handles_valid_ext; [| |exact Hv]; done.
  - eapply handles_valid_ext; [| |exact Hv]; done.
  - intros dev h. unfold shutdown. cbn. by rewrite lookup_empty.
Qed.

Lemma reachable_handles_valid d st : reachable d st -> handles_valid st.
Proof.
  induction 1 as [|st st' _ IH Hstep].
  - intros dev h. cbn. by rewrite lookup_empty.
  - eapply step_handles_valid; eauto.
Qed.

(** Arming stops the timer the device had. *)
Lemma arm_cancels_prior dev ch dur st h0 t0 :
  handles_valid st ->
  auto_off_timers st !! dev = Some h0 ->
  timer_objs (_set_auto_off_timer dev ch dur st) !! h0 = Some t0 ->
  running t0 = false.
Proof.
  intros Hv Hreg. rewrite arm_timer_objs.
  rewrite lookup_app_l by (rewrite length_cancelled; eauto).
  unfold cancelled, Timer_deinit. rewrite Hreg, list_lookup_alter_eq.
  destruct (timer_objs st !! h0); intros [= <-]. done.
Qed.

(** What the firing of a running timer leaves. *)
Lemma fire_effect h t cb st :
  timers_registered st ->
  timer_objs st !! h = Some t -> running t = true -> callback t = Some cb ->
  let st' := Timer_fire h st in
  device_status st' !! cb_device_name cb = Some (PyBool false) /\
  relay_controller st' = relay_off (cb_channel cb) (relay_controller st) /\
  auto_off_timers st' = delete (cb_device_name cb) (auto_off_timers st) /\
  timer_objs st' !! h = Some (mkTimer false (period t) (callback t)) /\
  live_timers (cb_device_name cb) st' = [].
Proof.
  intros Hinv Hl Hrun Hcb st'.
  assert (Hinv' : timers_registered st') by by apply fire_registered.
  destruct (Hinv h t Hl Hrun) as (cb' & Hcb' & Hreg).
  assert (cb' = cb) as -> by congruence.
  assert (Hst' : st' = with_timers (delete (cb_device_name cb) (auto_off_timers st))
                         (Timer_deinit h (timer_objs st))
                         (with_device_status
                            (<[cb_device_name cb := PyBool false]> (device_status st))
                            (with_relays (relay_off (cb_channel cb) (relay_controller st)) st))).
  { unfold st', Timer_fire. rewrite Hl, Hrun, Hcb. unfold auto_off_callback. cbn.
    by rewrite Hreg. }
  assert (Hdel : auto_off_timers st' = delete (cb_device_name cb) (auto_off_timers st)).
  { by rewrite Hst'. }
  repeat split.
  - rewrite Hst'. cbn. apply lookup_insert_eq.
  - by rewrite Hst'.
  - exact Hdel.
  - rewrite Hst'. cbn. unfold Timer_deinit. by rewrite list_lookup_alter_eq, Hl.
  - apply no_live_timers; [done|]. rewrite Hdel. apply lookup_delete_eq.
Qed.

(** C2. In every state the controller can reach, each device has at most
    one running auto-off timer.  Arming a timer for a device that has one
    stops the earlier timer; arming twice in a row leaves exactly one
    running timer for the device, the second, with the second duration.  A
    timer that fires sets its device to off in [device_status], removes the
    device's entry from [auto_off_timers] and is no longer running, so the
    device is left without a running timer. *)
Theorem one_live_timer_per_device d st :
  reachable d st ->
  (forall dev, (length (live_timers dev st) <= 1)%nat) /\
  (forall dev ch dur h0 t0,
     auto_off_timers st !! dev = Some h0 ->
     timer_objs (_set_auto_off_timer dev ch dur st) !! h0 = Some t0 ->
     running t0 = false) /\
  (forall dev ch d1 d2,
     let st2 := _set_auto_off_timer dev ch d2 (_set_auto_off_timer dev ch d1 st) in
     exists h,
       live_timers dev st2 = [h] /\
       auto_off_timers st2 !! dev = Some h /\
       timer_objs st2 !! h = Some (mkTimer true (d2 * 1000) (Some (mkAutoOff dev ch)))) /\
  (forall h t cb,
     timer_objs st !! h = Some t -> running t = true -> callback t = Some cb ->
     let st' := Timer_fire h st in
     device_status st' !! cb_device_name cb = Some (PyBool false) /\
     auto_off_timers st' !! cb_device_name cb = None /\
     timer_objs st' !! h = Some (mkTimer false (period t) (callback t)) /\
     live_timers (cb_device_name cb) st' = []).
Proof.
  intros Hreach.
  pose proof (reachable_registered d st Hreach) as Hinv.
  pose proof (reachable_handles_valid d st Hreach) as Hv.
  split; [|split; [|split]].
  - intros dev. by apply live_timers_at_most_one.
  - intros dev ch dur h0 t0. by apply arm_cancels_prior.
  - intros dev ch d1 d2 st2.
    destruct (arm_live dev ch d2 (_set_auto_off_timer dev ch d1 st)) as (Hlive & Hreg & Hobj);
      [by apply arm_registered|].
    eexists. split; [exact Hlive|]. split; [|exact Hobj].
    fold st2 in Hreg. rewrite Hreg. apply lookup_insert_eq.
  - intros h t cb Hl Hrun Hcb st'.
    destruct (fire_effect h t cb st Hinv Hl Hrun Hcb) as (Hds & _ & Hdel & Hobj & Hlive).
    repeat split; try done.
    unfold st'. rewrite Hdel. apply lookup_delete_eq.
Qed.

Lemma one_live_timer_per_device_witness :
  let st := _set_auto_off_timer "pump1" 0 300 (ESP32Controller_init ∅) in
  (forall dev, (length (live_timers dev st) <= 1)%nat) /\
  (forall dev ch dur h0 t0,
     auto_off_timers st !! dev = Some h0 ->
     timer_objs (_set_auto_off_timer dev ch dur st) !! h0 = Some t0 ->
     running t0 = false) /\
  (forall dev ch d1 d2,
     let st2 := _set_auto_off_timer dev ch d2 (_set_auto_off_timer dev ch d1 st) in
     exists h,
       live_timers dev st2 = [h] /\
       auto_off_timers st2 !! dev = Some h /\
       timer_objs st2 !! h = Some (mkTimer true (d2 * 1000) (Some (mkAutoOff dev ch)))) /\
  (forall h t cb,
     timer_objs st !! h = Some t -> running t = true -> callback t = Some cb ->
     let st' := Timer_fire h st in
     device_status st' !! cb_device_name cb = Some (PyBool false) /\
     auto_off_timers st' !! cb_device_name cb = None /\
     timer_objs st' !! h = Some (mkTimer false (period t) (callback t)) /\
     live_timers (cb_device_name cb) st' = []).
Proof.
  intros st. apply (one_live_timer_per_device ∅ st).
  unfold st. eapply reach_step; [apply reach_init|apply step_arm].
Defined.

(** Re-arming pump1 twice on a fresh controller, then letting the timer
    fire. *)
Example rearm_twice_then_fire :
  let st := _set_auto_off_timer "pump1" 0 20
              (_set_auto_off_timer "pump1" 0 10 (ESP32Controller_init ∅)) in
  live_timers "pump1" st = [1%nat] /\
  (running <$> timer_objs st) = [false; true] /\
  live_timers "pump1" (Timer_fire 1 st) = [] /\
  Timer_fire 0 st = st.
Proof. vm_compute. repeat split. Qed.

(** C5, as stated, fails: a scheduled activation with duration 0 arms a
    timer all the same (one with period 0). *)
Lemma scheduled_zero_duration_arms_timer :
  let t := mkTask "2024-12-25" "14:30" "pump1" 0 in
  let st := ESP32Controller_init (disk_with [t]) in
  let st' := check_scheduled_tasks xmas_1430 Written st in
  ~ (0 < duration t) /\
  live_timers "pump1" st = [] /\
  live_timers "pump1" st' = [0%nat] /\
  auto_off_timers st' !! "pump1" = Some 0%nat /\
  timer_objs st' !! 0%nat = Some (mkTimer true 0 (Some (mkAutoOff "pump1" 0))).
Proof. vm_compute. repeat split. intros H. discriminate H. Qed.

(** C5 (amended).  A scheduled activation of a device the scheduler has a
    branch for arms an auto-off timer for every duration, positive, zero or
    negative: the device is set to on, and exactly one timer runs for it,
    with period duration * 1000 ms.  No test of the duration stands between
    the activation and [_set_auto_off_timer]. *)
Theorem activation_arms_timer_for_every_duration dev ch dur st :
  timers_registered st ->
  device_channel dev = Some ch ->
  let st' := execute_device dev dur st in
  device_status st' !! dev = Some (PyBool true) /\
  exists h,
    live_timers dev st' = [h] /\
    auto_off_timers st' !! dev = Some h /\
    timer_objs st' !! h = Some (mkTimer true (dur * 1000) (Some (mkAutoOff dev ch))).
Proof.
  intros Hinv Hch st'. unfold st'. rewrite execute_device_channel, Hch.
  unfold switch_on. set (st2 := with_device_status _ _).
  assert (Hinv2 : timers_registered st2).
  { eapply timers_registered_ext; [| |exact Hinv]; done. }
  destruct (arm_live dev ch dur st2 Hinv2) as (Hlive & Hreg & Hobj).
  destruct (arm_other_fields dev ch dur st2) as (_ & _ & Hds & _).
  split.
  - rewrite Hds. unfold st2. cbn. apply lookup_insert_eq.
  - eexists. split; [exact Hlive|]. split; [|exact Hobj].
    rewrite Hreg. apply lookup_insert_eq.
Qed.

Lemma activation_arms_timer_for_every_duration_witness :
  let st := ESP32Controller_init ∅ in
  let st' := execute_device "dcmotor" 0 st in
  device_status st' !! "dcmotor" = Some (PyBool true) /\
  exists h,
    live_timers "dcmotor" st' = [h] /\
    auto_off_timers st' !! "dcmotor" = Some h /\
    timer_objs st' !! h = Some (mkTimer true (0 * 1000) (Some (mkAutoOff "dcmotor" 3))).
Proof.
  intros st.
  apply (activation_arms_timer_for_every_duration "dcmotor" 3 0 st).
  - apply init_registered.
  - reflexivity.
Defined.

(** ** Route table *)

Section RouteLookup.

Context {Handler : Type}.
Implicit Types (rh : MicroWebSrvRoute Handler) (rhs : list (MicroWebSrvRoute Handler)).

Lemma route_loop_skip `{Interpreter} rh rhs url m :
  route_matches url m rh = false ->
  route_loop (rh :: rhs) url m = route_loop rhs url m.
Proof.
  unfold route_matches. cbn [route_loop]. intros Hno.
  destruct (String.eqb (method rh) m); [|done].
  destruct (Re.exec (routeRegex rh) url) as [groups|]; [|done].
  exfalso. apply andb_false_iff in Hno as [Hno|Hno]; [done|].
  apply bool_decide_eq_false in Hno. apply Hno. eauto.
Qed.

Lemma route_loop_take `{Interpreter} rh rhs url m :
  route_matches url m rh = true ->
  route_loop (rh :: rhs) url m = route_result url rh.
Proof.
  unfold route_matches, route_result. cbn [route_loop].
  intros [Hm Hex]%andb_prop. rewrite Hm.
  apply bool_decide_eq_true in Hex as [groups Hex]. rewrite Hex.
  by destruct (routeArgNames rh).
Qed.

Lemma route_loop_none `{Interpreter} rhs url m :
  Forall (fun r => route_matches url m r = false) rhs ->
  route_loop rhs url m = (None, None).
Proof.
  induction 1 as [|rh rhs Hno _ IH]; [done|].
  by rewrite route_loop_skip.
Qed.

Lemma route_loop_first `{Interpreter} pre rh post url m :
  Forall (fun r => route_matches url m r = false) pre ->
  route_matches url m rh = true ->
  route_loop (pre ++ rh :: post) url m = route_result url rh.
Proof.
  induction 1 as [|r pre Hno _ IH]; intros Hyes; cbn [app].
  - by apply route_loop_take.
  - rewrite route_loop_skip by done. by apply IH.
Qed.

(** C3. [GetRouteHandler] returns the handler (and the arguments) of the
    first entry of the table, in registration order, whose method equals
    the upper-cased request method and whose expression matches the
    path without its trailing slash: entries before it that do not
    match are passed over, and entries after it are never looked at,
    however many of them match and however specific they are.  When no
    entry matches the result is (None, None). *)
Theorem GetRouteHandler_first_match `{Interpreter} rhs resUrl meth :
  (forall pre rh post,
     rhs = pre ++ rh :: post ->
     Forall (fun r => route_matches (trim_slash resUrl) (PyStr.upper meth) r = false) pre ->
     route_matches (trim_slash resUrl) (PyStr.upper meth) rh = true ->
     GetRouteHandler rhs resUrl meth = route_result (trim_slash resUrl) rh /\
     fst (GetRouteHandler rhs resUrl meth) = Some (func rh)) /\
  (Forall (fun r => route_matches (trim_slash resUrl) (PyStr.upper meth) r = false) rhs ->
     GetRouteHandler rhs resUrl meth = (None, None)).
Proof.
  split.
  - intros pre rh post -> Hpre Hrh.
    assert (Hget : GetRouteHandler (pre ++ rh :: post) resUrl meth =
                   route_result (trim_slash resUrl) rh).
    { unfold GetRouteHandler.
      destruct (pre ++ rh :: post) as [|r l] eqn:E.
      - by destruct pre.
      - rewrite <- E. by apply route_loop_first. }
    split; [exact Hget|]. rewrite Hget. unfold route_result.
    by destruct (routeArgNames rh).
  - intros Hnone. unfold GetRouteHandler. destruct rhs as [|r l]; [done|].
    by apply route_loop_none.
Qed.

End RouteLookup.

Lemma GetRouteHandler_first_match_witness :
  let rhs := default [] (build_routes relay_routes) in
  (exists rh post,
     rhs = [] ++ rh :: post /\
     route rh = "/relay/<channel>/<action>" /\
     Exists (fun r => route_matches "/relay/0/on" "GET" r = true) post /\
     GetRouteHandler rhs "/relay/0/on/" "get" = route_result "/relay/0/on" rh /\
     fst (GetRouteHandler rhs "/relay/0/on/" "get") = Some 1%nat) /\
  GetRouteHandler rhs "/relay/0/on" "POST" = (None, None).
Proof.
  intros rhs.
  destruct (GetRouteHandler_first_match rhs "/relay/0/on/" "get") as [Hfirst _].
  destruct (GetRouteHandler_first_match rhs "/relay/0/on" "POST") as [_ Hnone].
  split.
  - eexists _, _. split; [reflexivity|]. split; [reflexivity|].
    split; [left; reflexivity|].
    apply (Hfirst [] _ _ eq_refl); [constructor|reflexivity].
  - apply Hnone. repeat constructor.
Defined.

(** ** Static paths *)

(** C6 (evaluation at the failing input).  For the request path
    [/....//tasks.json] the replacement removes the one occurrence of
    [../] it finds and thereby creates a new one: the physical path still
    contains [../] and names a file above the web root.  The plain form
    [/../../etc/passwd] is reduced to a path inside the root. *)
Theorem physPath_dotdot_survives_replace :
  let fileExists := String.eqb "/flash/www/..//tasks.json" in
  PyStr.replace "../" "/" "/....//tasks.json" = "/..//tasks.json" /\
  _physPathFromURLPath fileExists "/flash/www" "/....//tasks.json"
    = Some "/flash/www/..//tasks.json" /\
  PyStr.contains "../" "/..//tasks.json" = true /\
  stays_in_root "/..//tasks.json" = false /\
  PyStr.replace "../" "/" "/../../etc/passwd" = "///etc/passwd" /\
  stays_in_root "///etc/passwd" = true.
Proof. vm_compute. repeat split. Qed.

(** ** One connection *)

Lemma socket_closes_app t1 t2 :
  socket_closes (t1 ++ t2) = (socket_closes t1 + socket_closes t2)%nat.
Proof. unfold socket_closes. by rewrite List.filter_app, length_app. Qed.

Lemma socket_closes_status codes : socket_closes (EvStatus <$> codes) = 0%nat.
Proof. by induction codes. Qed.

(** A handler call ends with a value or an exception, and closes nothing. *)
Lemma call_handler_shape h cl args :
  exists t o, call_handler h cl args = (t, o) /\ socket_closes t = 0%nat /\ o <> Return.
Proof.
  unfold call_handler. destruct (h cl args) as [codes [e|]];
    eexists _, _; (split; [reflexivity|]); by rewrite socket_closes_status.
Qed.

(** The first [try] block closes nothing, and ends with [return] exactly on
    an accepted websocket upgrade. *)
Lemma dispatch_shape `{Interpreter} srv c :
  exists t o, dispatch srv c = (t, o) /\ socket_closes t = 0%nat /\
              (o = Return <-> websocket_accepted srv c = true).
Proof.
  unfold dispatch, websocket_accepted.
  destruct (first_line c) as [[meth resPath]|];
    [|eexists _, _; split; [reflexivity|]; split; [done|]; split; discriminate].
  destruct (header_lines c) as [headers| |e];
    [|eexists _, _; split; [reflexivity|]; split; [done|]; split; discriminate..].
  destruct (not_upg (_getConnUpgrade headers)) eqn:Hupg; cbn [negb andb].
  - destruct (GetRouteHandler _ _ _) as [[routeHandler|] routeArgs].
    + destruct (call_handler_shape routeHandler (mkClient meth resPath headers) routeArgs)
        as (t & o & -> & Hcl & Hret).
      unfold try_except_Exception.
      destruct o as [[]|e|]; [| |done].
      * eexists _, _. split; [reflexivity|]. split; [done|]. split; discriminate.
      * destruct (is_Exception e); cbn.
        -- eexists _, _. split; [reflexivity|]. rewrite socket_closes_app, Hcl.
           split; [done|]. split; discriminate.
        -- eexists _, _. split; [reflexivity|]. split; [done|]. split; discriminate.
    + destruct (String.eqb (PyStr.upper meth) "GET");
        [|eexists _, _; split; [reflexivity|]; split; [done|]; split; discriminate].
      unfold serve_static, WriteResponsePyHTMLFile, WriteResponseFile, WriteResponseNotFound.
      repeat case_match;
        eexists _, _; (split; [reflexivity|]); (split; [done|]); split; discriminate.
  - destruct (bool_decide (_getConnUpgrade headers = Some "websocket"));
      destruct (MicroWebSocket_loaded srv); destruct (AcceptWebSocketCallback srv);
      cbn [andb];
      try (eexists _, _; split; [reflexivity|]; split; [done|]; split; discriminate).
    destruct (websocket_raises c) as [e|]; cbn.
    + eexists _, _. split; [reflexivity|]. split; [done|]. split; discriminate.
    + eexists _, _. split; [reflexivity|]. split; [done|]. split; done.
Qed.

Lemma close_connection_shape c :
  exists t o, close_connection c = (t, o) /\ o <> Return /\
              (socket_closes t <= 1)%nat /\
              (socket_is_file c = true \/ close_file_raises c = None ->
               socket_closes t = 1%nat).
Proof.
  unfold close_connection.
  destruct (socket_is_file c); destruct (close_file_raises c);
    destruct (close_socket_raises c); cbn;
    eexists _, _; (split; [reflexivity|]); (split; [discriminate|]);
    (split; [cbn; lia|]); intros [?|?]; done.
Qed.

Lemma processRequest_returns `{Interpreter} srv c : snd (_processRequest srv c) = Val tt.
Proof.
  unfold _processRequest.
  destruct (dispatch_shape srv c) as (t & o & -> & _ & _).
  destruct (close_connection_shape c) as (tc & oc & -> & Hoc & _).
  destruct o as [[]|e|]; cbn; [| |done]; by destruct oc as [[]|ec|].
Qed.

(** C7, as stated, fails: on an accepted websocket upgrade the run hands
    the socket to MicroWebSocket and returns without a close. *)
Lemma websocket_upgrade_not_closed :
  websocket_accepted ws_server ws_connection = true /\
  _processRequest ws_server ws_connection = ([EvWebSocket], Val tt) /\
  socket_closes (fst (_processRequest ws_server ws_connection)) = 0%nat.
Proof. vm_compute. repeat split. Qed.

(** C7 (amended).  Every run of [_processRequest] returns normally and
    calls [self._socket.close()] at most once.  On every path but an
    accepted websocket upgrade (a served request, a request line or header
    that does not parse, a handler that raises, an upgrade that is refused
    or whose constructor raises) it calls it exactly once, provided the
    socket is its own file object, as on MicroPython, or closing the socket
    file does not raise.  On an accepted websocket upgrade it returns
    without closing. *)
Theorem processRequest_closes_once `{Interpreter} srv c :
  exists t, _processRequest srv c = (t, Val tt) /\
            (socket_closes t <= 1)%nat /\
            (websocket_accepted srv c = true -> socket_closes t = 0%nat) /\
            (websocket_accepted srv c = false ->
             socket_is_file c = true \/ close_file_raises c = None ->
             socket_closes t = 1%nat).
Proof.
  unfold _processRequest.
  destruct (dispatch_shape srv c) as (t & o & -> & Ht & Hret).
  destruct (close_connection_shape c) as (tc & oc & -> & Hoc & Hle & Hone).
  destruct o as [[]|e|]; cbn.
  - (* the first block ended normally *)
    assert (Hws : websocket_accepted srv c = false).
    { destruct (websocket_accepted srv c); [|done].
      destruct Hret as [_ Hr]. by specialize (Hr eq_refl). }
    destruct oc as [[]|ec|]; [| |done]; cbn;
      eexists; (split; [reflexivity|]);
      rewrite !socket_closes_app, ?Ht; cbn; rewrite ?Nat.add_0_r;
      (split; [lia|]); (split; [by rewrite Hws|]); intros _; apply Hone.
  - (* it raised: the 500 response, then the close *)
    assert (Hws : websocket_accepted srv c = false).
    { destruct (websocket_accepted srv c); [|done].
      destruct Hret as [_ Hr]. by specialize (Hr eq_refl). }
    destruct oc as [[]|ec|]; [| |done]; cbn;
      eexists; (split; [reflexivity|]);
      rewrite !socket_closes_app, ?Ht; cbn; rewrite ?Nat.add_0_r;
      (split; [lia|]); (split; [by rewrite Hws|]); intros _; apply Hone.
  - (* return: the close is skipped *)
    assert (Hws : websocket_accepted srv c = true) by by apply Hret.
    eexists. split; [reflexivity|]. rewrite Ht.
    split; [lia|]. split; [done|]. by rewrite Hws.
Qed.


Lemma processRequest_closes_once_witness :
  (exists t, _processRequest status_server status_connection = (t, Val tt) /\
             socket_closes t = 1%nat) /\
  (exists t, _processRequest ws_server ws_connection = (t, Val tt) /\
             socket_closes t = 0%nat).
Proof.
  split.
  - destruct (processRequest_closes_once status_server status_connection)
      as (t & Heq & _ & _ & Hone).
    exists t. split; [exact Heq|]. apply Hone; [reflexivity|left; reflexivity].
  - destruct (processRequest_closes_once ws_server ws_connection)
      as (t & Heq & _ & Hzero & _).
    exists t. split; [exact Heq|]. apply Hzero. reflexivity.
Defined.

Example processRequest_status_trace :
  _processRequest status_server status_connection
    = ([EvStatus 200; EvPrint; EvStatus 500; EvCloseSocket], Val tt).
Proof. vm_compute. reflexivity. Qed.

(** ** The accept loop *)

Lemma serverProcess_accepted `{Interpreter} srv c accepts :
  _serverProcess srv (Accepted c :: accepts) =
    (fst (_processRequest srv c) ++ fst (_serverProcess srv accepts),
     snd (_serverProcess srv accepts)).
Proof.
  cbn [_serverProcess].
  pose proof (processRequest_returns srv c) as Hret.
  destruct (_processRequest srv c) as [t o]. cbn in Hret. subst o.
  cbn. by destruct (_serverProcess srv accepts).
Qed.

Lemma serverProcess_returns `{Interpreter} srv accepts :
  Forall (fun a => accept_recovered a = true) accepts ->
  snd (_serverProcess srv accepts) = Val tt.
Proof.
  induction 1 as [|[c|ex args0] accepts Ha _ IH]; [done| |].
  - by rewrite serverProcess_accepted.
  - cbn [_serverProcess]. cbn [accept_recovered] in Ha. rewrite Ha.
    by destruct (is_113 args0).
Qed.

(** C9. When the route found for a request has a handler that raises, the
    run of [_processRequest] writes what the handler wrote, then the 500
    response, then closes, and returns normally: the exception does not
    leave it.  The accept loop goes on with the accepts that follow as if
    the connection had been served: it ends as the loop over these accepts
    alone ends, which is without an exception unless one of them raises an
    exception that is no [Exception] (a KeyboardInterrupt, say), the only
    kind the [except Exception] around [accept] lets through. *)
Theorem handler_exception_becomes_500 `{Interpreter}
    srv c meth resPath headers routeHandler routeArgs codes e accepts :
  first_line c = Some (meth, resPath) ->
  header_lines c = HeadersRead headers ->
  not_upg (_getConnUpgrade headers) = true ->
  GetRouteHandler (_routeHandlers srv) resPath meth = (Some routeHandler, routeArgs) ->
  routeHandler (mkClient meth resPath headers) routeArgs = (codes, Some e) ->
  _processRequest srv c =
    ((EvStatus <$> codes) ++ (if is_Exception e then [EvPrint] else [])
       ++ EvStatus 500 :: fst (close_connection c),
     Val tt) /\
  _serverProcess srv (Accepted c :: accepts) =
    (fst (_processRequest srv c) ++ fst (_serverProcess srv accepts),
     snd (_serverProcess srv accepts)) /\
  (Forall (fun a => accept_recovered a = true) accepts ->
   _serverProcess srv (Accepted c :: accepts) =
     (fst (_processRequest srv c) ++ fst (_serverProcess srv accepts), Val tt)).
Proof.
  intros Hline Hhdr Hupg Hroute Hraise. split; [|split].
  - unfold _processRequest, dispatch.
    rewrite Hline, Hhdr, Hupg, Hroute. unfold call_handler. rewrite Hraise.
    destruct (close_connection_shape c) as (tc & oc & -> & Hoc & _).
    destruct (is_Exception e) eqn:He; cbn; rewrite ?He; cbn.
    all: destruct oc as [[]|ec|]; try done; cbn.
    all: by rewrite ?app_nil_r, <- ?app_assoc.
  - apply serverProcess_accepted.
  - intros Hrec. rewrite serverProcess_accepted. f_equal.
    by apply serverProcess_returns.
Qed.

Lemma handler_exception_becomes_500_witness :
  _processRequest status_server status_connection =
    ((EvStatus <$> [200]) ++ [EvPrint] ++ EvStatus 500 :: fst (close_connection status_connection),
     Val tt) /\
  _serverProcess status_server [Accepted status_connection; Accepted status_connection] =
    (fst (_processRequest status_server status_connection)
       ++ fst (_serverProcess status_server [Accepted status_connection]), Val tt).
Proof.
  destruct (handler_exception_becomes_500 status_server status_connection
              "GET" "/status" ∅ failing_handler None [200] (OtherExn "division by zero")
              [Accepted status_connection]) as (Hrun & _ & Hloop); try reflexivity.
  split; [exact Hrun|]. apply Hloop. repeat constructor.
Defined.

(** ** Route patterns *)

Lemma string_app_assoc (a b c : string) : (a +:+ b) +:+ c = a +:+ b +:+ c.
Proof. induction a as [|x a IH]; [done|]. change (String x ((a +:+ b) +:+ c) = String x (a +:+ b +:+ c)). by rewrite IH. Qed.

Lemma string_app_cons c (a b : string) : String c a +:+ b = String c (a +:+ b).
Proof. reflexivity. Qed.

Lemma string_app_nil_l (a : string) : "" +:+ a = a.
Proof. reflexivity. Qed.

Lemma string_app_nil_r (a : string) : a +:+ "" = a.
Proof. induction a as [|x a IH]; [done|]. change (String x (a +:+ "") = String x a). by rewrite IH. Qed.

Lemma is_capture_nonempty p : is_capture p = true -> p <> "".
Proof. intros H ->. discriminate H. Qed.

Lemma route_part_empty (acc : list string * string) :
  route_part acc "" = acc.
Proof. by destruct acc. Qed.

Lemma fold_route_part_segments (l : list string) acc :
  fold_left route_part l acc =
  fold_left route_part (List.filter (fun s => negb (String.eqb s "")) l) acc.
Proof.
  revert acc. induction l as [|p l IH]; intros acc; cbn [fold_left List.filter]; [done|].
  destruct (String.eqb_spec p "") as [->|Hne]; cbn [negb fold_left].
  - by rewrite route_part_empty.
  - apply IH.
Qed.

Lemma fold_route_part_pieces (l : list string) names regex :
  Forall (fun p => p <> "") l ->
  fold_left route_part l (names, regex) =
    (names ++ capture_names l, regex +:+ pieces_regex l).
Proof.
  intros Hl. revert names regex.
  induction Hl as [|p l Hp _ IH]; intros names regex; cbn [fold_left].
  - unfold capture_names. cbn. by rewrite app_nil_r, string_app_nil_r.
  - unfold route_part at 2. fold (is_capture p).
    cbn [pieces_regex]. unfold piece_regex, capture_names. cbn [List.filter].
    destruct (is_capture p).
    + rewrite IH. cbn [fmap list_fmap]. by rewrite <- app_assoc, string_app_assoc.
    + destruct (String.eqb_spec p "") as [->|_]; [done|]. cbn [negb].
      rewrite IH. by rewrite !string_app_assoc.
Qed.

Lemma route_regex_pieces rt :
  route_regex rt =
    (capture_names (pattern_segments rt), pieces_regex (pattern_segments rt) +:+ "$").
Proof.
  unfold route_regex. rewrite fold_route_part_segments. fold (pattern_segments rt).
  rewrite fold_route_part_pieces; [done|].
  unfold pattern_segments. apply Forall_forall. intros p Hin.
  apply list_elem_of_In, List.filter_In in Hin as [_ Hne].
  intros ->. discriminate Hne.
Qed.

Lemma parse_chr c s :
  Re.special c = false ->
  Re.parse 0 (String c s) = cons (Re.Chr c) <$> Re.parse 0 s.
Proof.
  intros Hc. cbn [Re.parse]. rewrite Hc.
  assert (Hparen : Ascii.eqb "(" c = false).
  { destruct (Ascii.eqb_spec "(" c) as [<-|]; [discriminate Hc|done]. }
  assert (Hdollar : Ascii.eqb c "$" = false).
  { destruct (Ascii.eqb_spec c "$") as [->|]; [discriminate Hc|done]. }
  cbn [PyStr.startswith]. by rewrite Hparen, Hdollar.
Qed.

Lemma parse_plain p s :
  plain p = true ->
  Re.parse 0 (p +:+ s) = app (Re.Chr <$> list_ascii_of_string p) <$> Re.parse 0 s.
Proof.
  unfold plain. induction p as [|c p IH]; cbn [all_chars]; intros Hp.
  - change ("" +:+ s) with s. by destruct (Re.parse 0 s).
  - apply andb_prop in Hp as [Hc Hp]. apply negb_true_iff in Hc.
    change (String c p +:+ s) with (String c (p +:+ s)).
    rewrite parse_chr, IH by done. by destruct (Re.parse 0 s).
Qed.

Lemma parse_group s :
  Re.parse 0 ("(\w*)" +:+ s) = cons Re.Words <$> Re.parse 0 s.
Proof. reflexivity. Qed.

Lemma parse_pieces l :
  Forall (fun p => is_capture p = false -> plain p = true) l ->
  Re.parse 0 (pieces_regex l +:+ "$") = Some (concat (piece_atoms <$> l) ++ [Re.Eos]).
Proof.
  induction 1 as [|p l Hp _ IH]; [done|].
  cbn [pieces_regex fmap list_fmap concat]. fold (piece_atoms <$> l).
  rewrite string_app_assoc. unfold piece_regex, piece_atoms.
  destruct (is_capture p).
  - change ("/(\w*)" +:+ pieces_regex l +:+ "$")
      with (String "/" ("(\w*)" +:+ pieces_regex l +:+ "$")).
    rewrite parse_chr by done. rewrite parse_group, IH. reflexivity.
  - change (("/" +:+ p) +:+ pieces_regex l +:+ "$")
      with (String "/" (p +:+ pieces_regex l +:+ "$")).
    rewrite parse_chr by done. rewrite parse_plain, IH by auto.
    cbn. by rewrite <- app_assoc.
Qed.

(** *** Matching *)

Lemma take_drop_word `{Interpreter} s : take_word s +:+ drop_word s = s.
Proof.
  induction s as [|c s IH]; [done|]. simpl.
  destruct (Re.is_word c); [|done]. by rewrite string_app_cons, IH.
Qed.

Lemma take_word_all `{Interpreter} s : all_chars Re.is_word (take_word s) = true.
Proof.
  induction s as [|c s IH]; [done|]. simpl.
  destruct (Re.is_word c) eqn:Hc; [|done]. simpl. by rewrite Hc.
Qed.

Lemma take_word_app `{Interpreter} seg s :
  all_chars Re.is_word seg = true -> stops_word s ->
  take_word (seg +:+ s) = seg /\ drop_word (seg +:+ s) = s.
Proof.
  intros Hseg Hs. induction seg as [|c seg IH].
  - rewrite string_app_nil_l. destruct s as [|c s]; [done|].
    simpl in Hs |- *. by rewrite Hs.
  - simpl in Hseg. apply andb_prop in Hseg as [Hc Hseg].
    destruct (IH Hseg) as [IH1 IH2]. rewrite string_app_cons. simpl.
    rewrite Hc. by rewrite IH1, IH2.
Qed.

(** The greedy loop, when what follows never starts with a word
    character: the group takes the longest run. *)
Lemma words_greedy `{Interpreter} (k : string -> option (list string)) acc s :
  (forall c s', Re.is_word c = true -> k (String c s') = None) ->
  Re.words k acc s = cons (acc +:+ take_word s) <$> k (drop_word s).
Proof.
  intros Hk. revert acc. induction s as [|c s IH]; intros acc.
  - simpl. by rewrite string_app_nil_r.
  - simpl. destruct (Re.is_word c) eqn:Hc.
    + rewrite IH, string_app_assoc, string_app_cons, string_app_nil_l.
      destruct (k (drop_word s)); [done|]. simpl. by rewrite Hk.
    + by rewrite string_app_nil_r.
Qed.


Lemma exec_slash `{Interpreter} r s g :
  Re.exec (Re.Chr "/" :: r) s = Some g <->
  exists s', s = String "/" s' /\ Re.exec r s' = Some g.
Proof.
  cbn [Re.exec]. destruct s as [|d s]; [split; [done|by intros (? & ? & _)]|].
  destruct (Ascii.eqb_spec "/" d) as [<-|Hne]; split.
  - eauto.
  - by intros (s' & [= <-] & ?).
  - done.
  - intros (s' & [= ? <-] & _). done.
Qed.

Lemma exec_chars `{Interpreter} p r s g :
  Re.exec ((Re.Chr <$> list_ascii_of_string p) ++ r) s = Some g <->
  exists s', s = p +:+ s' /\ Re.exec r s' = Some g.
Proof.
  revert s. induction p as [|c p IH]; intros s.
  - simpl. split; [eauto|]. by intros (s' & -> & ?).
  - change (Re.Chr <$> list_ascii_of_string (String c p))
      with (Re.Chr c :: (Re.Chr <$> list_ascii_of_string p)).
    cbn [Re.exec app]. destruct s as [|d s]; [split; [done|by intros (? & ? & _)]|].
    destruct (Ascii.eqb_spec c d) as [<-|Hne].
    + rewrite IH. split.
      * intros (s' & -> & ?). eauto.
      * intros (s' & [= ->] & ?). eauto.
    + split; [done|]. intros (s' & [= ? _] & _). done.
Qed.

Lemma is_word_not_slash `{Interpreter} c : Re.is_word c = true -> Ascii.eqb "/" c = false.
Proof.
  intros Hc. destruct (Ascii.eqb_spec "/" c) as [<-|]; [|done].
  cbv in Hc. discriminate.
Qed.

Lemma is_word_not_newline `{Interpreter} c : Re.is_word c = true -> Ascii.eqb c "010" = false.
Proof.
  intros Hc. destruct (Ascii.eqb_spec c "010") as [->|]; [|done].
  cbv in Hc. discriminate.
Qed.

Lemma spells_nil `{Interpreter} path : spells path [] <-> Re.at_end path = true.
Proof.
  unfold spells, Re.at_end. cbn [join_path]. rewrite string_app_nil_l. split.
  - intros [->|[-> ->]]; reflexivity.
  - destruct path as [|c s]; [by left|].
    intros [[Hd Hc%Ascii.eqb_eq]%andb_prop Hs%String.eqb_eq]%andb_prop. subst.
    by right.
Qed.

Lemma spells_cons `{Interpreter} path seg segs :
  spells path (seg :: segs) <->
  exists rest, path = "/" +:+ seg +:+ rest /\ spells rest segs.
Proof.
  unfold spells. cbn [join_path]. split.
  - intros [->|[Hd ->]].
    + exists (join_path segs). split; [done|by left].
    + exists (join_path segs +:+ newline). split; [|by right].
      by rewrite !string_app_assoc.
  - intros (rest & -> & [->|[Hd ->]]); [by left|right].
    split; [done|]. by rewrite !string_app_assoc.
Qed.

Lemma spells_stops_word `{Interpreter} rest segs : spells rest segs -> stops_word rest.
Proof.
  intros [->|[_ ->]]; destruct segs; done.
Qed.

Lemma pieces_stop_word `{Interpreter} l c s :
  Re.is_word c = true ->
  Re.exec (concat (piece_atoms <$> l) ++ [Re.Eos]) (String c s) = None.
Proof.
  intros Hc. destruct l as [|p l].
  - cbn [fmap list_fmap concat app Re.exec Re.at_end].
    by rewrite (is_word_not_newline c Hc), andb_false_r.
  - cbn [fmap list_fmap concat]. unfold piece_atoms at 1.
    destruct (is_capture p); cbn [Re.exec app]; by rewrite (is_word_not_slash c Hc).
Qed.

(** The compiled pieces match a text exactly when the text names one
    accepted segment per piece; the groups are the segments at the
    captures. *)
Lemma exec_pieces `{Interpreter} l path g :
  Re.exec (concat (piece_atoms <$> l) ++ [Re.Eos]) path = Some g <->
  exists segs, spells path segs /\
               Forall2 (fun p seg => segment_accepts p seg = true) l segs /\
               g = captured l segs.
Proof.
  revert path g. induction l as [|p l IH]; intros path g.
  - cbn [fmap list_fmap concat app Re.exec]. split.
    + destruct (Re.at_end path) eqn:Hend; [|done]. intros [= <-].
      exists []. split; [by apply spells_nil|]. by split.
    + intros (segs & Hsp & ->%Forall2_nil_inv_l & ->).
      apply spells_nil in Hsp. by rewrite Hsp.
  - cbn [fmap list_fmap concat]. fold (piece_atoms <$> l).
    rewrite <- app_assoc. unfold piece_atoms at 1, segment_accepts.
    destruct (is_capture p) eqn:Hcap.
    + change ([Re.Chr "/"; Re.Words] ++ concat (piece_atoms <$> l) ++ [Re.Eos])
        with (Re.Chr "/" :: Re.Words :: concat (piece_atoms <$> l) ++ [Re.Eos]).
      rewrite exec_slash. split.
      * intros (s' & -> & Hw). cbn [Re.exec] in Hw.
        rewrite words_greedy in Hw by (intros; by apply pieces_stop_word).
        rewrite string_app_nil_l in Hw.
        destruct (Re.exec _ (drop_word s')) as [g'|] eqn:Hrest; [|done].
        injection Hw as <-.
        apply IH in Hrest as (segs & Hdrop & Hall & ->).
        exists (take_word s' :: segs). split; [|split].
        -- apply spells_cons. exists (drop_word s'). split; [|done].
           by rewrite string_app_cons, string_app_nil_l, take_drop_word.
        -- constructor; [|done]. rewrite Hcap. apply take_word_all.
        -- cbn [captured]. by rewrite Hcap.
      * intros (segs & Hsp & Hall & ->).
        apply Forall2_cons_inv_l in Hall as (seg & segs' & Hseg & Hall & ->).
        rewrite Hcap in Hseg.
        apply spells_cons in Hsp as (rest & -> & Hrest).
        exists (seg +:+ rest). split; [done|]. cbn [Re.exec].
        rewrite words_greedy by (intros; by apply pieces_stop_word).
        destruct (take_word_app seg rest Hseg (spells_stops_word rest segs' Hrest))
          as [-> ->].
        rewrite string_app_nil_l. cbn [captured]. rewrite Hcap.
        assert (Hex : Re.exec (concat (piece_atoms <$> l) ++ [Re.Eos]) rest
                      = Some (captured l segs')) by (apply IH; eauto).
        by rewrite Hex.
    + change ((Re.Chr "/" :: (Re.Chr <$> list_ascii_of_string p))
                ++ concat (piece_atoms <$> l) ++ [Re.Eos])
        with (Re.Chr "/" :: ((Re.Chr <$> list_ascii_of_string p)
                ++ concat (piece_atoms <$> l) ++ [Re.Eos])).
      rewrite exec_slash. setoid_rewrite exec_chars. split.
      * intros (s' & -> & s'' & -> & Hrest).
        apply IH in Hrest as (segs & Hsp & Hall & ->).
        exists (p :: segs). split; [|split].
        -- apply spells_cons. eauto.
        -- constructor; [|done]. rewrite Hcap. apply String.eqb_refl.
        -- cbn [captured]. by rewrite Hcap.
      * intros (segs & Hsp & Hall & ->).
        apply Forall2_cons_inv_l in Hall as (seg & segs' & Hseg & Hall & ->).
        rewrite Hcap in Hseg. apply String.eqb_eq in Hseg as <-.
        apply spells_cons in Hsp as (rest & -> & Hrest).
        exists (p +:+ rest). split; [done|].
        exists rest. split; [done|].
        cbn [captured]. rewrite Hcap. apply IH. eauto.
Qed.

(** *** Route arguments *)

Lemma route_args_other `{Interpreter} names groups (args : gmap string RouteArg) name :
  name ∉ names -> route_args names groups args !! name = args !! name.
Proof.
  revert groups args. induction names as [|n names IH]; intros groups args Hnot; [done|].
  apply not_elem_of_cons in Hnot as [Hne Hnot]. cbn [route_args].
  rewrite IH by done. by rewrite lookup_insert_ne.
Qed.

Lemma route_args_lookup `{Interpreter} names groups (args : gmap string RouteArg) i name :
  NoDup names -> names !! i = Some name ->
  route_args names groups args !! name = Some (coerce (default "" (groups !! i))).
Proof.
  revert groups args i. induction names as [|n names IH]; intros groups args i Hnd Hi;
    [done|].
  apply NoDup_cons in Hnd as [Hnot Hnd]. cbn [route_args]. destruct i as [|i].
  - injection Hi as ->. rewrite route_args_other by done.
    rewrite lookup_insert_eq. by destruct groups.
  - rewrite (IH _ _ i) by done. by destruct groups.
Qed.

(** *** [int] on the text of a group *)

Lemma uint_all_digits d : all_chars is_digit (NilEmpty.string_of_uint d) = true.
Proof. induction d; cbn [NilEmpty.string_of_uint all_chars]; [done|..]; by rewrite IHd. Qed.

Lemma decimal_uint acc d : decimal acc (NilEmpty.string_of_uint d) = horner acc d.
Proof.
  revert acc. induction d; intros acc; cbn [NilEmpty.string_of_uint decimal horner];
    [done|..]; apply IHd.
Qed.

Lemma py_int_uint `{Interpreter} d :
  d <> Decimal.Nil ->
  within_int_limit (String.length (NilEmpty.string_of_uint d)) = true ->
  py_int (NilEmpty.string_of_uint d) = Some (horner 0 d).
Proof.
  intros Hd Hlim. unfold py_int. rewrite uint_all_digits, Hlim, decimal_uint.
  by destruct d.
Qed.

Lemma horner_of_uint_acc d p :
  Z.pos (Pos.of_uint_acc d p) = horner (Z.pos p) d.
Proof.
  revert p. induction d; intros p; cbn [Pos.of_uint_acc horner]; [done|..];
    rewrite IHd; f_equal; lia.
Qed.

Lemma horner_of_uint d : Z.of_N (Pos.of_uint d) = horner 0 d.
Proof.
  induction d; cbn [Pos.of_uint horner]; [done|exact IHd|..];
    cbn [Z.of_N]; by rewrite horner_of_uint_acc.
Qed.

Lemma all_chars_In P s c :
  all_chars P s = true -> In c (list_ascii_of_string s) -> P c = true.
Proof.
  induction s as [|x s IH]; [done|]. cbn [all_chars list_ascii_of_string In].
  intros [Hx Hs]%andb_prop [<-|Hin]; [done|by apply IH].
Qed.

Lemma letter_is_no_digit c : is_letter c = true -> is_digit c = false.
Proof. by destruct c as [[] [] [] [] [] [] [] []]. Qed.

(** A text with an ASCII letter is no number for [int]. *)
Lemma py_int_letter `{Interpreter} s c :
  In c (list_ascii_of_string s) -> is_letter c = true -> py_int s = None.
Proof.
  intros Hin Hc. unfold py_int.
  destruct (String.eqb s ""); [done|].
  destruct (all_chars is_digit s) eqn:Hdig.
  - pose proof (all_chars_In _ _ _ Hdig Hin) as Hd.
    by rewrite (letter_is_no_digit c Hc) in Hd.
  - destruct (all_chars (fun c => negb (is_letter c)) s) eqn:Hlet; [|done].
    pose proof (all_chars_In _ _ _ Hlet Hin) as Hn. cbn in Hn.
    by rewrite Hc in Hn.
Qed.

Lemma word_has_no_slash `{Interpreter} seg :
  all_chars Re.is_word seg = true -> PyStr.contains "/" seg = false.
Proof.
  induction seg as [|c seg IH]; [done|]. cbn [all_chars PyStr.contains PyStr.startswith].
  intros [Hc Hseg]%andb_prop. rewrite IH by done.
  by rewrite (is_word_not_slash c Hc).
Qed.

(** C8, as stated, fails: the segment [a.txt] contains no slash, yet the
    capture does not accept it, and the request finds no route; the
    segment [a_txt] is accepted. *)
Lemma capture_rejects_segment_without_slash :
  let rhs := default [] (build_routes [("/files/<name>", "GET", 1%nat)]) in
  length rhs = 1%nat /\
  PyStr.contains "/" "a.txt" = false /\
  GetRouteHandler rhs "/files/a.txt" "GET" = (None, None) /\
  GetRouteHandler rhs "/files/a_txt" "GET" = (Some 1%nat, Some {["name" := ArgStr "a_txt"]}).
Proof. vm_compute. repeat split. Qed.

(** C8 (amended).  For a route whose literal pieces hold no operator
    character of [re], on every interpreter.  [GetRouteHandler] first
    drops one trailing slash of the request path.  The route is then found
    exactly when the method agrees and what is left of the path is made of
    one segment, each after a slash, per non-empty piece of the route,
    such that a piece of the form <name> stands against a run, possibly
    empty, of word characters, and every other piece against the identical
    text; an interpreter whose [$] matches before a final newline, as
    CPython's does, also takes such a path with one newline after it.  The
    word characters are the ASCII letters, the digits and the underscore,
    and beyond ASCII what the interpreter counts as such (nothing on
    MicroPython): never a slash, and no character such as [.] or [-]
    either.  The handler gets, under each name, the text of the segment at
    its capture: as an integer when [int] parses it, which it does for
    every run of ASCII digits that is not empty and not longer than the
    interpreter's limit, if it has one (4300 digits on CPython, none on
    MicroPython), and as the string itself otherwise, thus for the empty
    text and for every text with an ASCII letter. *)
Theorem route_pattern_accepts `{Interpreter} {Handler : Type} (rt m : string) (f : Handler) :
  Forall (fun p => is_capture p = false -> plain p = true) (pattern_segments rt) ->
  exists rh,
    route_entry (rt, m, f) = Some rh /\
    routeArgNames rh = capture_names (pattern_segments rt) /\
    (forall resUrl meth segs,
       m = PyStr.upper meth ->
       spells (trim_slash resUrl) segs ->
       Forall2 (fun p seg => segment_accepts p seg = true) (pattern_segments rt) segs ->
       GetRouteHandler [rh] resUrl meth =
         (Some f,
          match routeArgNames rh with
          | [] => None
          | _ :: _ =>
              Some (route_args (routeArgNames rh) (captured (pattern_segments rt) segs) ∅)
          end)) /\
    (forall resUrl meth,
       m <> PyStr.upper meth \/
       (forall segs,
          spells (trim_slash resUrl) segs ->
          ~ Forall2 (fun p seg => segment_accepts p seg = true) (pattern_segments rt) segs) ->
       GetRouteHandler [rh] resUrl meth = (None, None)) /\
    (forall path groups,
       Re.exec (routeRegex rh) path = Some groups <->
       exists segs,
         spells path segs /\
         Forall2 (fun p seg => segment_accepts p seg = true) (pattern_segments rt) segs /\
         groups = captured (pattern_segments rt) segs) /\
    (forall p seg, is_capture p = true ->
       (segment_accepts p seg = true <-> all_chars Re.is_word seg = true)) /\
    (forall p seg, is_capture p = false ->
       (segment_accepts p seg = true <-> seg = p)) /\
    (forall c, Re.is_word c =
       if is_ascii c then Re.ascii_word c else word_beyond_ascii c) /\
    (forall seg, all_chars Re.is_word seg = true -> PyStr.contains "/" seg = false) /\
    (forall groups i name,
       NoDup (routeArgNames rh) -> routeArgNames rh !! i = Some name ->
       route_args (routeArgNames rh) groups ∅ !! name
         = Some (coerce (default "" (groups !! i)))) /\
    (forall d, d <> Decimal.Nil ->
       within_int_limit (String.length (NilEmpty.string_of_uint d)) = true ->
       coerce (NilEmpty.string_of_uint d) = ArgInt (Z.of_N (Pos.of_uint d))) /\
    (forall s c, In c (list_ascii_of_string s) -> is_letter c = true ->
       coerce s = ArgStr s) /\
    coerce "" = ArgStr "".
Proof.
  intros Hplain. unfold route_entry. rewrite route_regex_pieces.
  unfold Re.compile. rewrite parse_pieces by done. cbn [fmap option_fmap option_map].
  eexists. split; [reflexivity|]. cbn [routeArgNames routeRegex].
  split; [reflexivity|].
  split; [|split; [|split; [|split; [|split; [|split; [|split; [|split; [|split; [|split]]]]]]]]].
  - intros resUrl meth segs -> Hsp Hall. unfold GetRouteHandler.
    cbn [route_loop method routeRegex routeArgNames func]. rewrite String.eqb_refl.
    assert (Hex : Re.exec (concat (piece_atoms <$> pattern_segments rt) ++ [Re.Eos])
                    (trim_slash resUrl)
                  = Some (captured (pattern_segments rt) segs))
      by (apply exec_pieces; eauto).
    rewrite Hex. by destruct (capture_names _).
  - intros resUrl meth Hno. unfold GetRouteHandler.
    cbn [route_loop method routeRegex routeArgNames func].
    destruct (String.eqb_spec m (PyStr.upper meth)) as [Hm|Hm]; [|done].
    destruct Hno as [Hno|Hno]; [done|].
    destruct (Re.exec _ _) as [g|] eqn:Hex; [|done].
    apply exec_pieces in Hex as (segs & Hsp & Hall & _). by destruct (Hno segs Hsp).
  - apply exec_pieces.
  - intros p seg Hcap. unfold segment_accepts. by rewrite Hcap.
  - intros p seg Hcap. unfold segment_accepts. rewrite Hcap, String.eqb_eq.
    split; by intros ->.
  - intros c. unfold Re.is_word, Re.ascii_word, is_ascii.
    by destruct c as [[] [] [] [] [] [] [] []].
  - apply word_has_no_slash.
  - intros groups i name. apply route_args_lookup.
  - intros d Hd Hlim. unfold coerce. by rewrite py_int_uint, horner_of_uint.
  - intros s c Hin Hc. unfold coerce. by rewrite (py_int_letter s c).
  - reflexivity.
Qed.

Lemma route_pattern_accepts_witness :
  exists rh : MicroWebSrvRoute nat,
    route_entry ("/files/<name>", "GET", 7%nat) = Some rh /\
    GetRouteHandler [rh] "/files/a/" "get" = (Some 7%nat, Some {["name" := ArgStr "a"]}) /\
    GetRouteHandler [rh] "/files/" "GET" = (None, None) /\
    coerce "42" = ArgInt 42 /\
    @GetRouteHandler nat (CPython MicroPython) [rh] ("/files/a" +:+ newline) "GET"
      = (Some 7%nat, Some {["name" := ArgStr "a"]}).
Proof.
  destruct (route_pattern_accepts "/files/<name>" "GET" 7%nat)
    as (rh & Hentry & Hnames & Hyes & Hno & _ & _ & _ & _ & _ & _ & Hdigits & _).
  { repeat constructor. }
  destruct (route_pattern_accepts (H := CPython MicroPython) "/files/<name>" "GET" 7%nat)
    as (rh' & Hentry' & Hnames' & Hyes' & _).
  { repeat constructor. }
  assert (rh' = rh) as -> by congruence.
  exists rh. split; [exact Hentry|]. split; [|split; [|split]].
  - rewrite (Hyes "/files/a/" "get" ["files"; "a"]);
      [|reflexivity|by left|repeat constructor].
    rewrite Hnames. reflexivity.
  - apply Hno. right. intros segs [Hsp|[Hd _]] Hall; [|discriminate Hd].
    apply Forall2_cons_inv_l in Hall as (s1 & segs1 & Hs1 & Hall & ->).
    apply Forall2_cons_inv_l in Hall as (s2 & segs2 & Hs2 & Hall & ->).
    apply Forall2_nil_inv_l in Hall as ->.
    apply String.eqb_eq in Hs1 as <-. cbv in Hsp. discriminate Hsp.
  - exact (Hdigits (Decimal.D4 (Decimal.D2 Decimal.Nil)) ltac:(discriminate) eq_refl).
  - rewrite (Hyes' ("/files/a" +:+ newline) "GET" ["files"; "a"]);
      [|reflexivity|by right|repeat constructor].
    rewrite Hnames. reflexivity.
Defined.

(** The same path with a newline after it finds no route on MicroPython,
    whose [$] matches at the very end only; a number of 4301 digits stays
    a string on CPython, and a number on MicroPython. *)
Example newline_and_digit_limit :
  let rhs := default [] (build_routes [("/files/<name>", "GET", 1%nat)]) in
  let long := string_of_list_ascii (repeat "1"%char 4301) in
  GetRouteHandler rhs ("/files/a" +:+ newline) "GET" = (None, None) /\
  @coerce (CPython MicroPython) long = ArgStr long /\
  (exists n, @coerce MicroPython long = ArgInt n).
Proof. vm_compute. split; [reflexivity|]. split; [reflexivity|]. eexists. reflexivity. Qed.

(** * Further properties *)

(** ** Task store: deletion, persistence, the limit *)

(** X1. [delete_task] with an index below 0 or at or beyond the length
    returns False and changes neither the task manager nor any file; with
    an index inside the list it returns True, the list is the old one
    without that position (the tasks before it keep their place, the ones
    after it move down by one), and a write that completes stores the
    shortened list. *)
Theorem delete_task_bounds io index tm d :
  (index < 0 \/ Z.of_nat (length (tasks tm)) <= index ->
     delete_task io index tm d = (false, tm, d)) /\
  (0 <= index < Z.of_nat (length (tasks tm)) ->
     exists tm' d',
       delete_task io index tm d = (true, tm', d') /\
       S (length (tasks tm')) = length (tasks tm) /\
       (forall j, (j < Z.to_nat index)%nat -> tasks tm' !! j = tasks tm !! j) /\
       (forall j, (Z.to_nat index <= j)%nat -> tasks tm' !! j = tasks tm !! S j) /\
       filename tm' = filename tm /\ max_tasks tm' = max_tasks tm /\
       (io = Written -> d' = <[filename tm := Json (tasks tm')]> d)).
Proof.
  unfold delete_task. split.
  - intros Hout.
    destruct (Z.leb_spec 0 index); [|done].
    destruct (Z.ltb_spec index (Z.of_nat (length (tasks tm)))); [lia|done].
  - intros [Hlo Hhi].
    destruct (Z.leb_spec 0 index); [|lia].
    destruct (Z.ltb_spec index (Z.of_nat (length (tasks tm)))); [|lia].
    cbn [andb]. eexists _, _. split; [reflexivity|]. cbn [tasks set_tasks filename max_tasks].
    split; [|split; [|split; [|split; [|split]]]]; try done.
    + rewrite length_delete; [lia|]. apply lookup_lt_is_Some. lia.
    + intros j Hj. by apply list_lookup_delete_lt.
    + intros j Hj. by apply list_lookup_delete_ge.
    + by intros ->.
Qed.

Lemma delete_task_bounds_witness :
  let t1 := mkTask "2024-12-25" "14:30" "pump1" 300 in
  let t2 := mkTask "2024-12-26" "09:00" "pump2" 60 in
  let tm := mkTaskManager "tasks.json" 20 [t1; t2] in
  delete_task Written (-1) tm ∅ = (false, tm, ∅) /\
  delete_task Written 2 tm ∅ = (false, tm, ∅) /\
  exists tm', delete_task Written 0 tm ∅ = (true, tm', {["tasks.json" := Json [t2]]}) /\
              tasks tm' = [t2].
Proof.
  intros t1 t2 tm.
  destruct (delete_task_bounds Written (-1) tm ∅) as [Hlow _].
  destruct (delete_task_bounds Written 2 tm ∅) as [Hhigh _].
  destruct (delete_task_bounds Written 0 tm ∅) as [_ Hin].
  split; [apply Hlow; left; lia|]. split; [apply Hhigh; right; simpl; lia|].
  destruct Hin as (tm' & d' & Hdel & _ & _ & _ & _ & _ & Hfile); [simpl; lia|].
  exists tm'. rewrite Hdel. injection Hdel as <- <-. split; reflexivity.
Defined.

Lemma run_op_fields op tm d :
  filename (fst (run_op op (tm, d))) = filename tm /\
  max_tasks (fst (run_op op (tm, d))) = max_tasks tm.
Proof.
  destruct op as [io dt tmv dev dur|io index]; cbn [run_op fst snd].
  - unfold add_task. by destruct (_ >=? _).
  - unfold delete_task. by destruct (_ && _).
Qed.

Lemma run_op_length op tm d :
  Z.of_nat (length (tasks (fst (run_op op (tm, d)))))
    <= Z.max (Z.of_nat (length (tasks tm))) (max_tasks tm).
Proof.
  destruct op as [io dt tmv dev dur|io index]; cbn [run_op fst snd].
  - unfold add_task.
    destruct (Z.geb_spec (Z.of_nat (length (tasks tm))) (max_tasks tm)); cbn; [lia|].
    rewrite length_app. cbn. lia.
  - unfold delete_task. destruct (_ && _); cbn; [|lia].
    pose proof (sublist_length _ _ (sublist_delete (tasks tm) (Z.to_nat index))). lia.
Qed.

(** X2. Whatever calls of [add_task] and [delete_task] follow one
    another, with whatever outcomes of the file writes, the file name and
    the limit stay, and the task list never gets longer than the larger of
    its first length and the limit: a list within the limit stays within
    it. *)
Theorem task_limit_kept ops tm d :
  let tm' := fst (run_ops ops (tm, d)) in
  filename tm' = filename tm /\
  max_tasks tm' = max_tasks tm /\
  Z.of_nat (length (tasks tm')) <= Z.max (Z.of_nat (length (tasks tm))) (max_tasks tm) /\
  (Z.of_nat (length (tasks tm)) <= max_tasks tm ->
   Z.of_nat (length (tasks tm')) <= max_tasks tm').
Proof.
  cbv zeta. unfold run_ops. revert tm d.
  induction ops as [|op ops IH]; intros tm d; cbn [fold_left].
  - cbn. repeat split; lia.
  - destruct (run_op op (tm, d)) as [tm1 d1] eqn:Hop.
    pose proof (run_op_fields op tm d) as [Hf Hm].
    pose proof (run_op_length op tm d) as Hlen.
    rewrite Hop in Hf, Hm, Hlen. cbn [fst] in Hf, Hm, Hlen.
    destruct (IH tm1 d1) as (IHf & IHm & IHlen & _).
    rewrite IHf, IHm, Hf, Hm. rewrite Hm in IHlen.
    repeat split; lia.
Qed.

Lemma task_limit_kept_witness :
  let tm := mkTaskManager "tasks.json" 1 [] in
  let ops := [OpAdd Written "2024-12-25" "14:30" "pump1" 300;
              OpAdd OpenFailed "2024-12-26" "09:00" "pump2" 60;
              OpDelete DumpFailed 5] in
  Z.of_nat (length (tasks (fst (run_ops ops (tm, ∅))))) <= 1.
Proof.
  intros tm ops.
  destruct (task_limit_kept ops tm ∅) as (_ & Hm & _ & Hlen).
  rewrite Hm in Hlen. apply Hlen. simpl. lia.
Defined.

Lemma restart_synced tm d :
  synced tm d -> entry_name (filename tm) = true ->
  TaskManager_init d (filename tm) (max_tasks tm) = tm.
Proof.
  unfold synced, TaskManager_init, _load_tasks, in_listdir. cbn [filename].
  intros Hs ->. rewrite Hs. rewrite bool_decide_eq_true_2 by eauto.
  by destruct tm.
Qed.

Lemma restart_unlisted d fname maxt :
  entry_name fname = false -> tasks (TaskManager_init d fname maxt) = [].
Proof.
  unfold TaskManager_init, _load_tasks, in_listdir. cbn [filename]. by intros ->.
Qed.

Lemma run_op_synced op tm d :
  synced tm d -> op_written op ->
  synced (fst (run_op op (tm, d))) (snd (run_op op (tm, d))).
Proof.
  unfold synced. intros Hs Hw.
  destruct op as [io dt tmv dev dur|io index]; cbn in Hw; subst io;
    cbn [run_op fst snd].
  - unfold add_task. destruct (_ >=? _); cbn; [done|]. apply lookup_insert_eq.
  - unfold delete_task. destruct (_ && _); cbn; [|done]. apply lookup_insert_eq.
Qed.

Lemma run_ops_filename ops tm d :
  filename (fst (run_ops ops (tm, d))) = filename tm.
Proof.
  unfold run_ops. revert tm d.
  induction ops as [|op ops IH]; intros tm d; cbn [fold_left]; [done|].
  pose proof (proj1 (run_op_fields op tm d)) as Hf.
  destruct (run_op op (tm, d)) as [tm1 d1]. cbn [fst] in Hf. by rewrite IH.
Qed.

(** X3. When the storage file holds the task list in memory and every
    write completes, the file still holds the list in memory after any
    sequence of [add_task] and [delete_task] calls, accepted or rejected.
    A task manager created afterwards on the same file, as at a restart,
    loads exactly that list when the file name is the name of an entry of
    the current directory: not empty and without a directory part.  With
    any other file name the restart finds the name missing from
    [os.listdir()] and starts from the empty list, although the file holds
    the tasks. *)
Theorem store_survives_restart ops tm d :
  synced tm d ->
  Forall op_written ops ->
  let tm' := fst (run_ops ops (tm, d)) in
  let d' := snd (run_ops ops (tm, d)) in
  synced tm' d' /\
  (entry_name (filename tm) = true ->
     TaskManager_init d' (filename tm') (max_tasks tm') = tm') /\
  (entry_name (filename tm) = false ->
     tasks (TaskManager_init d' (filename tm') (max_tasks tm')) = []).
Proof.
  intros Hs Hw. cbv zeta.
  assert (Hsync : synced (fst (run_ops ops (tm, d))) (snd (run_ops ops (tm, d)))).
  { unfold run_ops. revert tm d Hs.
    induction Hw as [|op ops Hop _ IH]; intros tm d Hs; cbn [fold_left]; [done|].
    pose proof (run_op_synced op tm d Hs Hop) as Hs1.
    destruct (run_op op (tm, d)) as [tm1 d1]. by apply IH. }
  pose proof (run_ops_filename ops tm d) as Hname.
  split; [exact Hsync|]. split.
  - intros Hentry. apply restart_synced; [done|]. by rewrite Hname.
  - intros Hentry. apply restart_unlisted. by rewrite Hname.
Qed.

Lemma store_survives_restart_witness :
  let t1 := mkTask "2024-12-25" "14:30" "pump1" 300 in
  let t2 := mkTask "2024-12-26" "09:00" "pump2" 60 in
  let tm := TaskManager_init ∅ "tasks.json" 20 in
  let ops := [OpAdd Written "2024-12-25" "14:30" "pump1" 300;
              OpAdd Written "2024-12-26" "09:00" "pump2" 60;
              OpDelete Written 0; OpDelete Written 7] in
  let d0 : Disk := {["tasks.json" := Json []]} in
  let away := mkTaskManager "data/tasks.json" 20 [t2] in
  tasks (TaskManager_init (snd (run_ops ops (tm, d0))) "tasks.json" 20) = [t2] /\
  tasks (TaskManager_init {["data/tasks.json" := Json [t2]]} "data/tasks.json" 20) = [].
Proof.
  intros t1 t2 tm ops d0 away.
  destruct (store_survives_restart ops tm d0) as (_ & Hrestart & _).
  { reflexivity. }
  { repeat constructor. }
  destruct (store_survives_restart [] away {["data/tasks.json" := Json [t2]]})
    as (_ & _ & Hlost).
  { reflexivity. }
  { constructor. }
  split.
  - change (filename (fst (run_ops ops (tm, d0)))) with "tasks.json" in Hrestart.
    change (max_tasks (fst (run_ops ops (tm, d0)))) with 20 in Hrestart.
    rewrite Hrestart; reflexivity.
  - apply Hlost. reflexivity.
Defined.

(** X4. Persistence is best effort.  An [add_task] under the limit whose
    write fails still returns normally with the task in memory; when
    [open] failed the file keeps the list without the new task, so a
    restart forgets that task (it loads the old list when the file name is
    the name of an entry of the current directory, and the empty list
    otherwise), and when the dump failed half way the file does not parse
    any more, so a restart starts from the empty list. *)
Theorem failed_write_not_rolled_back dt tmv dev dur tm d :
  Z.of_nat (length (tasks tm)) < max_tasks tm ->
  synced tm d ->
  (exists tm' d',
     add_task OpenFailed dt tmv dev dur tm d = (inr tt, tm', d') /\
     tasks tm' = tasks tm ++ [mkTask dt tmv dev dur] /\
     d' = d /\
     (entry_name (filename tm) = true ->
        TaskManager_init d' (filename tm') (max_tasks tm') = tm) /\
     (entry_name (filename tm) = false ->
        tasks (TaskManager_init d' (filename tm') (max_tasks tm')) = [])) /\
  (exists tm' d',
     add_task DumpFailed dt tmv dev dur tm d = (inr tt, tm', d') /\
     tasks tm' = tasks tm ++ [mkTask dt tmv dev dur] /\
     tasks (TaskManager_init d' (filename tm') (max_tasks tm')) = []).
Proof.
  intros Hlt Hs. split.
  - rewrite add_task_below_limit by done. eexists _, _. split; [reflexivity|].
    split; [reflexivity|]. cbn [_save_tasks filename max_tasks set_tasks].
    split; [reflexivity|]. split.
    + intros Hentry. by apply restart_synced.
    + intros Hentry. by apply restart_unlisted.
  - rewrite add_task_below_limit by done. eexists _, _. split; [reflexivity|].
    split; [reflexivity|]. cbn [_save_tasks filename max_tasks set_tasks].
    unfold TaskManager_init, _load_tasks. cbn [filename].
    rewrite lookup_insert_eq. by destruct (in_listdir _ _).
Qed.

Lemma failed_write_not_rolled_back_witness :
  let t1 := mkTask "2024-12-25" "14:30" "pump1" 300 in
  let t2 := mkTask "2024-12-26" "09:00" "pump2" 60 in
  let tm := mkTaskManager "tasks.json" 20 [t1] in
  let d : Disk := {["tasks.json" := Json [t1]]} in
  (exists tm' d',
     add_task OpenFailed "2024-12-26" "09:00" "pump2" 60 tm d = (inr tt, tm', d') /\
     tasks tm' = [t1] ++ [t2] /\
     TaskManager_init d' (filename tm') (max_tasks tm') = tm) /\
  (exists tm' d',
     add_task DumpFailed "2024-12-26" "09:00" "pump2" 60 tm d = (inr tt, tm', d') /\
     tasks tm' = [t1] ++ [t2] /\
     tasks (TaskManager_init d' (filename tm') (max_tasks tm')) = []).
Proof.
  intros t1 t2 tm d.
  destruct (failed_write_not_rolled_back "2024-12-26" "09:00" "pump2" 60 tm d)
    as [(tm1 & d1 & Hadd1 & Htasks1 & _ & Hrestart1 & _) Hdump].
  - simpl. lia.
  - reflexivity.
  - split; [|exact Hdump]. exists tm1, d1. split; [exact Hadd1|].
    split; [exact Htasks1|]. apply Hrestart1. reflexivity.
Defined.

(** X5. Adding a task and then deleting the last position undoes the
    addition: the task manager is the one before the two calls, and when
    the second write completes the file holds its list again. *)
Theorem add_then_delete_last io dt tmv dev dur tm d :
  Z.of_nat (length (tasks tm)) < max_tasks tm ->
  exists tm1 d1,
    add_task io dt tmv dev dur tm d = (inr tt, tm1, d1) /\
    delete_task Written (Z.of_nat (length (tasks tm))) tm1 d1
      = (true, tm, <[filename tm := Json (tasks tm)]> d1).
Proof.
  intros Hlt. rewrite add_task_below_limit by done.
  eexists _, _. split; [reflexivity|].
  rewrite (delete_task_middle Written (tasks tm) (mkTask dt tmv dev dur) []) by done.
  rewrite app_nil_r. cbn [_save_tasks]. by destruct tm.
Qed.

Lemma add_then_delete_last_witness :
  let t1 := mkTask "2024-12-25" "14:30" "pump1" 300 in
  let tm := mkTaskManager "tasks.json" 20 [t1] in
  exists tm1 d1,
    add_task Written "2024-12-26" "09:00" "pump2" 60 tm ∅ = (inr tt, tm1, d1) /\
    delete_task Written 1 tm1 d1 = (true, tm, <["tasks.json" := Json [t1]]> d1).
Proof.
  intros t1 tm.
  apply (add_then_delete_last Written "2024-12-26" "09:00" "pump2" 60 tm ∅).
  simpl. lia.
Defined.

(** ** Relays *)

(** X6. [on] and [off] switch one channel and no other: for a channel of
    the controller the pin of that channel gets level 0 (on) or 1 (off)
    and every other pin keeps its level; for a channel below 0 or beyond
    the last one nothing changes.  The number of pins never changes. *)
Theorem relay_switches_one_channel channel relays :
  length (relay_on channel relays) = length relays /\
  length (relay_off channel relays) = length relays /\
  (0 <= channel < Z.of_nat (length relays) ->
     relay_on channel relays !! Z.to_nat channel = Some 0 /\
     relay_off channel relays !! Z.to_nat channel = Some 1) /\
  (forall j, Z.of_nat j <> channel ->
     relay_on channel relays !! j = relays !! j /\
     relay_off channel relays !! j = relays !! j) /\
  (channel < 0 \/ Z.of_nat (length relays) <= channel ->
     relay_on channel relays = relays /\ relay_off channel relays = relays).
Proof.
  unfold relay_on, relay_off.
  destruct (Z.leb_spec 0 channel) as [Hlo|Hlo];
    destruct (Z.ltb_spec channel (Z.of_nat (length relays))) as [Hhi|Hhi]; cbn [andb].
  - rewrite !length_insert. repeat split; try lia.
    + apply list_lookup_insert_eq. lia.
    + apply list_lookup_insert_eq. lia.
    + apply list_lookup_insert_ne. lia.
    + apply list_lookup_insert_ne. lia.
  - repeat split; try done; lia.
  - repeat split; try done; lia.
  - repeat split; try done; lia.
Qed.

Lemma relay_switches_one_channel_witness :
  let relays := RelayController_init HARDWARE_CONFIG_relay_pins in
  relay_on 2 relays !! 2%nat = Some 0 /\
  relay_on 2 relays !! 3%nat = Some 1 /\
  relay_on 4 relays = relays /\
  relay_off (-1) (relay_on 2 relays) = relay_on 2 relays.
Proof.
  intros relays.
  destruct (relay_switches_one_channel 2 relays) as (_ & _ & Hin & Hother & _).
  destruct (relay_switches_one_channel 4 relays) as (_ & _ & _ & _ & Hout).
  destruct (relay_switches_one_channel (-1) (relay_on 2 relays)) as (_ & _ & _ & _ & Hneg).
  split; [apply Hin; simpl; lia|].
  split; [rewrite (proj1 (Hother 3%nat ltac:(lia))); reflexivity|].
  split; [apply Hout; right; simpl; lia|apply Hneg; left; lia].
Defined.

(** ** Shutdown *)

(** X7. After [shutdown], from whatever state the controller reached, no
    timer object is running, [auto_off_timers] is empty and every relay pin
    is at level 1 (off); [device_status] is left as it was, so a device
    that was on is still recorded as on. *)
Theorem shutdown_stops_timers_and_relays d st :
  reachable d st ->
  let st' := shutdown st in
  Forall (fun t => running t = false) (timer_objs st') /\
  auto_off_timers st' = ∅ /\
  (forall dev, live_timers dev st' = []) /\
  Forall (fun level => level = 1) (relay_controller st') /\
  length (relay_controller st') = length (relay_controller st) /\
  device_status st' = device_status st.
Proof.
  intros Hreach st'.
  assert (Hinv : timers_registered st').
  { apply shutdown_registered. by eapply reachable_registered. }
  assert (Hempty : auto_off_timers st' = ∅) by done.
  split; [|split; [done|split; [|split; [|split]]]].
  - apply Forall_forall. intros t Hin.
    apply list_elem_of_lookup in Hin as [h Hl].
    destruct (running t) eqn:Hrun; [|done].
    destruct (Hinv h t Hl Hrun) as (cb & _ & Hreg).
    rewrite Hempty, lookup_empty in Hreg. done.
  - intros dev. apply no_live_timers; [done|]. by rewrite Hempty, lookup_empty.
  - unfold st', shutdown, relay_off_all. cbn.
    apply Forall_fmap, Forall_forall. done.
  - unfold st', shutdown, relay_off_all. cbn. apply length_fmap.
  - done.
Qed.

Lemma shutdown_stops_timers_and_relays_witness :
  let st := check_scheduled_tasks xmas_1430 Written
              (ESP32Controller_init (disk_with [mkTask "2024-12-25" "14:30" "pump1" 300])) in
  let st' := shutdown st in
  Forall (fun t => running t = false) (timer_objs st') /\
  auto_off_timers st' = ∅ /\
  (forall dev, live_timers dev st' = []) /\
  Forall (fun level => level = 1) (relay_controller st') /\
  length (relay_controller st') = length (relay_controller st) /\
  device_status st' = device_status st.
Proof.
  intros st.
  apply (shutdown_stops_timers_and_relays
           (disk_with [mkTask "2024-12-25" "14:30" "pump1" 300]) st).
  unfold st. eapply reach_step; [apply reach_init|apply step_tick].
Defined.

Example shutdown_keeps_status_on :
  let st := check_scheduled_tasks xmas_1430 Written
              (ESP32Controller_init (disk_with [mkTask "2024-12-25" "14:30" "pump1" 300])) in
  device_status (shutdown st) !! "pump1" = Some (PyBool true) /\
  relay_controller st = [0; 1; 1; 1] /\
  relay_controller (shutdown st) = [1; 1; 1; 1].
Proof. vm_compute. repeat split. Qed.

(** ** More on the scheduler tick *)

Lemma first_due_Some cd ct k l i t :
  first_due cd ct k l = Some (i, t) ->
  exists pre post, l = pre ++ t :: post /\ none_due cd ct pre /\
                   task_due cd ct t = true /\ i = (k + length pre)%nat.
Proof.
  revert k. induction l as [|t' l IH]; intros k; cbn [first_due]; [done|].
  destruct (task_due cd ct t') eqn:Hdue.
  - intros [= <- <-]. exists [], l. repeat split; [constructor|done|cbn; lia].
  - intros (pre & post & -> & Hnone & Ht & ->)%IH.
    exists (t' :: pre), post. repeat split; [by constructor|done|cbn; lia].
Qed.

(** A tick either changes nothing or is the firing of the first due task. *)
Lemma tick_cases now io st :
  check_scheduled_tasks now io st = st \/
  exists pre t post,
    tasks (task_manager st) = pre ++ t :: post /\
    none_due (current_date now) (current_time_str now) pre /\
    task_due (current_date now) (current_time_str now) t = true /\
    check_scheduled_tasks now io st =
      with_task_manager
        (set_tasks (pre ++ post) (task_manager st))
        (_save_tasks io (set_tasks (pre ++ post) (task_manager st)) (flash st))
        (execute_device (device t) (duration t) st).
Proof.
  destruct (first_due (current_date now) (current_time_str now) 0
              (tasks (task_manager st))) as [[i t]|] eqn:Hfirst.
  - right. apply first_due_Some in Hfirst as (pre & post & Htasks & Hnone & Hdue & _).
    exists pre, t, post. repeat split; try done. by apply tick_first_due.
  - left. unfold check_scheduled_tasks, get_tasks. by rewrite Hfirst.
Qed.

Lemma switch_on_status name ch dur st dev :
  device_status (switch_on name ch dur st) !! dev = device_status st !! dev \/
  device_status (switch_on name ch dur st) !! dev = Some (PyBool true).
Proof.
  unfold switch_on.
  match goal with
  | |- context [_set_auto_off_timer ?d ?c ?u ?s] =>
      destruct (arm_other_fields d c u s) as (_ & _ & -> & _)
  end.
  cbn. destruct (decide (name = dev)) as [->|Hne].
  - right. apply lookup_insert_eq.
  - left. by apply lookup_insert_ne.
Qed.

Lemma switch_on_relays name ch dur st j :
  relay_controller (switch_on name ch dur st) !! j = relay_controller st !! j \/
  relay_controller (switch_on name ch dur st) !! j = Some 0.
Proof.
  unfold switch_on.
  match goal with
  | |- context [_set_auto_off_timer ?d ?c ?u ?s] =>
      destruct (arm_other_fields d c u s) as (-> & _ & _ & _)
  end.
  cbn. unfold relay_on. destruct (_ && _) eqn:Hin; [|by left].
  destruct (decide (Z.to_nat ch = j)) as [<-|Hne].
  - right. apply list_lookup_insert_eq.
    apply andb_prop in Hin as [Hlo%Z.leb_le Hlt%Z.ltb_lt]. lia.
  - left. by apply list_lookup_insert_ne.
Qed.

(** X8. A tick never adds a task and removes at most one, and the one it
    removes is due: the new task list is the old one with at most one
    position left out, and every task that is not due at this tick is
    still in the list.  A tick never switches anything off: every entry of
    [device_status] is as before or is True, and every relay pin is as
    before or at level 0 (on). *)
Theorem tick_consumes_at_most_one_due_task now io st :
  let st' := check_scheduled_tasks now io st in
  tasks (task_manager st') `sublist_of` tasks (task_manager st) /\
  (length (tasks (task_manager st)) <= S (length (tasks (task_manager st'))))%nat /\
  (forall t, t ∈ tasks (task_manager st) ->
     task_due (current_date now) (current_time_str now) t = false ->
     t ∈ tasks (task_manager st')) /\
  (forall dev,
     device_status st' !! dev = device_status st !! dev \/
     device_status st' !! dev = Some (PyBool true)) /\
  (forall j,
     relay_controller st' !! j = relay_controller st !! j \/
     relay_controller st' !! j = Some 0).
Proof.
  cbv zeta. destruct (tick_cases now io st) as [->|(pre & t & post & Htasks & _ & Hdue & ->)].
  - repeat split; auto.
  - cbn [task_manager with_task_manager tasks set_tasks device_status relay_controller].
    rewrite Htasks. split; [|split; [|split; [|split]]].
    + apply sublist_app; [done|]. by apply sublist_cons.
    + rewrite !length_app. cbn. lia.
    + intros t' Hin Hnot. rewrite elem_of_app, elem_of_cons in Hin.
      rewrite elem_of_app.
      destruct Hin as [?|[->|?]]; [by left|congruence|by right].
    + intros dev. rewrite execute_device_channel.
      destruct (device_channel (device t)); [apply switch_on_status|by left].
    + intros j. rewrite execute_device_channel.
      destruct (device_channel (device t)); [apply switch_on_relays|by left].
Qed.

(** X9. Two tasks due in the same minute collide: the tick fires the first
    and leaves the second in the list, and no later tick at another date
    or minute removes it.  (It can only fire at a tick that sees the same
    date and minute again.) *)
Theorem colliding_task_is_left_behind now io st pre t post t2 now2 io2 :
  tasks (task_manager st) = pre ++ t :: post ->
  none_due (current_date now) (current_time_str now) pre ->
  task_due (current_date now) (current_time_str now) t = true ->
  t2 ∈ post ->
  task_due (current_date now) (current_time_str now) t2 = true ->
  (current_date now2, current_time_str now2) <> (current_date now, current_time_str now) ->
  let st1 := check_scheduled_tasks now io st in
  let st2 := check_scheduled_tasks now2 io2 st1 in
  tasks (task_manager st1) = pre ++ post /\
  t2 ∈ tasks (task_manager st1) /\
  t2 ∈ tasks (task_manager st2).
Proof.
  intros Htasks Hnone Hdue Hin Hdue2 Hlater st1 st2.
  assert (Htasks1 : tasks (task_manager st1) = pre ++ post).
  { unfold st1. by rewrite (tick_first_due now io st pre t post). }
  assert (Hin1 : t2 ∈ tasks (task_manager st1)).
  { rewrite Htasks1, elem_of_app. by right. }
  split; [done|]. split; [done|].
  assert (Hnot : task_due (current_date now2) (current_time_str now2) t2 = false).
  { unfold task_due in Hdue2 |- *.
    apply andb_prop in Hdue2 as [Hd%String.eqb_eq Ht%String.eqb_eq].
    apply andb_false_iff.
    destruct (String.eqb_spec (date t2) (current_date now2)) as [Hd2|]; [|by left].
    destruct (String.eqb_spec (time t2) (current_time_str now2)) as [Ht2|]; [|by right].
    destruct Hlater. congruence. }
  unfold st2. destruct (tick_cases now2 io2 st1)
    as [->|(pre' & t' & post' & Htasks' & _ & Hdue' & ->)]; [done|].
  cbn [task_manager with_task_manager tasks set_tasks].
  rewrite Htasks', elem_of_app, elem_of_cons in Hin1. rewrite elem_of_app.
  destruct Hin1 as [?|[->|?]]; [by left|congruence|by right].
Qed.

Lemma colliding_task_is_left_behind_witness :
  let t := mkTask "2024-12-25" "14:30" "pump1" 300 in
  let t2 := mkTask "2024-12-25" "14:30" "pump2" 60 in
  let st := ESP32Controller_init (disk_with [t; t2]) in
  let st1 := check_scheduled_tasks xmas_1430 Written st in
  let st2 := check_scheduled_tasks (mkLocalTime 2024 12 25 14 31 7) Written st1 in
  tasks (task_manager st1) = [] ++ [t2] /\
  t2 ∈ tasks (task_manager st1) /\
  t2 ∈ tasks (task_manager st2).
Proof.
  intros t t2 st.
  apply (colliding_task_is_left_behind xmas_1430 Written st [] t [t2] t2
           (mkLocalTime 2024 12 25 14 31 7) Written).
  - reflexivity.
  - constructor.
  - reflexivity.
  - apply list_elem_of_singleton. reflexivity.
  - reflexivity.
  - discriminate.
Defined.

(** X10. A scheduled activation followed by the firing of its timer leaves
    the device off: after the tick that fires a task of a known device
    and the firing of the timer this tick armed, the device is False in
    [device_status], its relay pin is what [off] makes it, its entry in
    [auto_off_timers] is gone and no timer runs for it. *)
Theorem scheduled_run_ends_off now io st pre t post ch :
  tasks (task_manager st) = pre ++ t :: post ->
  none_due (current_date now) (current_time_str now) pre ->
  task_due (current_date now) (current_time_str now) t = true ->
  device_channel (device t) = Some ch ->
  timers_registered st ->
  let st1 := check_scheduled_tasks now io st in
  let st2 := Timer_fire (length (timer_objs st)) st1 in
  device_status st1 !! device t = Some (PyBool true) /\
  device_status st2 !! device t = Some (PyBool false) /\
  relay_controller st2 = relay_off ch (relay_on ch (relay_controller st)) /\
  auto_off_timers st2 !! device t = None /\
  live_timers (device t) st2 = [] /\
  task_manager st2 = task_manager st1.
Proof.
  intros Htasks Hnone Hdue Hch Hinv st1 st2.
  assert (Hinv1 : timers_registered st1) by by apply tick_registered.
  set (st0 := with_device_status (<[device t := PyBool true]> (device_status st))
                (with_relays (relay_on ch (relay_controller st)) st)).
  assert (Hst1 : st1 = with_task_manager
      (set_tasks (pre ++ post) (task_manager st))
      (_save_tasks io (set_tasks (pre ++ post) (task_manager st)) (flash st))
      (_set_auto_off_timer (device t) ch (duration t) st0)).
  { unfold st1. rewrite (tick_first_due now io st pre t post) by done.
    by rewrite execute_device_channel, Hch. }
  assert (Hinv0 : timers_registered st0).
  { eapply timers_registered_ext; [| |exact Hinv]; done. }
  destruct (arm_live (device t) ch (duration t) st0 Hinv0) as (_ & _ & Hobj).
  destruct (arm_other_fields (device t) ch (duration t) st0) as (Hr & _ & Hds & _).
  assert (Hobj1 : timer_objs st1 !! length (timer_objs st)
                  = Some (mkTimer true (duration t * 1000) (Some (mkAutoOff (device t) ch)))).
  { rewrite Hst1. exact Hobj. }
  destruct (fire_effect (length (timer_objs st)) _ _ st1 Hinv1 Hobj1 eq_refl eq_refl)
    as (Hoff & Hrelay & Hdel & _ & Hlive).
  cbn [cb_device_name cb_channel] in Hoff, Hrelay, Hdel, Hlive.
  split; [|split; [exact Hoff|split; [|split; [|split; [exact Hlive|]]]]].
  - rewrite Hst1. cbn [device_status with_task_manager].
    rewrite Hds. unfold st0. cbn. apply lookup_insert_eq.
  - unfold st2. rewrite Hrelay, Hst1.
    cbn [relay_controller with_task_manager]. by rewrite Hr.
  - unfold st2. rewrite Hdel. apply lookup_delete_eq.
  - unfold st2, Timer_fire. rewrite Hobj1. cbn [running callback].
    unfold auto_off_callback. cbn. by destruct (auto_off_timers st1 !! device t).
Qed.

Lemma scheduled_run_ends_off_witness :
  let t := mkTask "2024-12-25" "14:30" "pump2" 60 in
  let st := ESP32Controller_init (disk_with [t]) in
  let st1 := check_scheduled_tasks xmas_1430 Written st in
  let st2 := Timer_fire 0 st1 in
  device_status st1 !! "pump2" = Some (PyBool true) /\
  device_status st2 !! "pump2" = Some (PyBool false) /\
  relay_controller st2 = relay_off 1 (relay_on 1 (relay_controller st)) /\
  auto_off_timers st2 !! "pump2" = None /\
  live_timers "pump2" st2 = [] /\
  task_manager st2 = task_manager st1.
Proof.
  intros t st.
  apply (scheduled_run_ends_off xmas_1430 Written st [] t [] 1).
  - reflexivity.
  - constructor.
  - reflexivity.
  - reflexivity.
  - apply init_registered.
Defined.

(** ** The clock strings of a tick *)

(** A check made for every number from [lo] up to [lo + k - 1] holds for
    every integer in that range. *)
Lemma forall_in_range (P : Z -> bool) (lo k : Z) :
  forallb (fun i => P (lo + Z.of_nat i)) (seq 0 (Z.to_nat k)) = true ->
  forall n, lo <= n < lo + k -> P n = true.
Proof.
  intros Hall n Hn. rewrite forallb_forall in Hall.
  specialize (Hall (Z.to_nat (n - lo))).
  replace (lo + Z.of_nat (Z.to_nat (n - lo))) with n in Hall by lia.
  apply Hall, in_seq. lia.
Qed.

Lemma fmt_02d_two n : 0 <= n < 100 -> two_chars (PyStr.fmt_02d n) = true.
Proof.
  intros Hn. apply (forall_in_range (fun n => two_chars (PyStr.fmt_02d n)) 0 100);
    [vm_compute; reflexivity|lia].
Qed.

Lemma fmt_d_four n : 1000 <= n < 10000 -> four_chars (PyStr.fmt_d n) = true.
Proof.
  intros Hn. apply (forall_in_range (fun n => four_chars (PyStr.fmt_d n)) 1000 9000);
    [vm_compute; reflexivity|lia].
Qed.

(** The digits the format wrote denote the number. *)
Lemma fmt_d_uint p :
  exists d, d <> Decimal.Nil /\ PyStr.fmt_d (Z.pos p) = NilEmpty.string_of_uint d /\
            Z.of_N (Pos.of_uint d) = Z.pos p.
Proof.
  exists (Pos.to_uint p).
  pose proof (DecimalPos.Unsigned.to_uint_nonnil p) as Hnil.
  split; [done|]. split.
  - unfold PyStr.fmt_d. cbn [Z.to_int NilZero.string_of_int].
    unfold NilZero.string_of_uint. by destruct (Pos.to_uint p).
  - by rewrite DecimalPos.Unsigned.of_to.
Qed.

Lemma decimal_fmt_d n : 0 <= n -> decimal 0 (PyStr.fmt_d n) = n.
Proof.
  intros Hn. destruct n as [|p|p]; [reflexivity| |lia].
  destruct (fmt_d_uint p) as (d & _ & -> & <-).
  by rewrite decimal_uint, horner_of_uint.
Qed.

Lemma decimal_fmt_02d n : 0 <= n -> decimal 0 (PyStr.fmt_02d n) = n.
Proof.
  intros Hn. unfold PyStr.fmt_02d.
  destruct (Z.leb_spec 0 n); [|lia]. destruct (Z.ltb_spec n 10); cbn [andb].
  - rewrite string_app_cons, string_app_nil_l. cbn [decimal].
    change (0 * 10 + digit_val "0") with 0. by apply decimal_fmt_d.
  - by apply decimal_fmt_d.
Qed.

Lemma fmt_d_inj n m : 0 <= n -> 0 <= m -> PyStr.fmt_d n = PyStr.fmt_d m -> n = m.
Proof.
  intros Hn Hm Heq. pose proof (decimal_fmt_d n Hn) as H1.
  rewrite Heq, decimal_fmt_d in H1 by done. congruence.
Qed.

Lemma fmt_02d_inj n m : 0 <= n -> 0 <= m -> PyStr.fmt_02d n = PyStr.fmt_02d m -> n = m.
Proof.
  intros Hn Hm Heq. pose proof (decimal_fmt_02d n Hn) as H1.
  rewrite Heq, decimal_fmt_02d in H1 by done. congruence.
Qed.

Lemma two_chars_inv s : two_chars s = true -> exists x y, s = String x (String y "").
Proof. destruct s as [|x [|y [|? ?]]]; try done. eauto. Qed.

Lemma four_chars_inv s :
  four_chars s = true ->
  exists a b c e, s = String a (String b (String c (String e ""))).
Proof. destruct s as [|a [|b [|c [|e [|? ?]]]]]; try done. eauto 6. Qed.

(** X11. At a valid clock reading the two strings of a tick have the
    fixed widths 10 ("YYYY-MM-DD") and 5 ("HH:MM"); two readings give the
    same pair of strings exactly when they agree in year, month, day, hour
    and minute, whatever their seconds.  So a stored task whose date or
    time has another width (a month, day or hour written without its
    leading zero, say) is not due at any tick. *)
Theorem tick_compares_at_minute_resolution now now' :
  valid_clock now -> valid_clock now' ->
  String.length (current_date now) = 10%nat /\
  String.length (current_time_str now) = 5%nat /\
  (current_date now = current_date now' /\ current_time_str now = current_time_str now' <->
   tm_year now = tm_year now' /\ tm_mon now = tm_mon now' /\ tm_mday now = tm_mday now' /\
   tm_hour now = tm_hour now' /\ tm_min now = tm_min now') /\
  (forall t, String.length (date t) <> 10%nat \/ String.length (time t) <> 5%nat ->
     task_due (current_date now) (current_time_str now) t = false).
Proof.
  intros (Hy & Hmo & Hd & Hh & Hmi) (Hy' & Hmo' & Hd' & Hh' & Hmi').
  unfold current_date, current_time_str.
  destruct (four_chars_inv _ (fmt_d_four (tm_year now) ltac:(lia))) as (a & b & c & e & Ey).
  destruct (two_chars_inv _ (fmt_02d_two (tm_mon now) ltac:(lia))) as (m1 & m2 & Emo).
  destruct (two_chars_inv _ (fmt_02d_two (tm_mday now) ltac:(lia))) as (d1 & d2 & Ed).
  destruct (two_chars_inv _ (fmt_02d_two (tm_hour now) ltac:(lia))) as (h1 & h2 & Eh).
  destruct (two_chars_inv _ (fmt_02d_two (tm_min now) ltac:(lia))) as (n1 & n2 & Emi).
  destruct (four_chars_inv _ (fmt_d_four (tm_year now') ltac:(lia))) as (a' & b' & c' & e' & Ey').
  destruct (two_chars_inv _ (fmt_02d_two (tm_mon now') ltac:(lia))) as (m1' & m2' & Emo').
  destruct (two_chars_inv _ (fmt_02d_two (tm_mday now') ltac:(lia))) as (d1' & d2' & Ed').
  destruct (two_chars_inv _ (fmt_02d_two (tm_hour now') ltac:(lia))) as (h1' & h2' & Eh').
  destruct (two_chars_inv _ (fmt_02d_two (tm_min now') ltac:(lia))) as (n1' & n2' & Emi').
  assert (Hlen_date : String.length
            (PyStr.fmt_d (tm_year now) +:+ "-" +:+ PyStr.fmt_02d (tm_mon now)
               +:+ "-" +:+ PyStr.fmt_02d (tm_mday now)) = 10%nat).
  { rewrite Ey, Emo, Ed. reflexivity. }
  assert (Hlen_time : String.length
            (PyStr.fmt_02d (tm_hour now) +:+ ":" +:+ PyStr.fmt_02d (tm_min now)) = 5%nat).
  { rewrite Eh, Emi. reflexivity. }
  split; [exact Hlen_date|]. split; [exact Hlen_time|]. split.
  - split.
    + intros [Hdate Htime].
      assert (PyStr.fmt_d (tm_year now) = PyStr.fmt_d (tm_year now') /\
              PyStr.fmt_02d (tm_mon now) = PyStr.fmt_02d (tm_mon now') /\
              PyStr.fmt_02d (tm_mday now) = PyStr.fmt_02d (tm_mday now') /\
              PyStr.fmt_02d (tm_hour now) = PyStr.fmt_02d (tm_hour now') /\
              PyStr.fmt_02d (tm_min now) = PyStr.fmt_02d (tm_min now'))
        as (Fy & Fmo & Fd & Fh & Fmi).
      { rewrite Ey, Emo, Ed, Ey', Emo', Ed' in Hdate.
        rewrite Eh, Emi, Eh', Emi' in Htime.
        rewrite Ey, Emo, Ed, Ey', Emo', Ed', Eh, Emi, Eh', Emi'.
        repeat (rewrite string_app_cons in Hdate || rewrite string_app_nil_l in Hdate).
        repeat (rewrite string_app_cons in Htime || rewrite string_app_nil_l in Htime).
        injection Hdate as -> -> -> -> -> -> -> ->.
        injection Htime as -> -> -> ->. done. }
      split; [apply fmt_d_inj; (lia || done)|].
      repeat split; apply fmt_02d_inj; (lia || done).
    + intros (-> & -> & -> & -> & ->). done.
  - intros t Hwidth. unfold task_due. apply andb_false_iff.
    destruct Hwidth as [Hw|Hw]; [left|right]; apply String.eqb_neq; intros Heq;
      apply Hw; rewrite Heq; done.
Qed.

Lemma tick_compares_at_minute_resolution_witness :
  let later := mkLocalTime 2024 12 25 14 30 59 in
  String.length (current_date xmas_1430) = 10%nat /\
  String.length (current_time_str xmas_1430) = 5%nat /\
  (current_date xmas_1430 = current_date later /\
   current_time_str xmas_1430 = current_time_str later) /\
  task_due (current_date xmas_1430) (current_time_str xmas_1430)
           (mkTask "2024-12-25" "14:3" "pump1" 300) = false.
Proof.
  intros later.
  destruct (tick_compares_at_minute_resolution xmas_1430 later)
    as (Hd & Ht & Hsame & Hwidth).
  - unfold valid_clock. simpl. lia.
  - unfold valid_clock. simpl. lia.
  - split; [exact Hd|]. split; [exact Ht|]. split.
    + apply Hsame. repeat split.
    + apply Hwidth. right. simpl. lia.
Defined.

(** ** HTML escaping *)

Lemma list_ascii_app (a b : string) :
  list_ascii_of_string (a +:+ b) = list_ascii_of_string a ++ list_ascii_of_string b.
Proof.
  induction a as [|c a IH]; [done|].
  rewrite string_app_cons. cbn [list_ascii_of_string app]. by rewrite IH.
Qed.

Lemma escape_char_plain c :
  html_special c = false -> escape_char c = String c "".
Proof.
  unfold html_special, escape_char, _html_escape_chars. cbn [existsb List.find].
  intros H. repeat (apply orb_false_elim in H as [-> H]). done.
Qed.

Lemma escape_char_safe c x :
  In x (list_ascii_of_string (escape_char c)) ->
  x <> "<"%char /\ x <> ">"%char /\ x <> dquote /\ x <> "'"%char.
Proof.
  destruct (html_special c) eqn:Hc.
  - unfold html_special, escape_char, _html_escape_chars in *.
    cbn [existsb List.find] in *.
    repeat match goal with
    | |- context [Ascii.eqb ?k c] => destruct (Ascii.eqb k c)
    end; try discriminate Hc; cbn [list_ascii_of_string In];
      intros Hin; repeat (destruct Hin as [<-|Hin]; [by repeat split|]); done.
  - rewrite escape_char_plain by done. cbn. intros [<-|[]].
    unfold html_special, _html_escape_chars in Hc. cbn [existsb] in Hc.
    repeat (apply orb_false_elim in Hc as [? Hc]).
    repeat split; intros ->; done.
Qed.

(** X12. The text [HTMLEscape] returns contains none of the characters
    [<], [>], the double quote and the apostrophe, whatever text it is
    given; a text without these four and without [&] is returned as it
    is. *)
Theorem HTMLEscape_removes_markup s :
  (forall x, In x (list_ascii_of_string (HTMLEscape s)) ->
     x <> "<"%char /\ x <> ">"%char /\ x <> dquote /\ x <> "'"%char) /\
  (all_chars (fun c => negb (html_special c)) s = true -> HTMLEscape s = s).
Proof.
  split.
  - induction s as [|c s IH]; [done|]. cbn [HTMLEscape]. intros x.
    rewrite list_ascii_app, in_app_iff. intros [Hin|Hin]; [|by apply IH].
    by apply (escape_char_safe c).
  - induction s as [|c s IH]; [done|]. cbn [all_chars HTMLEscape].
    intros [Hc Hs]%andb_prop. apply negb_true_iff in Hc.
    by rewrite escape_char_plain, IH.
Qed.

Lemma HTMLEscape_removes_markup_witness :
  HTMLEscape "<b>Tom & Jerry's</b>" = "&lt;b&gt;Tom &amp; Jerry&apos;s&lt;/b&gt;" /\
  HTMLEscape "pump1 on" = "pump1 on".
Proof.
  split; [reflexivity|].
  apply (proj2 (HTMLEscape_removes_markup "pump1 on")). reflexivity.
Defined.

(** ** More on the accept loop *)

(** X13. The accept loop and the failures of [accept].  Of the exceptions
    that [except Exception] takes, the first one with error 113 ends the
    loop, which then returns normally: nothing after it is processed; any
    other one is skipped.  An exception that is no [Exception] (a
    KeyboardInterrupt, a SystemExit) is not taken: the loop ends with it,
    and nothing after it is processed.  The accepted connections are
    processed one after the other, in order. *)
Theorem serverProcess_stops_at_113 `{Interpreter} srv pre post ex args0 :
  (is_Exception ex = true ->
     _serverProcess srv (pre ++ AcceptRaised ex (Some 113) :: post) = _serverProcess srv pre) /\
  (is_Exception ex = true -> args0 <> Some 113 ->
     _serverProcess srv (AcceptRaised ex args0 :: post) = _serverProcess srv post) /\
  (is_Exception ex = false ->
     _serverProcess srv (AcceptRaised ex args0 :: post) = ([], Raise ex)) /\
  (forall cs rest,
     _serverProcess srv ((Accepted <$> cs) ++ rest) =
       (concat ((fun c => fst (_processRequest srv c)) <$> cs)
          ++ fst (_serverProcess srv rest),
        snd (_serverProcess srv rest))).
Proof.
  split; [|split; [|split]].
  - intros Hex. induction pre as [|[c|ex' args0'] pre IH].
    + cbn [app _serverProcess is_113]. by rewrite Hex.
    + cbn [app]. rewrite !serverProcess_accepted. by rewrite IH.
    + cbn [app _serverProcess]. by rewrite IH.
  - intros Hex Hne. cbn [_serverProcess]. rewrite Hex.
    destruct args0 as [n|]; [|done]. cbn [is_113].
    destruct (Z.eqb_spec n 113) as [->|_]; done.
  - intros Hex. cbn [_serverProcess]. by rewrite Hex.
  - intros cs rest. induction cs as [|c cs IH].
    + cbn [fmap list_fmap concat app]. by destruct (_serverProcess srv rest).
    + cbn [fmap list_fmap concat app]. rewrite serverProcess_accepted.
      fold (Accepted <$> cs). fold ((fun c => fst (_processRequest srv c)) <$> cs).
      rewrite IH. cbn [fst snd]. by rewrite app_assoc.
Qed.

Lemma serverProcess_stops_at_113_witness :
  _serverProcess status_server
    [AcceptRaised (OtherExn "timed out") (Some 110); Accepted status_connection;
     AcceptRaised (OtherExn "host unreachable") (Some 113); Accepted status_connection]
  = _processRequest status_server status_connection /\
  _serverProcess status_server
    [AcceptRaised (BaseExn "KeyboardInterrupt") None; Accepted status_connection]
  = ([], Raise (BaseExn "KeyboardInterrupt")).
Proof.
  destruct (serverProcess_stops_at_113 status_server
              [AcceptRaised (OtherExn "timed out") (Some 110); Accepted status_connection]
              [Accepted status_connection] (OtherExn "host unreachable") None)
    as (Hstop & _ & _ & _).
  destruct (serverProcess_stops_at_113 status_server []
              [Accepted status_connection] (OtherExn "timed out") (Some 110))
    as (_ & Hskip & _ & _).
  destruct (serverProcess_stops_at_113 status_server []
              [Accepted status_connection] (BaseExn "KeyboardInterrupt") None)
    as (_ & _ & Hleave & _).
  split.
  - cbn [app] in Hstop. rewrite (Hstop eq_refl).
    rewrite (Hskip eq_refl) by discriminate. reflexivity.
  - apply Hleave. reflexivity.
Defined.

(** ** More on the route table *)

Lemma upper_char_idemp c : upper_char (upper_char c) = upper_char c.
Proof. by destruct c as [[] [] [] [] [] [] [] []]. Qed.

Lemma upper_char_ascii c : is_ascii (upper_char c) = is_ascii c.
Proof. by destruct c as [[] [] [] [] [] [] [] []]. Qed.

Lemma ascii_only_map_chars f s :
  (forall c, is_ascii (f c) = is_ascii c) ->
  ascii_only (map_chars f s) = ascii_only s.
Proof.
  intros Hf. unfold ascii_only. induction s as [|c s IH]; [done|].
  cbn [map_chars all_chars]. by rewrite Hf, IH.
Qed.

Lemma map_chars_twice f s :
  (forall c, f (f c) = f c) -> map_chars f (map_chars f s) = map_chars f s.
Proof.
  intros Hf. induction s as [|c s IH]; [done|]. cbn [map_chars]. by rewrite Hf, IH.
Qed.

Lemma upper_idemp `{Interpreter} s : PyStr.upper (PyStr.upper s) = PyStr.upper s.
Proof.
  unfold PyStr.upper. unfold on_ascii at 2 3. destruct (ascii_only s) eqn:Hs.
  - unfold on_ascii. rewrite (ascii_only_map_chars _ _ upper_char_ascii), Hs.
    apply map_chars_twice, upper_char_idemp.
  - apply upper_beyond_ascii_twice.
Qed.

Lemma rev_app_string (a b : string) : PyStr.rev (a +:+ b) = PyStr.rev b +:+ PyStr.rev a.
Proof.
  unfold PyStr.rev. rewrite list_ascii_app, rev_app_distr.
  generalize (List.rev (list_ascii_of_string b)) as x.
  generalize (List.rev (list_ascii_of_string a)) as y.
  intros y x. induction x as [|c x IH]; [done|].
  cbn [app string_of_list_ascii]. by rewrite string_app_cons, IH.
Qed.

Lemma endswith_slash_app s : PyStr.endswith "/" (s +:+ "/") = true.
Proof.
  unfold PyStr.endswith. rewrite rev_app_string.
  change (PyStr.rev "/") with "/". by rewrite string_app_cons.
Qed.

Lemma init_app_slash s : PyStr.init (s +:+ "/") = s.
Proof.
  induction s as [|c s IH]; [done|].
  rewrite string_app_cons. cbn [PyStr.init]. rewrite IH.
  destruct s as [|d s]; [done|]. by rewrite string_app_cons.
Qed.

Lemma route_loop_sound `{Interpreter} {Handler : Type} (rhs : list (MicroWebSrvRoute Handler)) url m f args :
  route_loop rhs url m = (Some f, args) ->
  exists rh, rh ∈ rhs /\ func rh = f /\ method rh = m /\
             is_Some (Re.exec (routeRegex rh) url) /\
             (args = None <-> routeArgNames rh = []).
Proof.
  induction rhs as [|rh rhs IH]; cbn [route_loop]; [done|].
  destruct (String.eqb_spec (method rh) m) as [Hm|_].
  - destruct (Re.exec (routeRegex rh) url) as [groups|] eqn:Hex.
    + intros Hres. exists rh. split; [by left|].
      destruct (routeArgNames rh); injection Hres as <- <-; repeat split; eauto; done.
    + intros (rh' & ? & ?)%IH. exists rh'. split; [by right|done].
  - intros (rh' & ? & ?)%IH. exists rh'. split; [by right|done].
Qed.

(** X14. [GetRouteHandler] reads the request method without regard to
    case and drops one trailing slash of the path; what it returns is the
    function of an entry of the table whose stored method is the
    upper-cased request method and whose expression matches the path
    without that slash, with arguments exactly when the entry has argument
    names.  So an entry stored with a method that is not in upper case is
    never returned. *)
Theorem GetRouteHandler_normalises `{Interpreter} {Handler : Type}
    (rhs : list (MicroWebSrvRoute Handler)) resUrl meth :
  GetRouteHandler rhs resUrl (PyStr.upper meth) = GetRouteHandler rhs resUrl meth /\
  (PyStr.endswith "/" resUrl = false ->
   GetRouteHandler rhs (resUrl +:+ "/") meth = GetRouteHandler rhs resUrl meth) /\
  (forall f args,
     GetRouteHandler rhs resUrl meth = (Some f, args) ->
     exists rh, rh ∈ rhs /\ func rh = f /\
                method rh = PyStr.upper meth /\ PyStr.upper (method rh) = method rh /\
                is_Some (Re.exec (routeRegex rh) (trim_slash resUrl)) /\
                (args = None <-> routeArgNames rh = [])).
Proof.
  unfold GetRouteHandler. split; [|split].
  - by rewrite upper_idemp.
  - intros Hno. destruct rhs as [|rh rhs]; [done|].
    unfold trim_slash. by rewrite endswith_slash_app, init_app_slash, Hno.
  - intros f args. destruct rhs as [|rh0 rhs]; [done|].
    intros (rh & Hin & Hf & Hm & Hex & Hargs)%route_loop_sound.
    exists rh. repeat split; try done; try apply Hargs.
    rewrite Hm. apply upper_idemp.
Qed.

Lemma GetRouteHandler_normalises_witness :
  let rhs := default [] (build_routes relay_routes) in
  GetRouteHandler rhs "/status/" "get" = GetRouteHandler rhs "/status" "GET" /\
  fst (GetRouteHandler rhs "/status" "GET") = Some 3%nat /\
  GetRouteHandler (default [] (build_routes [("/status", "get", 3%nat)])) "/status" "get"
    = (None, None).
Proof.
  intros rhs.
  destruct (GetRouteHandler_normalises rhs "/status" "get") as (Hupper & Hslash & _).
  split; [|split; reflexivity].
  change "/status/" with ("/status" +:+ "/").
  rewrite (Hslash eq_refl). rewrite <- Hupper. reflexivity.
Defined.

Lemma route_args_last `{Interpreter} names groups (args : gmap string RouteArg) i name :
  names !! i = Some name ->
  (forall j, (i < j)%nat -> names !! j <> Some name) ->
  route_args names groups args !! name = Some (coerce (default "" (groups !! i))).
Proof.
  revert groups args i. induction names as [|n names IH]; intros groups args i Hi Hlast;
    [done|].
  cbn [route_args]. destruct i as [|i].
  - injection Hi as ->. rewrite route_args_other.
    + rewrite lookup_insert_eq. by destruct groups.
    + intros [j Hj]%list_elem_of_lookup. by apply (Hlast (S j)); [lia|].
  - rewrite (IH _ _ i); [by destruct groups|done|].
    intros j Hj. apply (Hlast (S j)). lia.
Qed.

(** X15. When a route names the same argument at several captures, the
    value stored under that name is the one of the last of them; a name
    the route does not have is not in the dictionary.  Each stored value
    is the coerced text of the group of its capture. *)
Theorem route_args_last_capture_wins `{Interpreter} names groups i name :
  (names !! i = Some name ->
   (forall j, (i < j)%nat -> names !! j <> Some name) ->
   route_args names groups ∅ !! name = Some (coerce (default "" (groups !! i)))) /\
  (name ∉ names -> route_args names groups ∅ !! name = None).
Proof.
  split.
  - apply route_args_last.
  - intros Hnot. by rewrite route_args_other.
Qed.

Lemma route_args_last_capture_wins_witness :
  route_args ["id"; "id"] ["1"; "2"] ∅ !! "id" = Some (ArgInt 2) /\
  route_args ["id"; "id"] ["1"; "2"] ∅ !! "name" = None.
Proof.
  split.
  - rewrite (proj1 (route_args_last_capture_wins ["id"; "id"] ["1"; "2"] 1 "id"));
      [reflexivity|reflexivity|].
    intros [|[|[|j]]] Hj; try lia; discriminate.
  - apply (proj2 (route_args_last_capture_wins ["id"; "id"] ["1"; "2"] 0 "name")).
    rewrite !not_elem_of_cons. repeat split; try discriminate. apply not_elem_of_nil.
Defined.

Lemma uint_all_word `{Interpreter} d : all_chars Re.is_word (NilEmpty.string_of_uint d) = true.
Proof. induction d; cbn [NilEmpty.string_of_uint all_chars]; [done|..]; by rewrite IHd. Qed.

Lemma fmt_d_all_word `{Interpreter} n : 0 <= n -> all_chars Re.is_word (PyStr.fmt_d n) = true.
Proof.
  intros Hn. destruct n as [|p|p]; [done| |lia].
  unfold PyStr.fmt_d. cbn [Z.to_int NilZero.string_of_int]. unfold NilZero.string_of_uint.
  destruct (Pos.to_uint p) eqn:Hp; [done|..]; rewrite <- Hp; apply uint_all_word.
Qed.

Lemma rev_word_head `{Interpreter} act :
  act <> "" -> all_chars Re.is_word act = true ->
  exists c r, PyStr.rev act = String c r /\ Re.is_word c = true.
Proof.
  induction act as [|x act IH]; [done|]. intros _ [Hx Hact]%andb_prop.
  change (String x act) with (String x "" +:+ act). rewrite rev_app_string.
  change (PyStr.rev (String x "")) with (String x "").
  destruct act as [|y act].
  - exists x, "". done.
  - destruct (IH ltac:(done) Hact) as (c & r & -> & Hc).
    exists c, (r +:+ String x ""). by rewrite string_app_cons.
Qed.

Lemma endswith_slash_word `{Interpreter} a act :
  act <> "" -> all_chars Re.is_word act = true ->
  PyStr.endswith "/" (a +:+ act) = false.
Proof.
  intros Hne Hact. unfold PyStr.endswith. rewrite rev_app_string.
  destruct (rev_word_head act Hne Hact) as (c & r & -> & Hc).
  change (PyStr.rev "/") with "/". rewrite string_app_cons. cbn [PyStr.startswith].
  destruct (Ascii.eqb_spec "/" c) as [<-|]; [discriminate Hc|done].
Qed.

(** [int] reads back what the format wrote, up to the interpreter's
    limit. *)
Lemma py_int_fmt_d `{Interpreter} n :
  0 <= n -> within_int_limit (String.length (PyStr.fmt_d n)) = true ->
  py_int (PyStr.fmt_d n) = Some n.
Proof.
  intros Hn Hlim. destruct n as [|p|p]; [|clear Hn|lia].
  - unfold py_int. rewrite Hlim. reflexivity.
  - destruct (fmt_d_uint p) as (d & Hd & Heq & Hval). rewrite Heq in Hlim |- *.
    rewrite py_int_uint by done. by rewrite <- horner_of_uint, Hval.
Qed.

(** X16. The relay route of the controller, [/relay/<channel>/<action>],
    gives its handler the channel as an integer and the action as a
    string, on every interpreter: for every number n from 0 on whose
    decimal text is not longer than the interpreter's limit for [int]
    (MicroPython has none, CPython refuses more than 4300 digits) and every
    action made of word characters that [int] does not parse, a GET of the
    path with the decimal text of n and the action finds the route and
    passes channel = n and action = the text. *)
Theorem relay_route_arguments `{Interpreter} {Handler : Type} (f : Handler) n act :
  0 <= n -> within_int_limit (String.length (PyStr.fmt_d n)) = true ->
  act <> "" -> all_chars Re.is_word act = true -> py_int act = None ->
  exists rh,
    route_entry ("/relay/<channel>/<action>", "GET", f) = Some rh /\
    GetRouteHandler [rh] ("/relay/" +:+ PyStr.fmt_d n +:+ "/" +:+ act) "GET"
      = (Some f, Some (<["action" := ArgStr act]> (<["channel" := ArgInt n]> ∅))).
Proof.
  intros Hn Hlim Hne Hword Hint.
  set (rt := "/relay/<channel>/<action>").
  assert (Hsegs : pattern_segments rt = ["relay"; "<channel>"; "<action>"]) by reflexivity.
  assert (Hentry : route_entry (rt, "GET", f) =
            Some (mkRoute rt "GET" f ["channel"; "action"]
                    (concat (piece_atoms <$> pattern_segments rt) ++ [Re.Eos]))).
  { unfold route_entry. rewrite route_regex_pieces. unfold Re.compile.
    rewrite parse_pieces; [done|]. rewrite Hsegs. repeat constructor. }
  eexists. split; [exact Hentry|].
  unfold GetRouteHandler, trim_slash.
  replace ("/relay/" +:+ PyStr.fmt_d n +:+ "/" +:+ act)
    with (("/relay/" +:+ PyStr.fmt_d n +:+ "/") +:+ act)
    by (by rewrite !string_app_assoc).
  rewrite endswith_slash_word by done.
  cbn [route_loop method routeRegex routeArgNames func].
  change (PyStr.upper "GET") with "GET". rewrite String.eqb_refl.
  assert (Hexec : Re.exec (concat (piece_atoms <$> pattern_segments rt) ++ [Re.Eos])
                    (("/relay/" +:+ PyStr.fmt_d n +:+ "/") +:+ act)
                  = Some [PyStr.fmt_d n; act]).
  { apply exec_pieces. exists ["relay"; PyStr.fmt_d n; act]. rewrite Hsegs.
    split; [|split].
    - left. cbn [join_path]. rewrite string_app_nil_r, !string_app_assoc. reflexivity.
    - repeat constructor.
      + change (segment_accepts "<channel>" (PyStr.fmt_d n))
          with (all_chars Re.is_word (PyStr.fmt_d n)).
        by apply fmt_d_all_word.
      + exact Hword.
    - reflexivity. }
  rewrite Hexec. cbn [route_args List.hd List.tl]. unfold coerce.
  by rewrite py_int_fmt_d, Hint.
Qed.

Lemma relay_route_arguments_witness :
  exists rh : MicroWebSrvRoute nat,
    route_entry ("/relay/<channel>/<action>", "GET", 7%nat) = Some rh /\
    GetRouteHandler [rh] "/relay/3/off" "GET"
      = (Some 7%nat, Some (<["action" := ArgStr "off"]> (<["channel" := ArgInt 3]> ∅))).
Proof.
  apply (relay_route_arguments 7%nat 3 "off");
    [lia|reflexivity|discriminate|reflexivity|reflexivity].
Defined.

(** ** More on static paths *)

Lemma replace_no_occurrence old new s :
  PyStr.contains old s = false -> PyStr.replace old new s = s.
Proof.
  unfold PyStr.replace. induction s as [|c s IH]; [done|].
  cbn [PyStr.contains PyStr.replace_from].
  intros [Hstart Hrest]%orb_false_elim. rewrite Hstart. by rewrite IH.
Qed.

Lemma startswith_app a b : PyStr.startswith a (a +:+ b) = true.
Proof.
  induction a as [|c a IH]; [done|].
  rewrite string_app_cons. cbn [PyStr.startswith]. by rewrite Ascii.eqb_refl.
Qed.

Lemma find_first {A} (f : A -> bool) (l : list A) i x :
  l !! i = Some x -> f x = true ->
  (forall j y, (j < i)%nat -> l !! j = Some y -> f y = false) ->
  List.find f l = Some x.
Proof.
  revert i. induction l as [|a l IH]; intros i Hi Hx Hbefore; [done|].
  cbn [List.find]. destruct i as [|i].
  - injection Hi as ->. by rewrite Hx.
  - rewrite (Hbefore 0%nat a) by (done || lia).
    apply (IH i); [done|done|]. intros j y Hj Hy. apply (Hbefore (S j)); [lia|done].
Qed.

(** X17. A physical path [_physPathFromURLPath] returns names an existing
    file and begins with the web root.  For a path other than [/] in
    which [../] does not occur the file looked up is the web root followed
    by the path unchanged.  For [/] the result is the first index page, in
    the order of the list, that exists, and none when no index page
    exists. *)
Theorem physPath_names_existing_file fileExists webPath urlPath :
  (forall p, _physPathFromURLPath fileExists webPath urlPath = Some p ->
     fileExists p = true /\ PyStr.startswith webPath p = true) /\
  (urlPath <> "/" -> PyStr.contains "../" urlPath = false ->
     _physPathFromURLPath fileExists webPath urlPath =
       if fileExists (webPath +:+ urlPath) then Some (webPath +:+ urlPath) else None) /\
  (forall i page,
     _indexPages !! i = Some page ->
     fileExists (webPath +:+ "/" +:+ page) = true ->
     (forall j page', (j < i)%nat -> _indexPages !! j = Some page' ->
        fileExists (webPath +:+ "/" +:+ page') = false) ->
     _physPathFromURLPath fileExists webPath "/" = Some (webPath +:+ "/" +:+ page)) /\
  ((forall page, page ∈ _indexPages -> fileExists (webPath +:+ "/" +:+ page) = false) ->
     _physPathFromURLPath fileExists webPath "/" = None).
Proof.
  unfold _physPathFromURLPath. split; [|split; [|split]].
  - intros p. destruct (String.eqb_spec urlPath "/") as [->|Hne].
    + intros [Hin Hex]%List.find_some. split; [done|].
      apply list_elem_of_In, list_elem_of_fmap in Hin as (page & -> & _).
      apply startswith_app.
    + destruct (fileExists _) eqn:Hex; [|done]. intros [= <-].
      split; [done|apply startswith_app].
  - intros Hne Hno. destruct (String.eqb_spec urlPath "/") as [->|_]; [done|].
    by rewrite replace_no_occurrence.
  - intros i page Hi Hex Hbefore. cbn [String.eqb Ascii.eqb Bool.eqb].
    apply (find_first _ _ i).
    + by rewrite list_lookup_fmap, Hi.
    + done.
    + intros j y Hj. rewrite list_lookup_fmap.
      destruct (_indexPages !! j) as [page'|] eqn:Hj'; [|done].
      intros [= <-]. by apply (Hbefore j).
  - intros Hnone. cbn [String.eqb Ascii.eqb Bool.eqb].
    destruct (List.find _ _) as [p|] eqn:Hfind; [|done].
    apply List.find_some in Hfind as [Hin Hex].
    apply list_elem_of_In, list_elem_of_fmap in Hin as (page & -> & Hpage).
    by rewrite Hnone in Hex.
Qed.

Lemma physPath_names_existing_file_witness :
  let fileExists := fun p => String.eqb p "/flash/www/index.html"
                             || String.eqb p "/flash/www/default.htm"
                             || String.eqb p "/flash/www/css/site.css" in
  _physPathFromURLPath fileExists "/flash/www" "/" = Some "/flash/www/index.html" /\
  _physPathFromURLPath fileExists "/flash/www" "/css/site.css"
    = Some "/flash/www/css/site.css".
Proof.
  intros fileExists.
  destruct (physPath_names_existing_file fileExists "/flash/www" "/css/site.css")
    as (_ & Hplain & _ & _).
  destruct (physPath_names_existing_file fileExists "/flash/www" "/")
    as (_ & _ & Hindex & _).
  split.
  - apply (Hindex 1%nat "index.html"); [reflexivity|reflexivity|].
    intros [|j] page' Hj; [|lia]. intros [= <-]. reflexivity.
  - rewrite Hplain; [reflexivity|discriminate|reflexivity].
Defined.

Lemma lower_upper_char c : lower_char (upper_char c) = lower_char c.
Proof. by destruct c as [[] [] [] [] [] [] [] []]. Qed.

Lemma lower_upper `{Interpreter} s :
  ascii_only s = true -> PyStr.lower (PyStr.upper s) = PyStr.lower s.
Proof.
  intros Hs. unfold PyStr.lower, PyStr.upper, on_ascii.
  rewrite Hs, (ascii_only_map_chars _ _ upper_char_ascii), Hs.
  clear Hs. induction s as [|c s IH]; [done|].
  cbn [map_chars]. by rewrite lower_upper_char, IH.
Qed.

(** X18. The content type of a file name, and the test for a template
    page, depend on the lower-case form of the name only: two names with
    the same lower-case form get the same answers.  For a name of ASCII
    characters they do not change when the name is put in upper case.
    (Beyond ASCII they may: on CPython the upper-case form of [x.cß] is
    [X.CSS].)  A type is returned only for a name that, in lower case,
    ends with an extension of the table, and it is the type listed with
    such an extension; no type means that the name ends with none of
    them. *)
Theorem mime_type_ignores_case `{Interpreter} fname :
  (ascii_only fname = true ->
     GetMimeTypeFromFilename (PyStr.upper fname) = GetMimeTypeFromFilename fname /\
     _isPyHTMLFile (PyStr.upper fname) = _isPyHTMLFile fname) /\
  (forall other, PyStr.lower other = PyStr.lower fname ->
     GetMimeTypeFromFilename other = GetMimeTypeFromFilename fname /\
     _isPyHTMLFile other = _isPyHTMLFile fname) /\
  (forall mime, GetMimeTypeFromFilename fname = Some mime ->
     exists ext, (ext, mime) ∈ _mimeTypes /\
                 PyStr.endswith ext (PyStr.lower fname) = true) /\
  (GetMimeTypeFromFilename fname = None ->
     forall ext mime, (ext, mime) ∈ _mimeTypes ->
       PyStr.endswith ext (PyStr.lower fname) = false).
Proof.
  unfold GetMimeTypeFromFilename, _isPyHTMLFile.
  split; [|split; [|split]].
  - intros Hascii. by rewrite lower_upper.
  - intros other ->. done.
  - intros mime.
    destruct (List.find _ _mimeTypes) as [[ext m]|] eqn:Hfind; [|done].
    intros [= <-]. apply List.find_some in Hfind as [Hin Hend].
    exists ext. split; [by apply list_elem_of_In|done].
  - destruct (List.find _ _mimeTypes) as [[ext m]|] eqn:Hfind; [done|].
    intros _ ext mime Hin.
    apply (List.find_none _ _ Hfind (ext, mime)). by apply list_elem_of_In.
Qed.

Lemma mime_type_ignores_case_witness :
  GetMimeTypeFromFilename (PyStr.upper "/flash/www/logo.png") = Some "image/png" /\
  (forall ext mime, (ext, mime) ∈ _mimeTypes ->
     PyStr.endswith ext (PyStr.lower "/flash/www/boot.py") = false).
Proof.
  destruct (mime_type_ignores_case "/flash/www/logo.png") as (Hcase & _ & _ & _).
  destruct (mime_type_ignores_case "/flash/www/boot.py") as (_ & _ & _ & Hnone).
  split.
  - rewrite (proj1 (Hcase eq_refl)). reflexivity.
  - apply Hnone. reflexivity.
Defined.

(** ** The responses of one connection *)

Lemma processRequest_after_dispatch `{Interpreter} srv c t :
  (dispatch srv c = (t, Val tt) ->
   _processRequest srv c = (t ++ fst (close_connection c), Val tt)) /\
  (forall e, dispatch srv c = (t, Raise e) ->
   _processRequest srv c = (t ++ EvStatus 500 :: fst (close_connection c), Val tt)).
Proof.
  unfold _processRequest.
  destruct (close_connection_shape c) as (tc & oc & -> & Hoc & _).
  split.
  - intros ->. cbn. destruct oc as [[]|ec|]; [| |done]; cbn; by rewrite ?app_nil_r.
  - intros e ->. cbn. destruct oc as [[]|ec|]; [| |done]; cbn;
      by rewrite ?app_nil_r, <- ?app_assoc.
Qed.

(** X19. A request line that does not parse gets no response at all: the
    connection is only closed.  A header line that is malformed gets the
    400 response, and an exception while the headers are read gets the 500
    response; both are followed by the close. *)
Theorem unparsable_request_responses `{Interpreter} srv c :
  (first_line c = None ->
     _processRequest srv c = (fst (close_connection c), Val tt)) /\
  (forall meth resPath, first_line c = Some (meth, resPath) ->
     header_lines c = HeadersMalformed ->
     _processRequest srv c = (EvStatus 400 :: fst (close_connection c), Val tt)) /\
  (forall meth resPath e, first_line c = Some (meth, resPath) ->
     header_lines c = HeadersRaised e ->
     _processRequest srv c = (EvStatus 500 :: fst (close_connection c), Val tt)).
Proof.
  split; [|split].
  - intros Hline.
    apply (proj1 (processRequest_after_dispatch srv c [])).
    unfold dispatch. by rewrite Hline.
  - intros meth resPath Hline Hhdr.
    apply (proj1 (processRequest_after_dispatch srv c [EvStatus 400])).
    unfold dispatch. by rewrite Hline, Hhdr.
  - intros meth resPath e Hline Hhdr.
    apply (proj2 (processRequest_after_dispatch srv c []) e).
    unfold dispatch. by rewrite Hline, Hhdr.
Qed.

Lemma unparsable_request_responses_witness :
  let garbage := mkConnection true None (HeadersRead ∅)
                   (fun _ => false) FileUnavailable PageExecuted None None None in
  let badheader := mkConnection true (Some ("GET", "/status")) HeadersMalformed
                     (fun _ => false) FileUnavailable PageExecuted None None None in
  _processRequest status_server garbage = ([EvCloseSocket], Val tt) /\
  _processRequest status_server badheader = ([EvStatus 400; EvCloseSocket], Val tt).
Proof.
  intros garbage badheader.
  destruct (unparsable_request_responses status_server garbage) as (Hline & _ & _).
  destruct (unparsable_request_responses status_server badheader) as (_ & Hhdr & _).
  split.
  - rewrite Hline; reflexivity.
  - rewrite (Hhdr "GET" "/status"); reflexivity.
Defined.

(** X20. A request that is no upgrade and finds no route: with a method
    other than GET it gets the 405 response; with GET and no file for its
    path it gets the 404 response, or the 302 redirect when a not-found URL
    is set.  The close follows. *)
Theorem unrouted_request_responses `{Interpreter} srv c meth resPath headers :
  first_line c = Some (meth, resPath) ->
  header_lines c = HeadersRead headers ->
  not_upg (_getConnUpgrade headers) = true ->
  fst (GetRouteHandler (_routeHandlers srv) resPath meth) = None ->
  (PyStr.upper meth <> "GET" ->
     _processRequest srv c = (EvStatus 405 :: fst (close_connection c), Val tt)) /\
  (PyStr.upper meth = "GET" ->
   _physPathFromURLPath (fileExists c) (_webPath srv) resPath = None ->
   (_notFoundUrl srv = None \/ _notFoundUrl srv = Some "" ->
      _processRequest srv c = (EvStatus 404 :: fst (close_connection c), Val tt)) /\
   (forall url, _notFoundUrl srv = Some url -> url <> "" ->
      _processRequest srv c = (EvStatus 302 :: fst (close_connection c), Val tt))).
Proof.
  intros Hline Hhdr Hupg Hroute.
  assert (Hdisp : dispatch srv c =
            if String.eqb (PyStr.upper meth) "GET"
            then serve_static srv c resPath headers
            else WriteResponseError 405).
  { unfold dispatch. rewrite Hline, Hhdr, Hupg.
    destruct (GetRouteHandler _ _ _) as [[h|] args]; [discriminate Hroute|done]. }
  split.
  - intros Hne.
    apply (proj1 (processRequest_after_dispatch srv c [EvStatus 405])).
    rewrite Hdisp. by destruct (String.eqb_spec (PyStr.upper meth) "GET").
  - intros Hget Hnofile.
    assert (Hstatic : dispatch srv c = WriteResponseNotFound srv).
    { rewrite Hdisp, Hget. cbn [String.eqb Ascii.eqb Bool.eqb].
      unfold serve_static. by rewrite Hnofile. }
    split.
    + intros Hnone.
      apply (proj1 (processRequest_after_dispatch srv c [EvStatus 404])).
      rewrite Hstatic. unfold WriteResponseNotFound. by destruct Hnone as [->| ->].
    + intros url Hurl Hne.
      apply (proj1 (processRequest_after_dispatch srv c [EvStatus 302])).
      rewrite Hstatic. unfold WriteResponseNotFound. rewrite Hurl.
      by destruct (String.eqb_spec url "").
Qed.

Lemma unrouted_request_responses_witness :
  let post := mkConnection true (Some ("POST", "/nowhere")) (HeadersRead ∅)
                (fun _ => false) FileUnavailable PageExecuted None None None in
  let get := mkConnection true (Some ("GET", "/nowhere")) (HeadersRead ∅)
               (fun _ => false) FileUnavailable PageExecuted None None None in
  _processRequest status_server post = ([EvStatus 405; EvCloseSocket], Val tt) /\
  _processRequest status_server get = ([EvStatus 404; EvCloseSocket], Val tt).
Proof.
  intros post get.
  destruct (unrouted_request_responses status_server post "POST" "/nowhere" ∅)
    as [H405 _]; try reflexivity.
  destruct (unrouted_request_responses status_server get "GET" "/nowhere" ∅)
    as [_ H404]; try reflexivity.
  split.
  - rewrite H405; [reflexivity|discriminate].
  - rewrite (proj1 (H404 eq_refl eq_refl)); [reflexivity|by left].
Defined.

(** X21. What a GET without a route gets for a file that exists and is no
    template page: the 403 response when its name has no listed content
    type, so that a file of unknown type is never sent; the 304 response,
    without the file being read, when the type is known, the cache level
    is above 1 and the request carries an If-Modified-Since header.  A
    template page gets the 501 response when the template module is not
    loaded. *)
Theorem static_file_responses `{Interpreter} srv c meth resPath headers filepath :
  first_line c = Some (meth, resPath) ->
  header_lines c = HeadersRead headers ->
  not_upg (_getConnUpgrade headers) = true ->
  fst (GetRouteHandler (_routeHandlers srv) resPath meth) = None ->
  PyStr.upper meth = "GET" ->
  _physPathFromURLPath (fileExists c) (_webPath srv) resPath = Some filepath ->
  (_isPyHTMLFile filepath = false -> GetMimeTypeFromFilename filepath = None ->
     _processRequest srv c = (EvStatus 403 :: fst (close_connection c), Val tt)) /\
  (_isPyHTMLFile filepath = false -> is_Some (GetMimeTypeFromFilename filepath) ->
   1 < LetCacheStaticContentLevel srv -> is_Some (headers !! "if-modified-since") ->
     _processRequest srv c = (EvStatus 304 :: fst (close_connection c), Val tt)) /\
  (_isPyHTMLFile filepath = true -> MicroWebTemplate_loaded srv = false ->
     _processRequest srv c = (EvStatus 501 :: fst (close_connection c), Val tt)).
Proof.
  intros Hline Hhdr Hupg Hroute Hget Hfile.
  assert (Hdisp : dispatch srv c = serve_static srv c resPath headers).
  { unfold dispatch. rewrite Hline, Hhdr, Hupg.
    destruct (GetRouteHandler _ _ _) as [[h|] args]; [discriminate Hroute|].
    by rewrite Hget. }
  unfold serve_static in Hdisp. rewrite Hfile in Hdisp.
  split; [|split].
  - intros Hpy Hmime.
    apply (proj1 (processRequest_after_dispatch srv c [EvStatus 403])).
    by rewrite Hdisp, Hpy, Hmime.
  - intros Hpy [ct Hmime] Hlevel Hims.
    apply (proj1 (processRequest_after_dispatch srv c [EvStatus 304])).
    rewrite Hdisp, Hpy, Hmime.
    destruct (Z.ltb_spec 0 (LetCacheStaticContentLevel srv)); [|lia].
    destruct (Z.ltb_spec 1 (LetCacheStaticContentLevel srv)); [|lia].
    by rewrite bool_decide_eq_true_2.
  - intros Hpy Htmpl.
    apply (proj1 (processRequest_after_dispatch srv c [EvStatus 501])).
    rewrite Hdisp, Hpy. unfold WriteResponsePyHTMLFile. by rewrite Htmpl.
Qed.

Lemma static_file_responses_witness :
  let c := mkConnection true (Some ("GET", "/boot.py"))
             (HeadersRead {["if-modified-since" := "yesterday"]})
             (fun _ => true) FileSent PageExecuted None None None in
  let css := mkConnection true (Some ("GET", "/site.css"))
               (HeadersRead {["if-modified-since" := "yesterday"]})
               (fun _ => true) FileSent PageExecuted None None None in
  _processRequest status_server c = ([EvStatus 403; EvCloseSocket], Val tt) /\
  _processRequest status_server css = ([EvStatus 304; EvCloseSocket], Val tt).
Proof.
  intros c css.
  destruct (static_file_responses status_server c "GET" "/boot.py"
              {["if-modified-since" := "yesterday"]} "/flash/www/boot.py")
    as (H403 & _ & _); try reflexivity.
  destruct (static_file_responses status_server css "GET" "/site.css"
              {["if-modified-since" := "yesterday"]} "/flash/www/site.css")
    as (_ & H304 & _); try reflexivity.
  split.
  - rewrite H403; reflexivity.
  - rewrite H304; [reflexivity|reflexivity|eexists; reflexivity|reflexivity|eexists; reflexivity].
Defined.

(** X22. An upgrade request is never given to a route handler.  Unless it
    is a websocket upgrade with the websocket module loaded and an accept
    callback set, it gets the 501 response and the close, whatever routes
    the table has. *)
Theorem refused_upgrade_not_implemented `{Interpreter} srv c meth resPath headers :
  first_line c = Some (meth, resPath) ->
  header_lines c = HeadersRead headers ->
  not_upg (_getConnUpgrade headers) = false ->
  _getConnUpgrade headers <> Some "websocket" \/
  MicroWebSocket_loaded srv = false \/ AcceptWebSocketCallback srv = false ->
  _processRequest srv c = (EvStatus 501 :: fst (close_connection c), Val tt).
Proof.
  intros Hline Hhdr Hupg Hrefused.
  apply (proj1 (processRequest_after_dispatch srv c [EvStatus 501])).
  unfold dispatch. rewrite Hline, Hhdr, Hupg.
  destruct Hrefused as [Hne|[Hmod|Hcb]].
  - by rewrite bool_decide_eq_false_2.
  - rewrite Hmod. by rewrite andb_false_r.
  - rewrite Hcb. by rewrite andb_false_r.
Qed.

Lemma refused_upgrade_not_implemented_witness :
  let c := mkConnection true (Some ("GET", "/status"))
             (HeadersRead (<["connection" := "keep-alive, Upgrade"]>
                             (<["upgrade" := "h2c"]> ∅)))
             (fun _ => false) FileUnavailable PageExecuted None None None in
  _processRequest status_server c = ([EvStatus 501; EvCloseSocket], Val tt).
Proof.
  intros c.
  rewrite (refused_upgrade_not_implemented status_server c "GET" "/status"
             (<["connection" := "keep-alive, Upgrade"]> (<["upgrade" := "h2c"]> ∅)));
    [reflexivity|reflexivity|reflexivity|reflexivity|].
  left. vm_compute. discriminate.
Defined.

(** ** Reading the request headers *)

Lemma lower_char_idemp c : lower_char (lower_char c) = lower_char c.
Proof. by destruct c as [[] [] [] [] [] [] [] []]. Qed.

Lemma lower_char_ascii c : is_ascii (lower_char c) = is_ascii c.
Proof. by destruct c as [[] [] [] [] [] [] [] []]. Qed.

Lemma lower_idemp `{Interpreter} s : PyStr.lower (PyStr.lower s) = PyStr.lower s.
Proof.
  unfold PyStr.lower. unfold on_ascii at 2 3. destruct (ascii_only s) eqn:Hs.
  - unfold on_ascii. rewrite (ascii_only_map_chars _ _ lower_char_ascii), Hs.
    apply map_chars_twice, lower_char_idemp.
  - apply lower_beyond_ascii_twice.
Qed.

Lemma parseHeader_nil `{Interpreter} meth h :
  _parseHeader meth [] h =
    if String.eqb meth "POST" || String.eqb meth "PUT" then
      match content_length h with
      | Some _ => HeadersRead h
      | None => HeadersRaised (ValueError "invalid literal for int()")
      end
    else HeadersRead h.
Proof. reflexivity. Qed.

Lemma parseHeader_cons `{Interpreter} meth l lines h :
  _parseHeader meth (l :: lines) h =
    match l with
    | inl e => HeadersRaised e
    | inr line =>
        match split_colon (strip line) with
        | (name, Some value) =>
            _parseHeader meth lines (<[PyStr.lower (strip name) := strip value]> h)
        | (EmptyString, None) => _parseHeader meth [] h
        | (String _ _, None) => HeadersMalformed
        end
    end.
Proof. reflexivity. Qed.

Lemma close_connection_header_lines `{Interpreter} lines c :
  close_connection (with_header_lines lines c) = close_connection c.
Proof. reflexivity. Qed.

(** X23. The headers end at the first blank line, or where the stream
    ends: whatever follows a blank line, the request body for one, is not
    read as a header and changes nothing of the result. *)
Theorem parseHeader_stops_at_blank_line `{Interpreter} meth pre blank post h :
  strip blank = "" ->
  _parseHeader meth (pre ++ inr blank :: post) h = _parseHeader meth pre h.
Proof.
  intros Hblank. revert h.
  induction pre as [|l pre IH]; intros h.
  - cbn [app]. rewrite parseHeader_cons, Hblank. reflexivity.
  - cbn [app]. rewrite !parseHeader_cons.
    destruct l as [e|line]; [done|].
    destruct (split_colon (strip line)) as [[|ch name] [value|]]; try done; apply IH.
Qed.

Lemma parseHeader_stops_at_blank_line_witness :
  _parseHeader "POST"
    [inr "Content-Length: 3"; inr (String "013" (String "010" "")); inr "a:b"] ∅
  = HeadersRead {["content-length" := "3"]}.
Proof.
  rewrite (parseHeader_stops_at_blank_line "POST" [inr "Content-Length: 3"]
             (String "013" (String "010" "")) [inr "a:b"] ∅); reflexivity.
Defined.

(** X24. Every header is stored under its name in lower case, so a lookup
    by a lower-case name finds a header however the request spelled it;
    no stored name has an upper-case letter. *)
Theorem parseHeader_names_lower_case `{Interpreter} meth lines headers :
  _parseHeader meth lines ∅ = HeadersRead headers ->
  forall name, is_Some (headers !! name) -> PyStr.lower name = name.
Proof.
  assert (Hgen : forall h,
    (forall name, is_Some (h !! name) -> PyStr.lower name = name) ->
    _parseHeader meth lines h = HeadersRead headers ->
    forall name, is_Some (headers !! name) -> PyStr.lower name = name).
  { induction lines as [|l lines IH]; intros h Hh.
    - rewrite parseHeader_nil.
      destruct (_ || _); [destruct (content_length h)|]; intros [= <-]; done.
    - rewrite parseHeader_cons.
      destruct l as [e|line]; [done|].
      assert (Hins : forall name' value name,
                is_Some (<[PyStr.lower (strip name') := strip value]> h !! name) ->
                PyStr.lower name = name).
      { intros name' value name.
        destruct (decide (name = PyStr.lower (strip name'))) as [->|Hne].
        - intros _. apply lower_idemp.
        - rewrite lookup_insert_ne by done. apply Hh. }
      destruct (split_colon (strip line)) as [[|ch name'] [value|]]; try done.
      + apply IH, Hins.
      + rewrite parseHeader_nil.
        destruct (_ || _); [destruct (content_length h)|]; intros [= <-]; done.
      + apply IH, Hins. }
  apply Hgen. intros name. rewrite lookup_empty. by intros [? ?].
Qed.

Lemma parseHeader_names_lower_case_witness :
  _parseHeader "GET" [inr "Connection: Upgrade"; inr "UPGRADE: WebSocket"] ∅
    = HeadersRead (<["upgrade" := "WebSocket"]> {["connection" := "Upgrade"]}) /\
  PyStr.lower "upgrade" = "upgrade".
Proof.
  split; [reflexivity|].
  apply (parseHeader_names_lower_case "GET"
           [inr "Connection: Upgrade"; inr "UPGRADE: WebSocket"]
           (<["upgrade" := "WebSocket"]> {["connection" := "Upgrade"]}));
    [reflexivity|].
  eexists. reflexivity.
Defined.

(** X25. A line that is not blank and has no colon, met after header
    lines only, makes the request malformed: it gets the 400 response and
    the close, whatever follows the line and whatever the route table
    holds. *)
Theorem line_without_colon_is_bad_request `{Interpreter} srv c meth resPath pre line post :
  first_line c = Some (meth, resPath) ->
  Forall (fun l => header_field l = true) pre ->
  strip line <> "" ->
  snd (split_colon (strip line)) = None ->
  _parseHeader meth (pre ++ inr line :: post) ∅ = HeadersMalformed /\
  _processRequest srv (with_header_lines (pre ++ inr line :: post) c)
    = (EvStatus 400 :: fst (close_connection c), Val tt).
Proof.
  intros Hline Hpre Hne Hcolon.
  assert (Hbad : forall h, _parseHeader meth (pre ++ inr line :: post) h = HeadersMalformed).
  { induction Hpre as [|l pre Hl _ IH]; intros h.
    - cbn [app]. rewrite parseHeader_cons.
      destruct (split_colon (strip line)) as [[|ch' name] [value|]] eqn:Hsplit;
        try done.
      destruct (strip line) as [|ch s]; [done|].
      cbn in Hsplit. destruct (Ascii.eqb ch ":"); [done|].
      by destruct (split_colon s).
    - cbn [app]. rewrite parseHeader_cons.
      destruct l as [e|hl]; [done|]. cbn in Hl.
      destruct (split_colon (strip hl)) as [[|ch name] [value|]]; try done; apply IH. }
  split; [apply Hbad|].
  rewrite <- (close_connection_header_lines (pre ++ inr line :: post) c).
  apply (proj1 (processRequest_after_dispatch srv _ [EvStatus 400])).
  unfold dispatch. cbn [with_header_lines first_line header_lines].
  rewrite Hline.
  change (default "" (fst <$> Some (meth, resPath))) with meth. by rewrite Hbad.
Qed.

Lemma line_without_colon_is_bad_request_witness :
  _processRequest status_server
    (with_header_lines [inr "Host: esp32"; inr "garbage"; inr ""] status_connection)
  = (EvStatus 400 :: fst (close_connection status_connection), Val tt).
Proof.
  destruct (line_without_colon_is_bad_request status_server status_connection
              "GET" "/status" [inr "Host: esp32"] "garbage" [inr ""])
    as [_ H]; [reflexivity| |discriminate|reflexivity|exact H].
  constructor; [reflexivity|constructor].
Defined.

Lemma parseHeader_method `{Interpreter} meth0 meth lines h headers :
  String.eqb meth0 "POST" || String.eqb meth0 "PUT" = false ->
  String.eqb meth "POST" || String.eqb meth "PUT" = true ->
  _parseHeader meth0 lines h = HeadersRead headers ->
  _parseHeader meth lines h =
    match content_length headers with
    | Some _ => HeadersRead headers
    | None => HeadersRaised (ValueError "invalid literal for int()")
    end.
Proof.
  intros H0 H1. revert h.
  induction lines as [|l lines IH]; intros h.
  - rewrite !parseHeader_nil, H0, H1. by intros [= <-].
  - rewrite !parseHeader_cons.
    destruct l as [e|line]; [done|].
    destruct (split_colon (strip line)) as [[|ch name] [value|]]; try done;
      try apply IH.
    rewrite !parseHeader_nil, H0, H1. by intros [= <-].
Qed.

(** X26. The Content-Length header is read as an integer for POST and PUT
    only.  Headers that any other method accepts are accepted from a POST
    or PUT as well when there is no Content-Length or its value is an
    integer; when the value is no integer the request gets the 500
    response and the close, not the 400 response. *)
Theorem content_length_read_for_post_and_put `{Interpreter} srv c meth0 meth resPath lines headers :
  String.eqb meth0 "POST" || String.eqb meth0 "PUT" = false ->
  meth = "POST" \/ meth = "PUT" ->
  first_line c = Some (meth, resPath) ->
  _parseHeader meth0 lines ∅ = HeadersRead headers ->
  (is_Some (content_length headers) ->
     _parseHeader meth lines ∅ = HeadersRead headers) /\
  (content_length headers = None ->
     _processRequest srv (with_header_lines lines c)
       = (EvStatus 500 :: fst (close_connection c), Val tt)).
Proof.
  intros H0 Hmeth Hline Hread.
  assert (H1 : String.eqb meth "POST" || String.eqb meth "PUT" = true)
    by (by destruct Hmeth as [-> | ->]).
  pose proof (parseHeader_method meth0 meth lines ∅ headers H0 H1 Hread) as Hm.
  split.
  - intros [n Hn]. by rewrite Hm, Hn.
  - intros Hnone. rewrite Hnone in Hm.
    rewrite <- (close_connection_header_lines lines c).
    apply (proj2 (processRequest_after_dispatch srv _ [])
             (ValueError "invalid literal for int()")).
    unfold dispatch. cbn [with_header_lines first_line header_lines].
    rewrite Hline.
    change (default "" (fst <$> Some (meth, resPath))) with meth. by rewrite Hm.
Qed.

Lemma content_length_read_for_post_and_put_witness :
  let c := mkConnection true (Some ("POST", "/status")) (HeadersRead ∅)
             (fun _ => false) FileUnavailable PageExecuted None None None in
  _processRequest status_server (with_header_lines [inr "Content-Length: 12 bytes"] c)
  = ([EvStatus 500; EvCloseSocket], Val tt).
Proof.
  intros c.
  destruct (content_length_read_for_post_and_put status_server c "GET" "POST" "/status"
              [inr "Content-Length: 12 bytes"] {["content-length" := "12 bytes"]})
    as [_ H]; [reflexivity|by left|reflexivity|reflexivity|].
  rewrite H; reflexivity.
Defined.

(** ** All relays at once *)

Lemma foldr_set_level (v : Z) (chs : list Z) (relays : list Z) (i : nat) :
  let set := fun (ch : Z) (r : list Z) =>
    if (0 <=? ch) && (ch <? Z.of_nat (length r)) then <[Z.to_nat ch := v]> r else r in
  length (foldr set relays chs) = length relays /\
  foldr set relays chs !! i =
    if bool_decide (Z.of_nat i ∈ chs) then (fun _ => v) <$> relays !! i else relays !! i.
Proof.
  intros set. induction chs as [|ch chs [IHlen IH]].
  - split; [done|]. rewrite bool_decide_eq_false_2; [done|]. apply not_elem_of_nil.
  - cbn [foldr]. unfold set at 1 3.
    destruct (Z.leb_spec 0 ch) as [Hlo|Hlo];
      destruct (Z.ltb_spec ch (Z.of_nat (length (foldr set relays chs)))) as [Hhi|Hhi];
      cbn [andb]; rewrite ?length_insert; (split; [done|]).
    + destruct (decide (Z.of_nat i = ch)) as [<-|Hne].
      * rewrite Nat2Z.id, list_lookup_insert_eq by lia.
        rewrite (bool_decide_eq_true_2 (Z.of_nat i ∈ Z.of_nat i :: chs))
          by (apply elem_of_cons; by left).
        destruct (relays !! i) eqn:Hi; [done|].
        apply lookup_ge_None in Hi. lia.
      * rewrite list_lookup_insert_ne by lia. rewrite IH.
        assert (Hiff : Z.of_nat i ∈ ch :: chs <-> Z.of_nat i ∈ chs)
          by (rewrite elem_of_cons; split; [intros [?|?]; [lia|done]|by right]).
        by rewrite (bool_decide_ext _ _ Hiff).
    + rewrite IH. destruct (decide (Z.of_nat i = ch)) as [<-|Hne].
      * rewrite (bool_decide_eq_true_2 (Z.of_nat i ∈ Z.of_nat i :: chs))
          by (apply elem_of_cons; by left).
        assert (relays !! i = None) as -> by (apply lookup_ge_None; lia).
        by destruct (bool_decide _).
      * assert (Hiff : Z.of_nat i ∈ ch :: chs <-> Z.of_nat i ∈ chs)
          by (rewrite elem_of_cons; split; [intros [?|?]; [lia|done]|by right]).
        by rewrite (bool_decide_ext _ _ Hiff).
    + rewrite IH.
      assert (Hiff : Z.of_nat i ∈ ch :: chs <-> Z.of_nat i ∈ chs)
        by (rewrite elem_of_cons; split; [intros [?|?]; [lia|done]|by right]).
      by rewrite (bool_decide_ext _ _ Hiff).
    + rewrite IH.
      assert (Hiff : Z.of_nat i ∈ ch :: chs <-> Z.of_nat i ∈ chs)
        by (rewrite elem_of_cons; split; [intros [?|?]; [lia|done]|by right]).
      by rewrite (bool_decide_ext _ _ Hiff).
Qed.

Lemma lookup_all_channels (v : Z) (relays : list Z) (i : nat) :
  (if bool_decide (Z.of_nat i ∈ Z.of_nat <$> seq 0 (length relays))
   then (fun _ => v) <$> relays !! i else relays !! i)
  = (fun _ => v) <$> relays !! i.
Proof.
  destruct (relays !! i) as [x|] eqn:Hi.
  - rewrite bool_decide_eq_true_2; [done|].
    apply list_elem_of_fmap. exists i. split; [done|].
    apply elem_of_seq. apply lookup_lt_Some in Hi. lia.
  - by destruct (bool_decide _).
Qed.

(** X27. [on_all] and [off_all] do what [on] and [off] do channel by
    channel over all channels of the controller, and [off_all] brings back
    the levels the controller was created with, whatever was switched
    before. *)
Theorem all_relays_is_each_relay (relays : RelayController) :
  let channels := Z.of_nat <$> seq 0 (length relays) in
  relay_on_all relays = foldr relay_on relays channels /\
  relay_off_all relays = foldr relay_off relays channels /\
  relay_off_all (relay_on_all relays) = RelayController_init relays.
Proof.
  intros channels. split; [|split].
  - apply list_eq. intros i. unfold relay_on_all. rewrite list_lookup_fmap.
    etrans; [|symmetry; exact (proj2 (foldr_set_level 0 channels relays i))].
    symmetry. apply lookup_all_channels.
  - apply list_eq. intros i. unfold relay_off_all. rewrite list_lookup_fmap.
    etrans; [|symmetry; exact (proj2 (foldr_set_level 1 channels relays i))].
    symmetry. apply lookup_all_channels.
  - unfold relay_off_all, relay_on_all, RelayController_init.
    rewrite <- list_fmap_compose. done.
Qed.
